(** * Blockchain e-voting: ledgers, transactions, blocks and chains

    A shallow embedding of [constants.py], [election.py], [utils.py] and
    [base.py], followed by the properties of the replay algorithm, of the
    two-phase signing, of transaction admission and of the chain gate.

    Python objects that are compared or hashed by identity (ballots, voters,
    choices, transactions, blocks) carry their address; attributes that are
    mutated while other objects hold a reference to them (the [chosen] flag of
    a choice, the [_reiterate] mark of a transaction) live in explicit
    stores. *)

From Stdlib Require Import ZArith Lia.
From stdpp Require Import base decidable countable gmap strings list pretty.

(** ** Exceptions *)

Inductive exn :=
  | KeyError | TypeError | AttributeError | IndexError | NameError
  | UnicodeDecodeError
  | Exception (msg : string).

(** A call on a mutable object either returns or raises; in both cases the
    object is left as the statements executed so far have made it. *)
Inductive result (S : Type) :=
  | Ok (s : S)
  | Raise (e : exn) (s : S).
Arguments Ok {S} s.
Arguments Raise {S} e s.

Definition state_of {S : Type} (m : result S) : S :=
  match m with Ok s => s | Raise _ s => s end.

Definition returns {S : Type} (m : result S) : bool :=
  match m with Ok _ => true | Raise _ _ => false end.

Definition raised {S : Type} (m : result S) : option exn :=
  match m with Ok _ => None | Raise e _ => Some e end.

(** ** constants.py *)

Inductive STATE := NOT_VOTED | VOTED | CREATED | ISSUED | USED.

Definition STATE_str (s : STATE) : string :=
  match s with
  | NOT_VOTED => "not voted"
  | VOTED => "voted"
  | CREATED => "ballot_created"
  | ISSUED => "ballot_issued"
  | USED => "ballot_used"
  end.

#[global] Instance STATE_eq_dec : EqDecision STATE.
Proof. solve_decision. Defined.

Definition STATE_code (s : STATE) : nat :=
  match s with
  | NOT_VOTED => 0 | VOTED => 1 | CREATED => 2 | ISSUED => 3 | USED => 4
  end.

Definition STATE_of_code (n : nat) : STATE :=
  match n with
  | 0 => NOT_VOTED | 1 => VOTED | 2 => CREATED | 3 => ISSUED | _ => USED
  end.

#[global] Instance STATE_countable : Countable STATE.
Proof.
  refine (inj_countable' STATE_code STATE_of_code _).
  intros []; reflexivity.
Defined.

(** ** election.py *)

(** [choice_addr] is the identity of the Choice object; its mutable [chosen]
    attribute is read from the store [mem : nat -> bool]. *)
Record Choice := {
  choice_addr : nat;
  choice_description : string
}.

Record BallotItem := {
  title : string;
  item_description : string;
  max_choices : Z;
  choices : list Choice
}.

Record Ballot := {
  ballot_addr : nat;
  ballot_id : string;
  election : string;
  items : list BallotItem
}.

Record Voter := {
  voter_addr : nat;
  name : string;
  voter_id : string
}.

(** [sep.join(l)] *)
Fixpoint join (sep : string) (l : list string) : string :=
  match l with
  | [] => ""
  | [x] => x
  | x :: rest => x +:+ sep +:+ join sep rest
  end.

(** The first binding of a name in a list of bindings. *)
Fixpoint assoc {A : Type} (x : string) (l : list (string * A)) : option A :=
  match l with
  | [] => None
  | (y, v) :: rest => if decide (x = y) then Some v else assoc x rest
  end.

Definition str_bool (b : bool) : string := if b then "True" else "False".

(** Keyword arguments of [get_signature_contents]: [None] is the empty
    dictionary, [Some b] is [include_chosen=b]. *)
Definition kwargs := option bool.

Definition include_chosen_of (kw : kwargs) : bool :=
  match kw with Some b => b | None => true end.

Definition Choice_select (c : Choice) (mem : nat -> bool) : nat -> bool :=
  fun a => if decide (a = choice_addr c) then true else mem a.

Definition Choice_unselect (c : Choice) (mem : nat -> bool) : nat -> bool :=
  fun a => if decide (a = choice_addr c) then false else mem a.

Definition Choice_get_signature_contents (mem : nat -> bool) (c : Choice)
    (kw : kwargs) : string :=
  let content_list := [choice_description c] in
  let content_list :=
    if include_chosen_of kw
    then content_list ++ [str_bool (mem (choice_addr c))]
    else content_list in
  join ":" content_list.

Definition BallotItem_get_signature_contents (mem : nat -> bool)
    (it : BallotItem) (kw : kwargs) : string :=
  join ":" ([title it; item_description it; pretty (max_choices it)]
            ++ map (fun c => Choice_get_signature_contents mem c kw) (choices it)).

Definition Ballot_get_signature_contents (mem : nat -> bool) (b : Ballot)
    (kw : kwargs) : string :=
  join ":" ([ballot_id b; election b]
            ++ map (fun it => BallotItem_get_signature_contents mem it kw) (items b)).

Definition Voter_get_signature_contents (v : Voter) (kw : kwargs) : string :=
  voter_id v.

(** The two nested loops of [Ballot.get_selected_choices]. *)
Definition get_selected_choices (mem : nat -> bool) (b : Ballot) : list Choice :=
  flat_map (fun it => filter (fun c => mem (choice_addr c) = true) (choices it))
           (items b).

(** ** The ledger dictionary

    One Python dict holds three kinds of keys: entity objects (hashed by
    identity), state strings, and Choice objects (hashed by identity); its
    values are state strings or integers. *)

Inductive key :=
  | KBallot (a : nat)
  | KVoter (a : nat)
  | KChoice (a : nat)
  | KState (s : STATE).

Inductive value :=
  | VState (s : STATE)
  | VInt (n : Z).

#[global] Instance key_eq_dec : EqDecision key.
Proof. solve_decision. Defined.

#[global] Instance value_eq_dec : EqDecision value.
Proof. solve_decision. Defined.

Definition key_code (k : key) : nat + (nat + (nat + STATE)) :=
  match k with
  | KBallot a => inl a
  | KVoter a => inr (inl a)
  | KChoice a => inr (inr (inl a))
  | KState s => inr (inr (inr s))
  end.

Definition key_of_code (c : nat + (nat + (nat + STATE))) : key :=
  match c with
  | inl a => KBallot a
  | inr (inl a) => KVoter a
  | inr (inr (inl a)) => KChoice a
  | inr (inr (inr s)) => KState s
  end.

#[global] Instance key_countable : Countable key.
Proof.
  refine (inj_countable' key_code key_of_code _).
  intros []; reflexivity.
Defined.

Abbreviation dict := (gmap key value).

(** [d[k] = d[k] + delta] *)
Definition dict_add (k : key) (delta : Z) (d : dict) : exn + dict :=
  match d !! k with
  | None => inl KeyError
  | Some (VState _) => inl TypeError
  | Some (VInt n) => inr (<[k := VInt (n + delta)]> d)
  end.

(** The content of a transaction: a Ballot or a Voter object. *)
Inductive content_obj :=
  | CBallot (b : Ballot)
  | CVoter (v : Voter).

Definition key_of_content (c : content_obj) : key :=
  match c with
  | CBallot b => KBallot (ballot_addr b)
  | CVoter v => KVoter (voter_addr v)
  end.

(** [content.get_selected_choices()]: only ballots have the method. *)
Definition content_selected_choices (mem : nat -> bool) (c : content_obj)
  : exn + list Choice :=
  match c with
  | CBallot b => inr (get_selected_choices mem b)
  | CVoter _ => inl AttributeError
  end.

(** ** utils.py

    The [cryptography] package provides the keys with their methods:
    [key_sign] is [private_key.sign] and [key_verify] tells whether
    [public_key.verify] returns rather than raises, both with the PSS padding
    and SHA-256 that [utils.py] passes; [public_key_of] is the [public_key()]
    method of a private key; [hash] is Python's built-in on a public key;
    [decode] is the [decode()] method of the bytes of a signature, which
    fails on bytes that are not UTF-8. The random salt of PSS is not
    modelled: what matters below is which message a signature was made
    for. *)
Class Crypto := {
  private_key : Type;
  public_key : Type;
  signature : Type;
  public_key_eq_dec :: EqDecision public_key;
  hash : public_key -> Z;
  public_key_of : private_key -> public_key;
  key_sign : private_key -> string -> signature;
  key_verify : public_key -> signature -> string -> bool;
  decode : signature -> option string
}.

(** [utils.sign]; a string is sent as its bytes. *)
Definition sign `{Crypto} (message : string) (sk : private_key) : signature :=
  key_sign sk message.

(** [utils.verify_signature]: [True] when [verify] returns, [False] when it
    raises. *)
Definition verify_signature `{Crypto} (message : string) (s : signature)
    (pk : public_key) : bool :=
  key_verify pk s message.

(** What the Python runtime provides: [datetime] objects with
    [utils.get_formatted_time_str] ([strftime] with the format Y-m-d H:M),
    and [hash(str(d))] of a dictionary, used by [Ledger.get_hash]. *)
Class Runtime := {
  datetime : Type;
  get_formatted_time_str : datetime -> string;
  hash_str : dict -> Z
}.

(** ** base.py *)

Section base.
Context `{Crypto} `{Runtime}.

(** The immutable part of a Node object, which is what a transaction reaches
    through its [node] attribute. *)
Record NodeKeys := {
  node_public_key : public_key;
  _private_key : private_key
}.

Definition sign_message (n : NodeKeys) (message : string) : signature :=
  sign message (_private_key n).

(** *** Transactions *)

Inductive tx_class := VoteTransaction | VoterTransaction.

Definition allowed_states (cls : tx_class) : list STATE :=
  match cls with
  | VoteTransaction => [CREATED; ISSUED; USED]
  | VoterTransaction => [NOT_VOTED; VOTED]
  end.

(** [type(content) is content_class] *)
Definition content_class_ok (cls : tx_class) (c : content_obj) : bool :=
  match cls, c with
  | VoteTransaction, CBallot _ => true
  | VoterTransaction, CVoter _ => true
  | _, _ => false
  end.

(** [tx_addr] is the identity of the Transaction object. The [_reiterate]
    mark set by the vote ledger is kept outside the record, in a store
    indexed by [tx_addr], since a batch may hold the same object twice. *)
Record Transaction := {
  tx_addr : nat;
  tx_kind : tx_class;
  content : content_obj;
  signature_kwargs : kwargs;
  previous_state : STATE;
  new_state : STATE;
  node : NodeKeys;
  timestamped : bool;
  time : option datetime;
  tx_signature : signature
}.

Definition content_get_signature_contents (mem : nat -> bool) (c : content_obj)
    (kw : kwargs) : string :=
  match c with
  | CBallot b => Ballot_get_signature_contents mem b kw
  | CVoter v => Voter_get_signature_contents v kw
  end.

(** The string built by [Transaction.get_signature_contents] from the
    attributes it reads. [get_time_str] is called where [timestamped] holds,
    and reading an unset [time] raises. *)
Definition signature_payload (mem : nat -> bool) (c : content_obj)
    (prev new : STATE) (ts : bool) (tm : option datetime) (kw : kwargs)
  : exn + string :=
  let str_list := [content_get_signature_contents mem c kw;
                   STATE_str prev;
                   STATE_str new] in
  if ts then
    match tm with
    | Some d => inr (join ":" (str_list ++ [get_formatted_time_str d]))
    | None => inl AttributeError
    end
  else inr (join ":" str_list).

Definition get_signature_contents (mem : nat -> bool) (t : Transaction)
    (kw : kwargs) : exn + string :=
  signature_payload mem (content t) (previous_state t) (new_state t)
                    (timestamped t) (time t) kw.

(** [Transaction.__init__]; [addr] is the address of the new object and
    [now] the reading of the clock. *)
Definition Transaction_init (mem : nat -> bool) (cls : tx_class) (addr : nat)
    (c : content_obj) (n : NodeKeys) (prev new : STATE) (ts : bool)
    (kw : kwargs) (now : datetime) : exn + Transaction :=
  if negb (content_class_ok cls c)
  then inl (Exception "Unexpected transaction content!")
  else if bool_decide (prev ∈ allowed_states cls)
          && bool_decide (new ∈ allowed_states cls)
  then
    let tm := if ts then Some now else None in
    match signature_payload mem c prev new ts tm kw with
    | inr msg =>
        inr {| tx_addr := addr; tx_kind := cls; content := c;
               signature_kwargs := kw;
               previous_state := prev; new_state := new; node := n;
               timestamped := ts;
               time := tm;
               tx_signature := sign_message n msg |}
    | inl e => inl e
    end
  else inl (Exception "Invalid state for transaction..add to tamper log?").

Definition verify_transaction (mem : nat -> bool) (t : Transaction)
  : exn + bool :=
  match get_signature_contents mem t (signature_kwargs t) with
  | inr msg => inr (verify_signature msg (tx_signature t)
                                     (node_public_key (node t)))
  | inl e => inl e
  end.

(** [VoteTransaction.add_timestamp(time=now)]: [time or datetime.now()] is
    [now], a datetime object. *)
Definition add_timestamp (now : datetime) (t : Transaction) : Transaction :=
  {| tx_addr := tx_addr t; tx_kind := tx_kind t; content := content t;
     signature_kwargs := signature_kwargs t;
     previous_state := previous_state t; new_state := new_state t;
     node := node t;
     timestamped := true;
     time := Some now;
     tx_signature := tx_signature t |}.

(** [tx.signature = ...] *)
Definition set_signature (s : signature) (t : Transaction) : Transaction :=
  {| tx_addr := tx_addr t; tx_kind := tx_kind t; content := content t;
     signature_kwargs := signature_kwargs t;
     previous_state := previous_state t; new_state := new_state t;
     node := node t;
     timestamped := timestamped t;
     time := time t;
     tx_signature := s |}.

(** The body of the loop of [timestamp_and_sign_transactions] for one
    transaction object, which it mutates. [add_timestamp] is a method of
    [VoteTransaction] only: on a VoterTransaction the attribute lookup raises
    and the object is left as it was. The payload is computed by
    [tx.get_signature_contents()], without keyword arguments. *)
Definition timestamp_and_sign (mem : nat -> bool) (now : datetime)
    (t : Transaction) : result Transaction :=
  match tx_kind t with
  | VoterTransaction => Raise AttributeError t
  | VoteTransaction =>
      let t1 := add_timestamp now t in
      match get_signature_contents mem t1 None with
      | inl e => Raise e t1
      | inr msg => Ok (set_signature (sign_message (node t1) msg) t1)
      end
  end.

(** [VoteTransaction.timestamp_and_sign_transactions]: one reading of the
    clock, then the loop over the batch. The result holds the objects of the
    batch as the call leaves them, also when it raises part-way. *)
Fixpoint timestamp_and_sign_transactions (mem : nat -> bool) (now : datetime)
    (transactions : list Transaction) : result (list Transaction) :=
  match transactions with
  | [] => Ok []
  | t :: rest =>
      match timestamp_and_sign mem now t with
      | Raise e t' => Raise e (t' :: rest)
      | Ok t' =>
          match timestamp_and_sign_transactions mem now rest with
          | Raise e rest' => Raise e (t' :: rest')
          | Ok rest' => Ok (t' :: rest')
          end
      end
  end.


(** *** Ledgers *)

Record VoteLedger := {
  vote_ledger : dict;
  total_ballots : Z
}.

Record VoterLedger := {
  voter_ledger : dict;
  registered_voters : Z
}.

(** [for candidate in item.choices: self.ledger[candidate] = 0] *)
Definition register_choices (cs : list Choice) (d : dict) : dict :=
  foldl (fun d c => <[KChoice (choice_addr c) := VInt 0]> d) d cs.

(** [VoteLedger.__init__]: [ballots[0]] raises on an empty list. *)
Definition VoteLedger_init (ballots : list Ballot) : exn + VoteLedger :=
  let total := Z.of_nat (length ballots) in
  let d := foldl (fun d b => <[KBallot (ballot_addr b) := VState CREATED]> d)
                 ∅ ballots in
  let d := <[KState CREATED := VInt total]> d in
  let d := <[KState ISSUED := VInt 0]> d in
  let d := <[KState USED := VInt 0]> d in
  match ballots with
  | [] => inl IndexError
  | b0 :: _ =>
      inr {| vote_ledger :=
               foldl (fun d it => register_choices (choices it) d) d (items b0);
             total_ballots := total |}
  end.

(** [VoterLedger.__init__] *)
Definition VoterLedger_init (voters : list Voter) : VoterLedger :=
  let num_voters := Z.of_nat (length voters) in
  let d := <[KState NOT_VOTED := VInt num_voters]> (∅ : dict) in
  let d := <[KState VOTED := VInt 0]> d in
  {| voter_ledger :=
       foldl (fun d v => <[KVoter (voter_addr v) := VState NOT_VOTED]> d) d voters;
     registered_voters := num_voters |}.

(** What [VoteLedger.apply_transactions] mutates: the dictionary of the
    ledger and the [_reiterate] marks of the transaction objects. *)
Record store := {
  ledger : dict;
  reiterate : gmap nat bool
}.

Definition set_ledger (d : dict) (σ : store) : store :=
  {| ledger := d; reiterate := reiterate σ |}.

Definition set_reiterate (t : Transaction) (b : bool) (σ : store) : store :=
  {| ledger := ledger σ; reiterate := <[tx_addr t := b]> (reiterate σ) |}.

(** [for candidate in candidates:
       self.ledger[candidate] = self.ledger[candidate] + 1] *)
Fixpoint update_candidates (candidates : list Choice) (d : dict) : result dict :=
  match candidates with
  | [] => Ok d
  | candidate :: rest =>
      match dict_add (KChoice (choice_addr candidate)) 1 d with
      | inl e => Raise e d
      | inr d' => update_candidates rest d'
      end
  end.

(** The statements of [VoteLedger.apply_transactions] that write to the
    dictionary once the transaction lines up with the recorded state: the
    ballot's state, the two collective totals, the candidate votes. *)
Definition update_ledger (mem : nat -> bool) (t : Transaction) (d : dict)
  : result dict :=
  let ballot := key_of_content (content t) in
  let old_state := previous_state t in
  let d0 := <[ballot := VState (new_state t)]> d in
  match dict_add (KState old_state) (-1) d0 with
  | inl e => Raise e d0
  | inr d1 =>
      match dict_add (KState (new_state t)) 1 d1 with
      | inl e => Raise e d1
      | inr d2 =>
          match content_selected_choices mem (content t) with
          | inl e => Raise e d2
          | inr candidates => update_candidates candidates d2
          end
      end
  end.

(** The body of the inner loop of [VoteLedger.apply_transactions] from
    [ballot = transaction.content] on. In the branch that applies the
    transaction, [old_state] equals [tx_previous_state]. *)
Definition apply_vote_transaction (mem : nat -> bool) (t : Transaction)
    (σ : store) : result store :=
  match ledger σ !! key_of_content (content t) with
  | None => Raise KeyError σ
  | Some old_state =>
      if decide (VState (previous_state t) = old_state) then
        match update_ledger mem t (ledger σ) with
        | Raise e d => Raise e (set_ledger d σ)
        | Ok d => Ok (set_reiterate t false (set_ledger d σ))
        end
      else Ok (set_reiterate t true σ)
  end.

(** One step of the inner loop, with the test that skips, in the second
    pass, the transactions marked [_reiterate = False]. *)
Definition vote_step (mem : nat -> bool) (iteration : nat) (t : Transaction)
    (σ : store) : result store :=
  if decide (iteration = 1) then
    match reiterate σ !! tx_addr t with
    | None => Raise AttributeError σ
    | Some false => Ok σ
    | Some true => apply_vote_transaction mem t σ
    end
  else apply_vote_transaction mem t σ.

(** [for transaction in transactions: ...] *)
Fixpoint vote_pass (mem : nat -> bool) (iteration : nat)
    (transactions : list Transaction) (σ : store) : result store :=
  match transactions with
  | [] => Ok σ
  | t :: rest =>
      match vote_step mem iteration t σ with
      | Ok σ' => vote_pass mem iteration rest σ'
      | Raise e σ' => Raise e σ'
      end
  end.

(** [for iteration in range(2): ...] *)
Definition apply_transactions (mem : nat -> bool)
    (transactions : list Transaction) (σ : store) : result store :=
  match vote_pass mem 0 transactions σ with
  | Ok σ' => vote_pass mem 1 transactions σ'
  | Raise e σ' => Raise e σ'
  end.

(** [VoteLedger.apply_transactions] on the ledger object. *)
Definition VoteLedger_apply_transactions (mem : nat -> bool)
    (transactions : list Transaction) (self : VoteLedger)
    (marks : gmap nat bool) : result (VoteLedger * gmap nat bool) :=
  let wrap σ := ({| vote_ledger := ledger σ;
                    total_ballots := total_ballots self |}, reiterate σ) in
  match apply_transactions mem transactions
          {| ledger := vote_ledger self; reiterate := marks |} with
  | Ok σ => Ok (wrap σ)
  | Raise e σ => Raise e (wrap σ)
  end.

(** The body of the loop of [VoterLedger.apply_transactions]. *)
Definition apply_voter_transaction (t : Transaction) (d : dict) : result dict :=
  let voter := key_of_content (content t) in
  match d !! voter with
  | None => Raise KeyError d
  | Some current_state =>
      if decide (current_state = VState (previous_state t)) then
        let d0 := <[voter := VState (new_state t)]> d in
        match dict_add (KState (previous_state t)) (-1) d0 with
        | inl e => Raise e d0
        | inr d1 =>
            match dict_add (KState (new_state t)) 1 d1 with
            | inl e => Raise e d1
            | inr d2 => Ok d2
            end
        end
      else Ok d
  end.

Fixpoint voter_apply_transactions (transactions : list Transaction) (d : dict)
  : result dict :=
  match transactions with
  | [] => Ok d
  | t :: rest =>
      match apply_voter_transaction t d with
      | Ok d' => voter_apply_transactions rest d'
      | Raise e d' => Raise e d'
      end
  end.

(** [VoterLedger.apply_transactions] on the ledger object. *)
Definition VoterLedger_apply_transactions (transactions : list Transaction)
    (self : VoterLedger) : result VoterLedger :=
  let wrap d := {| voter_ledger := d;
                   registered_voters := registered_voters self |} in
  match voter_apply_transactions transactions (voter_ledger self) with
  | Ok d => Ok (wrap d)
  | Raise e d => Raise e (wrap d)
  end.


(** *** Ballot generation

    Objects are allocated at increasing addresses; [chosen] holds the
    [chosen] attribute of every Choice object. *)
Record heap := {
  next_addr : nat;
  chosen : nat -> bool
}.

(** [deepcopy(choice, memo)]: an object already copied in this call is
    found in [memo]; otherwise a new Choice with the same attributes. *)
Definition deepcopy_Choice (c : Choice) (memo : gmap nat Choice) (h : heap)
  : Choice * gmap nat Choice * heap :=
  match memo !! choice_addr c with
  | Some c' => (c', memo, h)
  | None =>
      let a := next_addr h in
      let c' := {| choice_addr := a;
                   choice_description := choice_description c |} in
      (c', <[choice_addr c := c']> memo,
       {| next_addr := S a;
          chosen := fun x => if decide (x = a) then chosen h (choice_addr c)
                             else chosen h x |})
  end.

Fixpoint deepcopy_choices (cs : list Choice) (memo : gmap nat Choice)
    (h : heap) : list Choice * gmap nat Choice * heap :=
  match cs with
  | [] => ([], memo, h)
  | c :: rest =>
      let '(c', memo1, h1) := deepcopy_Choice c memo h in
      let '(rest', memo2, h2) := deepcopy_choices rest memo1 h1 in
      (c' :: rest', memo2, h2)
  end.

(** [BallotItem.__deepcopy__], called by [deepcopy(obj)] with a new memo. *)
Definition BallotItem_deepcopy (it : BallotItem) (h : heap)
  : BallotItem * heap :=
  let '(cs, _, h') := deepcopy_choices (choices it) ∅ h in
  ({| title := title it; item_description := item_description it;
      max_choices := max_choices it; choices := cs |}, h').

(** [utils.get_deep_copy_of_list] *)
Fixpoint get_deep_copy_of_list (objects : list BallotItem) (h : heap)
  : list BallotItem * heap :=
  match objects with
  | [] => ([], h)
  | obj :: rest =>
      let '(obj', h1) := BallotItem_deepcopy obj h in
      let '(rest', h2) := get_deep_copy_of_list rest h1 in
      (obj' :: rest', h2)
  end.

(** [Ballot.__init__]; [bits] is the value of [random.getrandbits(128)]. *)
Definition Ballot_init (election_name : string) (its : list BallotItem)
    (bits : N) (h : heap) : Ballot * heap :=
  ({| ballot_addr := next_addr h; ballot_id := pretty bits;
      election := election_name; items := its |},
   {| next_addr := S (next_addr h); chosen := chosen h |}).

(** The loop [for i in range(num_ballots)] of [generate_ballots], from
    index [i] on; [rand i] is the random number drawn for ballot [i]. *)
Fixpoint generate_loop (election_name : string) (its : list BallotItem)
    (rand : nat -> N) (i count : nat) (h : heap) : list Ballot * heap :=
  match count with
  | O => ([], h)
  | S count' =>
      let '(copies, h1) := get_deep_copy_of_list its h in
      let '(b, h2) := Ballot_init election_name copies (rand i) h1 in
      let '(rest, h3) := generate_loop election_name its rand (S i) count' h2 in
      (b :: rest, h3)
  end.

(** [BallotGenerator.generate_ballots]: the list it returns. *)
Definition generate_ballots (election_name : string) (its : list BallotItem)
    (num_ballots : option nat) (rand : nat -> N) (h : heap)
  : list Ballot * heap :=
  match num_ballots with
  | Some (S n) => generate_loop election_name its rand 0 (S n) h
  | _ => ([], h)
  end.

(** *** Nodes *)

Inductive node_class :=
  | VotingComputer | VoterComputer | BallotGenerator
  | AdversaryVotingComputer | AdversaryVoterComputer.

Definition is_voting_computer (cls : node_class) : bool :=
  match cls with
  | VotingComputer | AdversaryVotingComputer => true
  | _ => false
  end.

(** A Node object. The sets of Transaction objects are lists without
    repeated addresses. [pending_transactions] exists on voting computers
    only; [node_mapping] (from the hash of a public key to the address of the
    peer) and [ballot_generator] are unset until their setters run. *)
Record Node := {
  node_kind : node_class;
  node_keys : NodeKeys;
  verified_transactions : list Transaction;
  rejected_transactions : list Transaction;
  pending_transactions : option (list Transaction);
  node_mapping : option (gmap Z nat);
  ballot_generator : option NodeKeys
}.

(** [Node.__init__] and [VotingComputer.__init__] *)
Definition Node_init (cls : node_class) (pk : public_key) (sk : private_key)
  : Node :=
  {| node_kind := cls;
     node_keys := {| node_public_key := pk; _private_key := sk |};
     verified_transactions := [];
     rejected_transactions := [];
     pending_transactions := if is_voting_computer cls then Some [] else None;
     node_mapping := None;
     ballot_generator := None |}.

Definition set_node_mapping (node_dict : gmap Z nat) (self : Node) : Node :=
  {| node_kind := node_kind self; node_keys := node_keys self;
     verified_transactions := verified_transactions self;
     rejected_transactions := rejected_transactions self;
     pending_transactions := pending_transactions self;
     node_mapping :=
       Some (delete (hash (node_public_key (node_keys self))) node_dict);
     ballot_generator := ballot_generator self |}.

Definition set_ballot_generator (g : NodeKeys) (self : Node) : Node :=
  {| node_kind := node_kind self; node_keys := node_keys self;
     verified_transactions := verified_transactions self;
     rejected_transactions := rejected_transactions self;
     pending_transactions := pending_transactions self;
     node_mapping := node_mapping self;
     ballot_generator := Some g |}.

(** [s.add(t)] on a set of Transaction objects. *)
Definition set_add (t : Transaction) (s : list Transaction) : list Transaction :=
  if bool_decide (tx_addr t ∈ map tx_addr s) then s else s ++ [t].

(** [is_node_in_network], with the override of [VotingComputer]. *)
Definition is_node_in_network (self : Node) (pk : public_key) : exn + bool :=
  match node_mapping self with
  | None => inl AttributeError
  | Some m =>
      if is_voting_computer (node_kind self) then
        if bool_decide (is_Some (m !! hash pk)) then inr true
        else match ballot_generator self with
             | None => inl AttributeError
             | Some g => inr (bool_decide (pk = node_public_key g))
             end
      else inr (bool_decide (is_Some (m !! hash pk)))
  end.

Definition with_verified (s : list Transaction) (self : Node) : Node :=
  {| node_kind := node_kind self; node_keys := node_keys self;
     verified_transactions := s;
     rejected_transactions := rejected_transactions self;
     pending_transactions := pending_transactions self;
     node_mapping := node_mapping self;
     ballot_generator := ballot_generator self |}.

Definition with_rejected (s : list Transaction) (self : Node) : Node :=
  {| node_kind := node_kind self; node_keys := node_keys self;
     verified_transactions := verified_transactions self;
     rejected_transactions := s;
     pending_transactions := pending_transactions self;
     node_mapping := node_mapping self;
     ballot_generator := ballot_generator self |}.

Definition with_pending (s : list Transaction) (self : Node) : Node :=
  {| node_kind := node_kind self; node_keys := node_keys self;
     verified_transactions := verified_transactions self;
     rejected_transactions := rejected_transactions self;
     pending_transactions := Some s;
     node_mapping := node_mapping self;
     ballot_generator := ballot_generator self |}.

(** [valid = self.is_node_in_network(...) and
             Transaction.verify_transaction(transaction)] *)
Definition admission_valid (mem : nat -> bool) (self : Node) (t : Transaction)
  : exn + bool :=
  match is_node_in_network self (node_public_key (node t)) with
  | inl e => inl e
  | inr false => inr false
  | inr true => verify_transaction mem t
  end.

(** [Node.add_transaction] *)
Definition add_transaction (mem : nat -> bool) (t : Transaction) (self : Node)
  : result Node :=
  match admission_valid mem self t with
  | inl e => Raise e self
  | inr true =>
      if negb (timestamped t) then
        match pending_transactions self with
        | None => Raise AttributeError self
        | Some p => Ok (with_pending (set_add t p) self)
        end
      else Ok (with_verified (set_add t (verified_transactions self)) self)
  | inr false =>
      Ok (with_rejected (set_add t (rejected_transactions self)) self)
  end.

(** [for node in self.node_mapping.values(): node.add_transaction(tx)],
    on the peer objects, in the order of the mapping. *)
Fixpoint deliver (mem : nat -> bool) (t : Transaction) (peers : list Node)
  : result (list Node) :=
  match peers with
  | [] => Ok []
  | p :: rest =>
      match add_transaction mem t p with
      | Raise e p' => Raise e (p' :: rest)
      | Ok p' =>
          match deliver mem t rest with
          | Ok rest' => Ok (p' :: rest')
          | Raise e rest' => Raise e (p' :: rest')
          end
      end
  end.

(** [VoterComputer.broadcast_transactions]: the two loops, over the
    transactions and over the peers. *)
Fixpoint broadcast_transactions (mem : nat -> bool)
    (transactions : list Transaction) (peers : list Node)
  : result (list Node) :=
  match transactions with
  | [] => Ok peers
  | t :: rest =>
      match deliver mem t peers with
      | Ok peers' => broadcast_transactions mem rest peers'
      | Raise e peers' => Raise e peers'
      end
  end.

(** [VoterComputer.create_transaction]: the transaction is built and signed
    by the node, put in its own verified set, and sent to the peers, whose
    objects [self.node_mapping.values()] gives. [addr] is the address of the
    new Transaction object. *)
Definition VoterComputer_create_transaction (mem : nat -> bool) (addr : nat)
    (now : datetime) (voter : Voter) (self : Node) (peers : list Node)
  : result (Node * list Node) :=
  match Transaction_init mem VoterTransaction addr (CVoter voter)
          (node_keys self) NOT_VOTED VOTED true None now with
  | inl e => Raise e (self, peers)
  | inr tx =>
      let self' :=
        with_verified (set_add tx (verified_transactions self)) self in
      match node_mapping self with
      | None => Raise AttributeError (self', peers)
      | Some _ =>
          match broadcast_transactions mem [tx] peers with
          | Ok peers' => Ok (self', peers')
          | Raise e peers' => Raise e (self', peers')
          end
      end
  end.

(** *** Blocks *)

Inductive block_class := BlockBase | VoteBlock | VoterBlock.

Inductive ledger_obj :=
  | AVoteLedger (l : VoteLedger)
  | AVoterLedger (l : VoterLedger).

(** [type(ledger) is self.ledger_class]; [Block.ledger_class] is [None]. *)
Definition ledger_class_ok (cls : block_class) (l : ledger_obj) : bool :=
  match cls, l with
  | VoteBlock, AVoteLedger _ => true
  | VoterBlock, AVoterLedger _ => true
  | _, _ => false
  end.

Definition ledger_dict (l : ledger_obj) : dict :=
  match l with
  | AVoteLedger l => vote_ledger l
  | AVoterLedger l => voter_ledger l
  end.

(** [Ledger.get_hash] *)
Definition Ledger_get_hash (l : ledger_obj) : Z := hash_str (ledger_dict l).

(** A Block object; [previous_block] refers to another Block or is [None]. *)
#[warnings="-register-all"] Inductive Block := mkBlock {
  block_addr : nat;
  block_kind : block_class;
  transactions : list Transaction;
  previous_block : option Block;
  block_ledger : ledger_obj;
  block_time : datetime;
  header : signature;
  block_node : NodeKeys
}.

(** The items put in [str_list]: strings, the bytes of a header, the integer
    of a ledger hash. *)
Inductive item :=
  | IStr (s : string)
  | IBytes (b : signature)
  | IInt (n : Z).

(** [":".join(str_list)] accepts strings only. *)
Fixpoint join_items (l : list item) : exn + list string :=
  match l with
  | [] => inr []
  | IStr s :: rest =>
      match join_items rest with
      | inr ss => inr (s :: ss)
      | inl e => inl e
      end
  | _ :: _ => inl TypeError
  end.

(** [tx.signature.decode()] for each transaction of a block. *)
Fixpoint decode_signatures (txs : list Transaction) : exn + list item :=
  match txs with
  | [] => inr []
  | tx :: rest =>
      match decode (tx_signature tx) with
      | None => inl UnicodeDecodeError
      | Some s =>
          match decode_signatures rest with
          | inr ss => inr (IStr s :: ss)
          | inl e => inl e
          end
      end
  end.

(** The names bound where the body of [Block.get_signature_contents] runs:
    its parameter [self] (the other local names hold no block), and no
    global of [base.py] named [block]. *)
Definition scope_of_get_signature_contents (self : Block)
  : list (string * Block) :=
  [("self", self)].

Definition lookup_name (x : string) (scope : list (string * Block))
  : option Block :=
  assoc x scope.

(** [Block.get_signature_contents]: the loop reads the name [block]. *)
Definition Block_get_signature_contents (self : Block) : exn + string :=
  let str_list :=
    match previous_block self with
    | Some p => [IBytes (header p)]
    | None => [IStr ""]
    end in
  match lookup_name "block" (scope_of_get_signature_contents self) with
  | None => inl NameError
  | Some block =>
      match decode_signatures (transactions block) with
      | inl e => inl e
      | inr sigs =>
          let str_list := str_list ++ sigs in
          let str_list := str_list ++ [IInt (Ledger_get_hash (block_ledger self))] in
          let str_list :=
            str_list ++ [IStr (get_formatted_time_str (block_time self))] in
          match join_items str_list with
          | inl e => inl e
          | inr ss => inr (join ":" ss)
          end
      end
  end.

(** The functions defined in the body of class [Block] that take [self]
    alone; [__init__] and [__eq__] are in the class too. *)
Inductive block_method := M_get_signature_contents | M_is_genesis_block.

Definition Block_attributes : list (string * option block_method) :=
  [("ledger_class", None); ("__init__", None); ("__eq__", None);
   ("get_signature_contents", Some M_get_signature_contents);
   ("is_genesis_block", Some M_is_genesis_block)].

(** [Block.<name>]: the attribute of the class, if it has one. *)
Definition Block_getattr (x : string) : option (option block_method) :=
  assoc x Block_attributes.

(** [Block.__init__]; [addr] is the address of the new object, [now] the
    reading of the clock. The message to sign is [Block.get_hash(self)]. *)
Definition Block_init (cls : block_class) (addr : nat)
    (txs : list Transaction) (l : ledger_obj) (n : NodeKeys)
    (prev_block : option Block) (now : datetime) : exn + Block :=
  if negb (ledger_class_ok cls l) then inl TypeError
  else
    match Block_getattr "get_hash" with
    | Some (Some M_get_signature_contents) =>
        match Block_get_signature_contents
                (mkBlock addr cls txs prev_block l now (sign_message n "") n) with
        | inl e => inl e
        | inr msg =>
            inr (mkBlock addr cls txs prev_block l now (sign_message n msg) n)
        end
    | Some _ => inl TypeError
    | None => inl AttributeError
    end.

(** *** Blockchain *)

Record Blockchain := {
  current_ledger : ledger_obj;
  current_block : option Block
}.

Definition Blockchain_init (initial_ledger : ledger_obj) : Blockchain :=
  {| current_ledger := initial_ledger; current_block := None |}.

(** [a is b] on references to blocks (or [None]). *)
Definition is_same (a b : option Block) : bool :=
  bool_decide (block_addr <$> a = block_addr <$> b).

(** [Blockchain.add_block]; [true] when the block became the head. *)
Definition add_block (block : Block) (self : Blockchain) : Blockchain * bool :=
  if is_same (previous_block block) (current_block self)
  then ({| current_ledger := current_ledger self;
           current_block := Some block |}, true)
  else (self, false).

(** [Blockchain.add_block_2]: the block's link is assigned, then the head. *)
Definition add_block_2 (block : Block) (self : Blockchain) : Blockchain :=
  let block' := mkBlock (block_addr block) (block_kind block)
                        (transactions block) (current_block self)
                        (block_ledger block) (block_time block)
                        (header block) (block_node block) in
  {| current_ledger := current_ledger self; current_block := Some block' |}.

(** [Blockchain.remove_block] *)
Definition remove_block (block : Block) (self : Blockchain) : result Blockchain :=
  Raise (Exception "The blockchain does not allow removing blocks as it serves as an audit trail. Append blocks correcting any mistakes, if any.") self.

End base.

(** ** Notions used to state the properties *)

Section notions.
Context `{Crypto} `{Runtime}.

(** The sum of the collective totals kept under the state keys [sts]. *)
Fixpoint counter_sum (sts : list STATE) (d : dict) : option Z :=
  match sts with
  | [] => Some 0%Z
  | s :: rest =>
      match d !! KState s, counter_sum rest d with
      | Some (VInt n), Some m => Some (n + m)%Z
      | _, _ => None
      end
  end.

(** The vote count recorded for a Choice object. *)
Definition tally (d : dict) (c : Choice) : option Z :=
  match d !! KChoice (choice_addr c) with
  | Some (VInt n) => Some n
  | _ => None
  end.

(** A transaction as [Transaction.__init__] lets it through: a content of
    the class of its kind and two states of the kind's [allowed_states]. *)
Definition constructed (t : Transaction) : Prop :=
  content_class_ok (tx_kind t) (content t) = true
  /\ previous_state t ∈ allowed_states (tx_kind t)
  /\ new_state t ∈ allowed_states (tx_kind t).

(** Vote ledgers (with the marks of the transactions seen so far) obtained
    from [VoteLedger(ballots)] by calls of [apply_transactions] on batches of
    VoteTransaction objects, whether a call returns or raises. *)
Inductive vote_reachable (ballots : list Ballot)
  : VoteLedger * gmap nat bool -> Prop :=
  | vote_reachable_init L marks :
      VoteLedger_init ballots = inr L ->
      vote_reachable ballots (L, marks)
  | vote_reachable_apply mem txs L marks :
      vote_reachable ballots (L, marks) ->
      Forall (fun t => tx_kind t = VoteTransaction /\ constructed t) txs ->
      vote_reachable ballots
        (state_of (VoteLedger_apply_transactions mem txs L marks)).

(** Voter ledgers obtained from [VoterLedger(voters)] by calls of
    [apply_transactions] on batches of VoterTransaction objects. *)
Inductive voter_reachable (voters : list Voter) : VoterLedger -> Prop :=
  | voter_reachable_init :
      voter_reachable voters (VoterLedger_init voters)
  | voter_reachable_apply txs L :
      voter_reachable voters L ->
      Forall (fun t => tx_kind t = VoterTransaction /\ constructed t) txs ->
      voter_reachable voters
        (state_of (VoterLedger_apply_transactions txs L)).

(** Two runs of [apply_transactions] that leave the same dictionary (the
    state of every ballot, the collective totals, the candidate votes) and
    end the same way. *)
Definition same_snapshot (r1 r2 : result store) : Prop :=
  ledger (state_of r1) = ledger (state_of r2) /\ raised r1 = raised r2.



#[global] Instance constructed_dec t : Decision (constructed t).
Proof. unfold constructed. apply _. Defined.

(** The edges of the two state machines: Created -> Issued -> Used for a
    ballot, NotVoted -> Voted for a voter. *)
Definition legal_edge (t : Transaction) : Prop :=
  (previous_state t, new_state t)
    ∈ [(CREATED, ISSUED); (ISSUED, USED); (NOT_VOTED, VOTED)].

#[global] Instance legal_edge_dec t : Decision (legal_edge t).
Proof. unfold legal_edge. apply _. Defined.

(** How far a state is along its machine. *)
Definition rank (s : STATE) : nat :=
  match s with
  | NOT_VOTED | CREATED => 0
  | VOTED | ISSUED => 1
  | USED => 2
  end.

(** The dictionary records, for the entity of [t], a state at or beyond the
    new state of [t]: the edge of [t] has been applied to it. *)
Definition already_applied (t : Transaction) (d : dict) : Prop :=
  exists s, d !! key_of_content (content t) = Some (VState s)
            /\ rank (new_state t) <= rank s.

#[global] Instance already_applied_dec t d : Decision (already_applied t d).
Proof.
  unfold already_applied.
  destruct (d !! key_of_content (content t)) as [[s|n]|].
  - destruct (decide (rank (new_state t) <= rank s)) as [Hle|Hgt].
    + left. by exists s.
    + right. intros (s' & [= <-] & Hle). by apply Hgt.
  - right. by intros (s' & [=] & _).
  - right. by intros (s' & [=] & _).
Defined.

(** The precondition of [t] fails on the dictionary: the entity of [t] is
    recorded, with something else than the previous state of [t]. *)
Definition deferred_on (d : dict) (t : Transaction) : Prop :=
  exists v, d !! key_of_content (content t) = Some v
            /\ VState (previous_state t) <> v.

#[global] Instance deferred_on_dec d t : Decision (deferred_on d t).
Proof.
  unfold deferred_on.
  destruct (d !! key_of_content (content t)) as [v|].
  - destruct (decide (VState (previous_state t) = v)) as [E|Hne].
    + right. intros (v' & [= <-] & Hne). by apply Hne.
    + left. by exists v.
  - right. by intros (v' & [=] & _).
Defined.

(** The states of a Node object from its construction on, through its
    setters, the admission of transactions and, on a node whose keys belong
    together, [VoterComputer.create_transaction], while no ballot is
    modified (the store [mem] of the [chosen] attributes stays the same). *)
Inductive node_reachable (mem : nat -> bool) : Node -> Prop :=
  | node_reachable_init cls pk sk :
      node_reachable mem (Node_init cls pk sk)
  | node_reachable_mapping node_dict n :
      node_reachable mem n ->
      node_reachable mem (set_node_mapping node_dict n)
  | node_reachable_generator g n :
      node_reachable mem n ->
      node_reachable mem (set_ballot_generator g n)
  | node_reachable_admit t n :
      node_reachable mem n ->
      node_reachable mem (state_of (add_transaction mem t n))
  | node_reachable_create addr now voter peers n :
      node_reachable mem n ->
      node_public_key (node_keys n) = public_key_of (_private_key (node_keys n)) ->
      node_reachable mem
        (fst (state_of (VoterComputer_create_transaction
                          mem addr now voter n peers))).

(** The keys of ballots and voters. *)
Definition is_entity_key (k : key) : Prop :=
  match k with
  | KBallot _ | KVoter _ => True
  | _ => False
  end.

(** The Choice objects of a ballot. *)
Definition ballot_choices (b : Ballot) : list Choice :=
  flat_map choices (items b).

(** What a step does is decided by the dictionary alone: either it raises,
    or it returns a dictionary and the mark it sets on its transaction. *)
Definition vote_effect (mem : nat -> bool) (u : Transaction) (d : dict)
  : result (dict * bool) :=
  match d !! key_of_content (content u) with
  | None => Raise KeyError (d, true)
  | Some old =>
      if decide (VState (previous_state u) = old) then
        match update_ledger mem u d with
        | Raise e d' => Raise e (d', true)
        | Ok d' => Ok (d', false)
        end
      else Ok (d, true)
  end.

(** The two runs agree on the dictionary, in which [t] is stale, and on
    every mark but the one of [t]. *)
Definition agree (t : Transaction) (σ1 σ2 : store) : Prop :=
  ledger σ1 = ledger σ2
  /\ already_applied t (ledger σ1)
  /\ forall a, a <> tx_addr t -> reiterate σ1 !! a = reiterate σ2 !! a.

Definition marked (t : Transaction) (σ : store) : Prop :=
  reiterate σ !! tx_addr t = Some true.

Definition agree_results (t : Transaction) (σ1 σ2 : store) (hit : Prop)
    (r1 r2 : result store) : Prop :=
  match r1, r2 with
  | Ok s1, Ok s2 =>
      agree t s1 s2 /\ (marked t σ1 -> marked t s1)
      /\ (marked t σ2 -> marked t s2)
      /\ (hit -> marked t s1 /\ marked t s2)
  | Raise e1 s1, Raise e2 s2 => e1 = e2 /\ ledger s1 = ledger s2
  | _, _ => False
  end.

(** The length of [":".join(l)], plus one, for a list that is not empty. *)
Fixpoint weight (l : list string) : nat :=
  match l with
  | [] => 0
  | x :: rest => S (String.length x) + weight rest
  end.

End notions.

(** ** A concrete election, used to run the definitions *)

(** A signature scheme in which a signature names its signer and its
    message, so that it verifies for that key and that message only. *)
Definition ideal_crypto : Crypto := {|
  private_key := nat;
  public_key := nat;
  signature := nat * string;
  hash := Z.of_nat;
  public_key_of := fun sk => sk;
  key_sign := fun sk m => (sk, m);
  key_verify := fun pk s m => bool_decide (s = (pk, m));
  decode := fun s => Some (snd s)
|}.

(** Time counted in minutes. *)
Definition minute_runtime : Runtime := {|
  datetime := nat;
  get_formatted_time_str := fun d => pretty d;
  hash_str := fun d => Z.of_nat (size d)
|}.

#[global] Existing Instance ideal_crypto.
#[global] Existing Instance minute_runtime.

Definition choice_X (a : nat) : Choice :=
  {| choice_addr := a; choice_description := "X" |}.
Definition choice_Y (a : nat) : Choice :=
  {| choice_addr := a; choice_description := "Y" |}.

Definition president (cs : list Choice) : BallotItem :=
  {| title := "President"; item_description := "President of the United States";
     max_choices := 1; choices := cs |}.

(** Two ballots with the same content, each with its own Choice objects. *)
Definition b1 : Ballot :=
  {| ballot_addr := 1; ballot_id := "1"; election := "2018 Election";
     items := [president [choice_X 10; choice_Y 11]] |}.
Definition b2 : Ballot :=
  {| ballot_addr := 2; ballot_id := "2"; election := "2018 Election";
     items := [president [choice_X 20; choice_Y 21]] |}.

Definition voter1 : Voter :=
  {| voter_addr := 31; name := "Mateusz Gembarzewski"; voter_id := "1" |}.
Definition voter2 : Voter :=
  {| voter_addr := 32; name := "Jai Punjwani"; voter_id := "2" |}.

Definition keys_of (k : nat) : NodeKeys (H := ideal_crypto) :=
  {| node_public_key := k; _private_key := k |}.

(** No choice is selected. *)
Definition blank : nat -> bool := fun _ => false.

(** The transaction built by [Transaction.__init__], or one that no ledger
    knows when the constructor raises. *)
Definition built (r : exn + Transaction) : Transaction :=
  match r with
  | inr t => t
  | inl _ =>
      {| tx_addr := 0; tx_kind := VoterTransaction;
         content := CVoter {| voter_addr := 0; name := ""; voter_id := "" |};
         signature_kwargs := None; previous_state := NOT_VOTED;
         new_state := NOT_VOTED; node := keys_of 0; timestamped := false;
         time := None; tx_signature := (0, "") |}
  end.

(** An untimestamped VoteTransaction on ballot [b], signed by node 7. *)
Definition vote_tx (mem : nat -> bool) (addr : nat) (b : Ballot)
    (prev new : STATE) (kw : kwargs) : Transaction :=
  built (Transaction_init mem VoteTransaction addr (CBallot b) (keys_of 7)
           prev new false kw 0).

(** A timestamped VoterTransaction on voter [v], signed by node 8. *)
Definition voter_tx (addr : nat) (v : Voter) (prev new : STATE) : Transaction :=
  built (Transaction_init blank VoterTransaction addr (CVoter v) (keys_of 8)
           prev new true None 0).

Definition ledger_of (r : exn + VoteLedger) : VoteLedger :=
  match r with
  | inr L => L
  | inl _ => {| vote_ledger := ∅; total_ballots := 0 |}
  end.

(** [VoteLedger([b1, b2])] and [VoteLedger([b1])] *)
Definition ledger12 : VoteLedger := ledger_of (VoteLedger_init [b1; b2]).
Definition ledger1 : VoteLedger := ledger_of (VoteLedger_init [b1]).

Definition store_of (L : VoteLedger) : store :=
  {| ledger := vote_ledger L; reiterate := ∅ |}.

(** Two ballots made by [generate_ballots] from one list of items, with
    objects allocated from address 100 on. *)
Definition template : list BallotItem :=
  [president [choice_X 10; choice_Y 11]].

Definition heap0 : heap := {| next_addr := 100; chosen := blank |}.

Definition generated : list Ballot * heap :=
  generate_ballots "2018 Election" template (Some 2) (fun i => N.of_nat i) heap0.

Definition generated_ballot (i : nat) : Ballot :=
  default b1 (fst generated !! i).

(** Blocks written down directly, with the ledger of the concrete election:
    a first block, a second one built on it, and a third one built on the
    first as well. *)
Definition block_at (addr : nat) (prev : option Block) (hd : string) : Block :=
  mkBlock addr VoteBlock [] prev (AVoteLedger ledger12) 0 (7, hd) (keys_of 7).

Definition block_A : Block := block_at 401 None "A".
Definition block_B : Block := block_at 402 (Some block_A) "B".
Definition block_C : Block := block_at 403 (Some block_A) "C".

(** The chain whose head is [block_B]. *)
Definition chain_AB : Blockchain :=
  {| current_ledger := AVoteLedger ledger12; current_block := Some block_B |}.

(** A voter computer and a voting computer that know the node with key 8. *)
Definition voter_computer : Node :=
  set_node_mapping {[ 8%Z := 1 ]} (Node_init VoterComputer 9 9).

Definition voting_computer : Node :=
  set_ballot_generator (keys_of 7)
    (set_node_mapping {[ 8%Z := 1 ]} (Node_init VotingComputer 6 6)).

(** An untimestamped VoterTransaction on [voter1], signed by node 8. *)
Definition untimestamped_voter_tx : Transaction :=
  built (Transaction_init blank VoterTransaction 200 (CVoter voter1)
           (keys_of 8) NOT_VOTED VOTED false None 0).

(** A timestamped VoteTransaction Issued -> Used on [b1], signed by node 8
    while no choice is selected. *)
Definition timestamped_vote_tx : Transaction :=
  built (Transaction_init blank VoteTransaction 210 (CBallot b1)
           (keys_of 8) ISSUED USED true None 0).

(** A voting computer set up as the adversary nodes are: with a mapping
    (that holds the node with key 5) and without a ballot generator. *)
Definition adversary_voting_computer : Node :=
  set_node_mapping {[ 5%Z := 1 ]} (Node_init VotingComputer 6 6).

(** ** election.py: filling a ballot in *)

(** [BallotItem.clear] *)
Definition BallotItem_clear (it : BallotItem) (mem : nat -> bool) : nat -> bool :=
  foldl (fun m choice => Choice_unselect choice m) mem (choices it).

(** The loop of [BallotItem.max_choices_selected], entered with the count
    [selected]. *)
Fixpoint max_choices_selected_from (mem : nat -> bool) (max : Z) (selected : Z)
    (cs : list Choice) : bool :=
  match cs with
  | [] => false
  | choice :: rest =>
      let selected :=
        if mem (choice_addr choice) then (selected + 1)%Z else selected in
      if (selected =? max)%Z then true
      else max_choices_selected_from mem max selected rest
  end.

Definition max_choices_selected (mem : nat -> bool) (it : BallotItem) : bool :=
  max_choices_selected_from mem (max_choices it) 0 (choices it).

(** [BallotItem.vote] *)
Definition BallotItem_vote (description : string) (it : BallotItem)
    (mem : nat -> bool) : nat -> bool :=
  foldl (fun m i => if decide (description = choice_description i)
                    then Choice_select i m else m)
        mem (choices it).

(** The inner loop of [Ballot.is_filled], which stops at the first chosen
    choice. *)
Fixpoint item_filled (mem : nat -> bool) (cs : list Choice) : bool :=
  match cs with
  | [] => false
  | choice :: rest =>
      if mem (choice_addr choice) then true else item_filled mem rest
  end.

Fixpoint is_filled_items (mem : nat -> bool) (its : list BallotItem) : bool :=
  match its with
  | [] => true
  | it :: rest =>
      if negb (item_filled mem (choices it)) then false
      else is_filled_items mem rest
  end.

(** [Ballot.is_filled] *)
Definition is_filled (mem : nat -> bool) (b : Ballot) : bool :=
  is_filled_items mem (items b).

(** A call that returns a value or raises, leaving the objects it works on
    in the state [s]. *)
Inductive outcome (S A : Type) :=
  | Return (a : A) (s : S)
  | Throw (e : exn) (s : S).
Arguments Return {S A} a s.
Arguments Throw {S A} e s.

Definition outcome_state {S A : Type} (o : outcome S A) : S :=
  match o with Return _ s => s | Throw _ s => s end.

Definition returned {S A : Type} (o : outcome S A) : option A :=
  match o with Return a _ => Some a | Throw _ _ => None end.

(** ** base.py: the nodes at work *)

Section nodes_at_work.
Context `{Crypto} `{Runtime}.

(** [transaction.content.id] *)
Definition content_id (c : content_obj) : string :=
  match c with
  | CBallot b => ballot_id b
  | CVoter v => voter_id v
  end.

(** The loop of [VotingComputer.create_transaction] over the pending
    transactions. *)
Fixpoint ballot_issued_in (pending : list Transaction) (ballot : Ballot)
    (ballot_issued : bool) : bool :=
  match pending with
  | [] => ballot_issued
  | transaction :: rest =>
      ballot_issued_in rest ballot
        (if bool_decide (content_id (content transaction) = ballot_id ballot)
            && bool_decide (new_state transaction = ISSUED)
         then true else ballot_issued)
  end.

(** [VotingComputer.create_transaction]; [addr] is the address of the new
    Transaction object. *)
Definition VotingComputer_create_transaction (mem : nat -> bool) (addr : nat)
    (now : datetime) (ballot : Ballot) (self : Node) : outcome Node bool :=
  match pending_transactions self with
  | None => Throw AttributeError self
  | Some p =>
      if ballot_issued_in p ballot false then
        match Transaction_init mem VoteTransaction addr (CBallot ballot)
                (node_keys self) ISSUED USED false None now with
        | inl e => Throw e self
        | inr tx => Return true (with_pending (set_add tx p) self)
        end
      else Return false self
  end.



(** [BallotGenerator.create_transaction]; the voting machines are the
    objects that [self.node_mapping.values()] gives. *)
Definition BallotGenerator_create_transaction (mem : nat -> bool) (addr : nat)
    (now : datetime) (ballot : Ballot) (self : Node) (voting_machines : list Node)
  : outcome (Node * list Node) bool :=
  match Transaction_init mem VoteTransaction addr (CBallot ballot)
          (node_keys self) CREATED ISSUED false (Some false) now with
  | inl e => Throw e (self, voting_machines)
  | inr tx =>
      match node_mapping self with
      | None => Throw AttributeError (self, voting_machines)
      | Some _ =>
          match deliver mem tx voting_machines with
          | Ok machines' => Return true (self, machines')
          | Raise e machines' => Throw e (self, machines')
          end
      end
  end.

(** A BallotGenerator object: the node, and the two attributes that
    [generate_ballots] sets, the master tuple and the list of the ballots
    not handed out yet. *)
Record BallotGeneratorObj := {
  generator : Node;
  master_ballots : option (list Ballot);
  available_ballots : option (list Ballot)
}.

(** [BallotGenerator.generate_ballots] on the object. *)
Definition BallotGenerator_generate_ballots (election_name : string)
    (its : list BallotItem) (num_ballots : option nat) (rand : nat -> N)
    (h : heap) (self : BallotGeneratorObj)
  : list Ballot * BallotGeneratorObj * heap :=
  let '(bs, h') := generate_ballots election_name its num_ballots rand h in
  (bs, {| generator := generator self; master_ballots := Some bs;
          available_ballots := Some bs |}, h').

(** [BallotGenerator.are_ballots_available] *)
Definition are_ballots_available (self : BallotGeneratorObj) : exn + bool :=
  match available_ballots self with
  | None => inl AttributeError
  | Some l => inr (bool_decide (0 < length l))
  end.

(** [l.remove(b)]: the first element that is [b] is taken out. *)
Fixpoint list_remove (b : Ballot) (l : list Ballot) : option (list Ballot) :=
  match l with
  | [] => None
  | x :: rest =>
      if decide (ballot_addr x = ballot_addr b) then Some rest
      else cons x <$> list_remove b rest
  end.

(** [BallotGenerator.is_legitimate_ballot] *)
Definition is_legitimate_ballot (self : BallotGeneratorObj) (ballot : Ballot)
  : exn + bool :=
  match master_ballots self with
  | None => inl AttributeError
  | Some bs => inr (bool_decide (ballot_addr ballot ∈ map ballot_addr bs))
  end.

(** [BallotGenerator.retrieve_ballot]; [r] is the index drawn by
    [random.choice] and [addr] the address of the new Transaction. *)
Definition retrieve_ballot (mem : nat -> bool) (addr : nat) (now : datetime)
    (r : nat) (self : BallotGeneratorObj) (voting_machines : list Node)
  : outcome (BallotGeneratorObj * list Node) (option Ballot) :=
  match available_ballots self with
  | None => Throw AttributeError (self, voting_machines)
  | Some l =>
      if bool_decide (0 < length l) then
        match l !! (r `mod` length l) with
        | None => Throw IndexError (self, voting_machines)
        | Some ballot =>
            match list_remove ballot l with
            | None => Throw (Exception "list.remove(x): x not in list")
                            (self, voting_machines)
            | Some l' =>
                let self' := {| generator := generator self;
                                master_ballots := master_ballots self;
                                available_ballots := Some l' |} in
                match BallotGenerator_create_transaction mem addr now ballot
                        (generator self) voting_machines with
                | Return _ (g, machines') =>
                    Return (Some ballot)
                      ({| generator := g;
                          master_ballots := master_ballots self;
                          available_ballots := Some l' |}, machines')
                | Throw e (g, machines') =>
                    Throw e ({| generator := g;
                                master_ballots := master_ballots self;
                                available_ballots := Some l' |}, machines')
                end
            end
        end
      else Return None (self, voting_machines)
  end.

(** *** setup.py: the network *)

(** The dictionary filled by the first loop of [set_up_nodes]; the node made
    from the [i]-th key is the object at address [first + i]. *)
Fixpoint build_node_mapping (first : nat) (sks : list private_key)
    (node_mapping : gmap Z nat) : gmap Z nat :=
  match sks with
  | [] => node_mapping
  | sk :: rest =>
      build_node_mapping (S first) rest
        (<[hash (public_key_of sk) := first]> node_mapping)
  end.

(** [set_up_nodes(NodeClass, num_nodes)], with the private keys that
    [rsa.generate_private_key] returns. *)
Definition set_up_nodes (cls : node_class) (first : nat)
    (sks : list private_key) : list Node :=
  let nodes := map (fun sk => Node_init cls (public_key_of sk) sk) sks in
  let node_mapping := build_node_mapping first sks ∅ in
  if decide (length sks = 1) then nodes
  else map (set_node_mapping node_mapping) nodes.

(** *** Blocks *)

(** [Block.is_genesis_block] *)
Definition is_genesis_block (self : Block) : bool :=
  match previous_block self with
  | Some _ => true
  | None => false
  end.

End nodes_at_work.

(** ** Notions used to state further properties *)

Section more_notions.
Context `{Crypto} `{Runtime}.

(** The number of the ballots of [bs] that the dictionary records in state
    [s]. *)
Definition ballots_in_state (bs : list Ballot) (d : dict) (s : STATE) : nat :=
  length (filter (fun b => d !! KBallot (ballot_addr b) = Some (VState s)) bs).

(** The number of the voters of [vs] that the dictionary records in state
    [s]. *)
Definition voters_in_state (vs : list Voter) (d : dict) (s : STATE) : nat :=
  length (filter (fun v => d !! KVoter (voter_addr v) = Some (VState s)) vs).

(** The shape of the dictionary of a vote ledger over the ballots [bs]: a
    ballot state for each ballot and for nothing else, the three collective
    totals, each the number of ballots in its state, and an integer that is
    not negative under each candidate key. *)
Definition vote_ledger_shape (bs : list Ballot) (d : dict) : Prop :=
  (forall b, b ∈ bs ->
     exists s, s ∈ [CREATED; ISSUED; USED]
               /\ d !! KBallot (ballot_addr b) = Some (VState s))
  /\ (forall a, a ∉ map ballot_addr bs -> d !! KBallot a = None)
  /\ (forall a, d !! KVoter a = None)
  /\ (forall s, s ∈ [CREATED; ISSUED; USED] ->
        d !! KState s = Some (VInt (Z.of_nat (ballots_in_state bs d s))))
  /\ (forall s, s ∉ [CREATED; ISSUED; USED] -> d !! KState s = None)
  /\ (forall a v, d !! KChoice a = Some v -> exists n, v = VInt n /\ (0 <= n)%Z).

(** The shape of the dictionary of a voter ledger over the voters [vs]. *)
Definition voter_ledger_shape (vs : list Voter) (d : dict) : Prop :=
  (forall v, v ∈ vs ->
     exists s, s ∈ [NOT_VOTED; VOTED]
               /\ d !! KVoter (voter_addr v) = Some (VState s))
  /\ (forall a, a ∉ map voter_addr vs -> d !! KVoter a = None)
  /\ (forall a, d !! KBallot a = None)
  /\ (forall a, d !! KChoice a = None)
  /\ (forall s, s ∈ [NOT_VOTED; VOTED] ->
        d !! KState s = Some (VInt (Z.of_nat (voters_in_state vs d s))))
  /\ (forall s, s ∉ [NOT_VOTED; VOTED] -> d !! KState s = None).

(** The number of the keys of [ks] under which the dictionary holds the
    state [s]. *)
Definition keys_in_state (ks : list key) (d : dict) (s : STATE) : nat :=
  length (filter (fun k => d !! k = Some (VState s)) ks).

(** A call that returns, or raises KeyError and nothing else. *)
Definition only_KeyError {S : Type} (r : result S) : Prop :=
  raised r = None \/ raised r = Some KeyError.

(** The keys of a list of ballots and of a list of voters. *)
Definition ballot_keys (bs : list Ballot) : list key :=
  map (fun b => KBallot (ballot_addr b)) bs.

Definition voter_keys (vs : list Voter) : list key :=
  map (fun v => KVoter (voter_addr v)) vs.

(** The number of times the Choice object at [a] is among [cs]. *)
Definition times_selected (a : nat) (cs : list Choice) : nat :=
  length (filter (fun c => choice_addr c = a) cs).

End more_notions.

(** The number of the choices of [cs] that are selected. *)
Definition selected_count (mem : nat -> bool) (cs : list Choice) : Z :=
  Z.of_nat (length (filter (fun c => mem (choice_addr c) = true) cs)).

(** The item has a selected choice. *)
Definition has_selection (mem : nat -> bool) (it : BallotItem) : Prop :=
  exists c, c ∈ choices it /\ mem (choice_addr c) = true.


Section altered_transactions.
Context `{Crypto} `{Runtime}.

(** A transaction object whose [new_state] attribute has been assigned
    after the signature was made. *)
Definition set_new_state (s : STATE) (t : Transaction) : Transaction :=
  {| tx_addr := tx_addr t; tx_kind := tx_kind t; content := content t;
     signature_kwargs := signature_kwargs t;
     previous_state := previous_state t; new_state := s; node := node t;
     timestamped := timestamped t; time := time t;
     tx_signature := tx_signature t |}.

(** The same for [previous_state]. *)
Definition set_previous_state (s : STATE) (t : Transaction) : Transaction :=
  {| tx_addr := tx_addr t; tx_kind := tx_kind t; content := content t;
     signature_kwargs := signature_kwargs t;
     previous_state := s; new_state := new_state t; node := node t;
     timestamped := timestamped t; time := time t;
     tx_signature := tx_signature t |}.

(** The keys of a node belong together. *)
Definition matched_keys (n : NodeKeys) : Prop :=
  node_public_key n = public_key_of (_private_key n).

End altered_transactions.

Section node_notions.
Context `{Crypto} `{Runtime}.

(** The pending set holds an issuance of a ballot with the id of [b]. *)
Definition issuance_pending (p : list Transaction) (b : Ballot) : Prop :=
  exists t, t ∈ p /\ content_id (content t) = ballot_id b
            /\ new_state t = ISSUED.

(** A voting computer that has its mapping and the ballot generator with
    the public key of [g], and no transaction object at [addr] yet. *)
Definition knows_generator (g : NodeKeys) (addr : nat) (m : Node) : Prop :=
  is_voting_computer (node_kind m) = true
  /\ is_Some (node_mapping m)
  /\ (exists g', ballot_generator m = Some g'
                 /\ node_public_key g' = node_public_key g)
  /\ exists p, pending_transactions m = Some p /\ addr ∉ map tx_addr p.



End node_notions.

Section network_notions.
Context `{Crypto} `{Runtime}.

(** The key under which [set_up_nodes] files the node made from [sk]. *)
Definition mapping_key (sk : private_key) : Z := hash (public_key_of sk).

End network_notions.

(** *** Copies *)

(** Every Choice object of the items is allocated in the heap. *)
Definition allocated (h : heap) (its : list BallotItem) : Prop :=
  forall it c, it ∈ its -> c ∈ choices it -> choice_addr c < next_addr h.

(** An address stands for one object. *)
Definition one_object_per_address (cs : list Choice) : Prop :=
  forall c1 c2, c1 ∈ cs -> c2 ∈ cs -> choice_addr c1 = choice_addr c2 -> c1 = c2.

(** [c'], read in the heap [h'], has the description and the selection
    that [c] has in the heap [h]. *)
Definition choice_copy (h h' : heap) (c c' : Choice) : Prop :=
  choice_description c' = choice_description c
  /\ chosen h' (choice_addr c') = chosen h (choice_addr c).

Definition item_copy (h h' : heap) (it it' : BallotItem) : Prop :=
  title it' = title it /\ item_description it' = item_description it
  /\ max_choices it' = max_choices it
  /\ Forall2 (choice_copy h h') (choices it) (choices it').

Section peer_notions.
Context `{Crypto} `{Runtime}.

(** A node other than a voting computer whose mapping has the public key of
    [g]. *)
Definition trusts (g : NodeKeys) (m : Node) : Prop :=
  is_voting_computer (node_kind m) = false
  /\ exists mm, node_mapping m = Some mm
                /\ is_Some (mm !! hash (node_public_key g)).

End peer_notions.

Section delivery_notions.
Context `{Crypto} `{Runtime}.

(** A node other than a voting computer whose mapping is set. *)
Definition plain_peer (m : Node) : Prop :=
  is_voting_computer (node_kind m) = false /\ is_Some (node_mapping m).

(** What a node other than a voting computer does with a timestamped
    transaction that verifies: verified when its mapping has the issuer,
    rejected when it does not. *)
Definition files_by_trust (tx : Transaction) (m m' : Node) : Prop :=
  (trusts (node tx) m ->
   m' = with_verified (set_add tx (verified_transactions m)) m)
  /\ (~ trusts (node tx) m ->
      m' = with_rejected (set_add tx (rejected_transactions m)) m).

(** The machine gets the issuance [tx] in its pending set. *)
Definition gets_pending (tx : Transaction) (m m' : Node) : Prop :=
  exists p, pending_transactions m = Some p
            /\ m' = with_pending (set_add tx p) m.

End delivery_notions.

(** The first choice of [b1] is selected. *)
Definition picked_X : nat -> bool := Choice_select (choice_X 10) blank.

(** The ballot generator, with key 7, which knows the voting computer with
    key 6. *)
Definition generator_node : Node :=
  set_node_mapping {[ 6%Z := 2 ]} (Node_init BallotGenerator 7 7).

(** The generator once [b1] and [b2] have been generated. *)
Definition generator_obj : BallotGeneratorObj :=
  {| generator := generator_node;
     master_ballots := Some [b1; b2];
     available_ballots := Some [b1; b2] |}.

(** The issuance of [b1] by the generator, and the voting computer that has
    it pending. *)
Definition issuance_b1 : Transaction :=
  vote_tx blank 100 b1 CREATED ISSUED (Some false).


(** A voting computer with key 6 and the generator with key 7, and a
    transaction that it signs itself. *)
Definition lone_voting_computer : Node :=
  set_ballot_generator (keys_of 7) (Node_init VotingComputer 6 6).

Definition own_tx : Transaction :=
  built (Transaction_init blank VoteTransaction 300 (CBallot b1)
           (keys_of 6) ISSUED USED true None 0).

(** ** Facts about the ledger dictionary *)

Section ledger_facts.
Context `{Crypto} `{Runtime}.

Lemma dict_add_inr k delta d d' :
  dict_add k delta d = inr d' ->
  exists n, d !! k = Some (VInt n) /\ d' = <[k := VInt (n + delta)]> d.
Proof.
  unfold dict_add. destruct (d !! k) as [[s|n]|]; try discriminate.
  intros [= <-]. eauto.
Qed.

Lemma dict_add_lookup_ne k delta d d' k' :
  dict_add k delta d = inr d' -> k' <> k -> d' !! k' = d !! k'.
Proof.
  intros [n [_ ->]]%dict_add_inr Hne. by rewrite lookup_insert_ne.
Qed.

Lemma update_candidates_lookup_other cs d k :
  (forall a, k <> KChoice a) ->
  state_of (update_candidates cs d) !! k = d !! k.
Proof.
  intros Hk. revert d. induction cs as [|c cs IH]; intros d; simpl; [done|].
  destruct (dict_add _ 1 d) as [e|d'] eqn:E; simpl; [done|].
  rewrite IH. eapply dict_add_lookup_ne; eauto.
Qed.

Lemma counter_sum_ext sts d d' :
  (forall s, s ∈ sts -> d' !! KState s = d !! KState s) ->
  counter_sum sts d' = counter_sum sts d.
Proof.
  induction sts as [|s sts IH]; intros Hext; simpl; [done|].
  rewrite Hext, IH; [done| |left].
  intros s' Hs'. apply Hext. by right.
Qed.

Lemma counter_sum_lookup sts s d total :
  s ∈ sts -> counter_sum sts d = Some total ->
  exists n, d !! KState s = Some (VInt n).
Proof.
  revert total. induction sts as [|x sts IH]; intros total Hin Hsum.
  - by apply elem_of_nil in Hin.
  - simpl in Hsum. destruct (d !! KState x) as [[?|m]|] eqn:Ex; try done.
    destruct (counter_sum sts d) as [m'|] eqn:Es; try done.
    apply elem_of_cons in Hin as [->|Hin]; eauto.
Qed.

Lemma counter_sum_insert sts s n delta d total :
  NoDup sts -> s ∈ sts -> d !! KState s = Some (VInt n) ->
  counter_sum sts d = Some total ->
  counter_sum sts (<[KState s := VInt (n + delta)]> d) = Some (total + delta)%Z.
Proof.
  intros Hnd. revert total.
  induction Hnd as [|x sts Hx Hnd IH]; intros total Hin Hn Hsum.
  - by apply elem_of_nil in Hin.
  - simpl in *. destruct (d !! KState x) as [[?|m]|] eqn:Ex; try done.
    destruct (counter_sum sts d) as [m'|] eqn:Es; try done.
    injection Hsum as <-.
    destruct (decide (x = s)) as [->|Hne].
    + rewrite lookup_insert_eq.
      rewrite (counter_sum_ext sts d), Es.
      * rewrite Hn in Ex. injection Ex as <-. f_equal. lia.
      * intros s' Hs'. rewrite lookup_insert_ne; [done|].
        intros [= ->]. done.
    + rewrite lookup_insert_ne, Ex by congruence.
      apply elem_of_cons in Hin as [->|Hin]; [done|].
      rewrite (IH m' Hin Hn eq_refl). f_equal. lia.
Qed.

Lemma counter_sum_add sts s delta d total :
  NoDup sts -> s ∈ sts -> counter_sum sts d = Some total ->
  exists d', dict_add (KState s) delta d = inr d'
             /\ counter_sum sts d' = Some (total + delta)%Z.
Proof.
  intros Hnd Hin Hsum.
  destruct (counter_sum_lookup sts s d total Hin Hsum) as [n Hn].
  unfold dict_add. rewrite Hn. eexists; split; [done|].
  by apply counter_sum_insert.
Qed.

(** Writing under a key that is not a state leaves the totals alone. *)
Lemma counter_sum_insert_other sts k v d :
  (forall s, k <> KState s) ->
  counter_sum sts (<[k := v]> d) = counter_sum sts d.
Proof.
  intros Hk. apply counter_sum_ext. intros s _.
  rewrite lookup_insert_ne; [done|]. apply Hk.
Qed.

(** [update_ledger] keeps the sum of the totals, whether it returns or
    raises, when the two states of the transaction are among [sts]. *)
Lemma update_ledger_counter_sum mem sts t d total :
  NoDup sts -> previous_state t ∈ sts -> new_state t ∈ sts ->
  counter_sum sts d = Some total ->
  counter_sum sts (state_of (update_ledger mem t d)) = Some total.
Proof.
  intros Hnd Hp Hn Hsum. unfold update_ledger.
  set (d0 := <[key_of_content (content t) := VState (new_state t)]> d).
  assert (Hs0 : counter_sum sts d0 = Some total).
  { unfold d0. rewrite counter_sum_insert_other; [done|].
    intros s. destruct (content t); discriminate. }
  destruct (counter_sum_add sts (previous_state t) (-1) d0 total Hnd Hp Hs0)
    as (d1 & -> & Hs1).
  destruct (counter_sum_add sts (new_state t) 1 d1 _ Hnd Hn Hs1)
    as (d2 & -> & Hs2).
  replace (total + -1 + 1)%Z with total in Hs2 by lia.
  destruct (content_selected_choices mem (content t)) as [e|cands]; [done|].
  rewrite <- Hs2. apply counter_sum_ext. intros s _.
  apply update_candidates_lookup_other. discriminate.
Qed.

Lemma apply_vote_transaction_counter_sum mem sts t σ total :
  NoDup sts -> previous_state t ∈ sts -> new_state t ∈ sts ->
  counter_sum sts (ledger σ) = Some total ->
  counter_sum sts (ledger (state_of (apply_vote_transaction mem t σ)))
  = Some total.
Proof.
  intros Hnd Hp Hn Hsum. unfold apply_vote_transaction.
  destruct (ledger σ !! _) as [old|]; [|done].
  destruct (decide _); [|done].
  pose proof (update_ledger_counter_sum mem sts t (ledger σ) total Hnd Hp Hn Hsum).
  destruct (update_ledger mem t (ledger σ)); done.
Qed.

Lemma vote_pass_counter_sum mem sts it txs σ total :
  NoDup sts ->
  Forall (fun t => previous_state t ∈ sts /\ new_state t ∈ sts) txs ->
  counter_sum sts (ledger σ) = Some total ->
  counter_sum sts (ledger (state_of (vote_pass mem it txs σ))) = Some total.
Proof.
  intros Hnd Hall. revert σ.
  induction Hall as [|t txs [Hp Hn] Hall IH]; intros σ Hsum; simpl; [done|].
  assert (Hstep : counter_sum sts (ledger (state_of (vote_step mem it t σ)))
                  = Some total).
  { unfold vote_step. destruct (decide (it = 1)).
    - destruct (reiterate σ !! tx_addr t) as [[]|]; try done.
      by apply apply_vote_transaction_counter_sum.
    - by apply apply_vote_transaction_counter_sum. }
  destruct (vote_step mem it t σ) as [σ'|e σ']; simpl in *; [|done].
  by apply IH.
Qed.

Lemma apply_transactions_counter_sum mem sts txs σ total :
  NoDup sts ->
  Forall (fun t => previous_state t ∈ sts /\ new_state t ∈ sts) txs ->
  counter_sum sts (ledger σ) = Some total ->
  counter_sum sts (ledger (state_of (apply_transactions mem txs σ)))
  = Some total.
Proof.
  intros Hnd Hall Hsum. unfold apply_transactions.
  pose proof (vote_pass_counter_sum mem sts 0 txs σ total Hnd Hall Hsum) as Hs0.
  destruct (vote_pass mem 0 txs σ) as [σ'|e σ']; simpl in *; [|done].
  by apply vote_pass_counter_sum.
Qed.

Lemma voter_apply_transactions_counter_sum sts txs d total :
  NoDup sts ->
  Forall (fun t => previous_state t ∈ sts /\ new_state t ∈ sts) txs ->
  counter_sum sts d = Some total ->
  counter_sum sts (state_of (voter_apply_transactions txs d)) = Some total.
Proof.
  intros Hnd Hall. revert d.
  induction Hall as [|t txs [Hp Hn] Hall IH]; intros d Hsum; simpl; [done|].
  assert (Hstep : counter_sum sts (state_of (apply_voter_transaction t d))
                  = Some total).
  { unfold apply_voter_transaction.
    destruct (d !! _) as [cur|]; [|done].
    destruct (decide _); [|done].
    set (d0 := <[key_of_content (content t) := VState (new_state t)]> d).
    assert (Hs0 : counter_sum sts d0 = Some total).
    { unfold d0. rewrite counter_sum_insert_other; [done|].
      intros s. destruct (content t); discriminate. }
    destruct (counter_sum_add sts (previous_state t) (-1) d0 total Hnd Hp Hs0)
      as (d1 & -> & Hs1).
    destruct (counter_sum_add sts (new_state t) 1 d1 _ Hnd Hn Hs1)
      as (d2 & -> & Hs2).
    simpl. rewrite Hs2. f_equal. lia. }
  destruct (apply_voter_transaction t d) as [d'|e d']; simpl in *; [|done].
  by apply IH.
Qed.

(** The totals written by the two constructors. *)
Lemma foldl_insert_ballots_state (bs : list Ballot) (d : dict) s :
  foldl (fun d b => <[KBallot (ballot_addr b) := VState CREATED]> d) d bs
    !! KState s = d !! KState s.
Proof.
  revert d. induction bs as [|b bs IH]; intros d; simpl; [done|].
  by rewrite IH, lookup_insert_ne.
Qed.

Lemma register_choices_lookup_other cs (d : dict) k :
  (forall a, k <> KChoice a) -> register_choices cs d !! k = d !! k.
Proof.
  intros Hk. unfold register_choices. revert d.
  induction cs as [|c cs IH]; intros d; simpl; [done|].
  rewrite IH, lookup_insert_ne; [done|]. intros E. by apply (Hk (choice_addr c)).
Qed.

Lemma register_items_lookup_other (its : list BallotItem) (d : dict) k :
  (forall a, k <> KChoice a) ->
  foldl (fun d it => register_choices (choices it) d) d its !! k = d !! k.
Proof.
  intros Hk. revert d. induction its as [|it its IH]; intros d; simpl; [done|].
  by rewrite IH, register_choices_lookup_other.
Qed.

Lemma VoteLedger_init_counter_sum ballots L :
  VoteLedger_init ballots = inr L ->
  counter_sum [CREATED; ISSUED; USED] (vote_ledger L)
  = Some (Z.of_nat (length ballots))
  /\ total_ballots L = Z.of_nat (length ballots).
Proof.
  unfold VoteLedger_init. destruct ballots as [|b0 bs]; [done|].
  intros [= <-]. split; [|done]. cbn [vote_ledger].
  set (n := Z.of_nat (length (b0 :: bs))).
  simpl counter_sum.
  rewrite !register_items_lookup_other by discriminate.
  rewrite lookup_insert_ne, lookup_insert_ne, lookup_insert_eq by discriminate.
  rewrite lookup_insert_ne, lookup_insert_eq by discriminate.
  rewrite lookup_insert_eq. f_equal; lia.
Qed.

Lemma foldl_insert_voters_state (vs : list Voter) (d : dict) s :
  foldl (fun d v => <[KVoter (voter_addr v) := VState NOT_VOTED]> d) d vs
    !! KState s = d !! KState s.
Proof.
  revert d. induction vs as [|v vs IH]; intros d; simpl; [done|].
  by rewrite IH, lookup_insert_ne.
Qed.

Lemma VoterLedger_init_counter_sum voters :
  counter_sum [NOT_VOTED; VOTED] (voter_ledger (VoterLedger_init voters))
  = Some (Z.of_nat (length voters)).
Proof.
  unfold VoterLedger_init. cbn [voter_ledger]. simpl counter_sum.
  rewrite !foldl_insert_voters_state.
  rewrite lookup_insert_ne, lookup_insert_eq by discriminate.
  rewrite lookup_insert_eq. f_equal; lia.
Qed.

Lemma key_of_content_entity c : is_entity_key (key_of_content c).
Proof. by destruct c. Qed.

(** Under the keys of entities, [update_ledger] writes the new state of its
    transaction and nothing else, whether it returns or raises. *)
Lemma update_ledger_lookup_entity mem t d k :
  is_entity_key k ->
  state_of (update_ledger mem t d) !! k
  = <[key_of_content (content t) := VState (new_state t)]> d !! k.
Proof.
  intros Hk. unfold update_ledger.
  set (d0 := <[key_of_content (content t) := VState (new_state t)]> d).
  destruct (dict_add _ (-1) d0) as [e|d1] eqn:E1; [done|].
  assert (Hd1 : d1 !! k = d0 !! k).
  { eapply dict_add_lookup_ne; [exact E1|]. by destruct k. }
  destruct (dict_add _ 1 d1) as [e|d2] eqn:E2; [done|].
  assert (Hd2 : d2 !! k = d0 !! k).
  { rewrite <- Hd1. eapply dict_add_lookup_ne; [exact E2|]. by destruct k. }
  destruct (content_selected_choices mem (content t)) as [e|cands]; [done|].
  rewrite update_candidates_lookup_other; [done|]. by destruct k.
Qed.

Lemma update_ledger_new_state mem t d d' :
  update_ledger mem t d = Ok d' ->
  d' !! key_of_content (content t) = Some (VState (new_state t)).
Proof.
  intros E.
  pose proof (update_ledger_lookup_entity mem t d _
                (key_of_content_entity (content t))) as Hl.
  rewrite E in Hl. simpl in Hl. by rewrite Hl, lookup_insert_eq.
Qed.

Lemma apply_vote_missing mem t σ :
  ledger σ !! key_of_content (content t) = None ->
  apply_vote_transaction mem t σ = Raise KeyError σ.
Proof. unfold apply_vote_transaction. by intros ->. Qed.

Lemma apply_vote_deferred mem t σ v :
  ledger σ !! key_of_content (content t) = Some v ->
  VState (previous_state t) <> v ->
  apply_vote_transaction mem t σ = Ok (set_reiterate t true σ).
Proof.
  unfold apply_vote_transaction. intros -> Hne. by destruct (decide _).
Qed.

Lemma apply_vote_matched mem t σ :
  ledger σ !! key_of_content (content t) = Some (VState (previous_state t)) ->
  apply_vote_transaction mem t σ
  = match update_ledger mem t (ledger σ) with
    | Raise e d => Raise e (set_ledger d σ)
    | Ok d => Ok (set_reiterate t false (set_ledger d σ))
    end.
Proof.
  unfold apply_vote_transaction. intros ->. by destruct (decide _).
Qed.

Lemma vote_step_first_pass mem t σ :
  vote_step mem 0 t σ = apply_vote_transaction mem t σ.
Proof. reflexivity. Qed.

Lemma vote_step_marked mem t σ :
  reiterate σ !! tx_addr t = Some true ->
  vote_step mem 1 t σ = apply_vote_transaction mem t σ.
Proof. unfold vote_step. simpl. by intros ->. Qed.

Lemma vote_step_unmarked mem t σ :
  reiterate σ !! tx_addr t = Some false ->
  vote_step mem 1 t σ = Ok σ.
Proof. unfold vote_step. simpl. by intros ->. Qed.

End ledger_facts.

Ltac vote_red :=
  cbn [state_of raised ledger reiterate set_reiterate set_ledger];
  rewrite ?vote_step_first_pass.

Ltac marks_solve :=
  cbn [state_of raised ledger reiterate set_reiterate set_ledger];
  repeat (rewrite lookup_insert_eq || rewrite lookup_insert_ne by done);
  done.


(** ** The counter invariant *)

Lemma NoDup_vote_states : NoDup [CREATED; ISSUED; USED].
Proof. by apply (bool_decide_unpack _). Qed.

Lemma NoDup_voter_states : NoDup [NOT_VOTED; VOTED].
Proof. by apply (bool_decide_unpack _). Qed.

Section counter_invariant.
Context `{Crypto} `{Runtime}.

Lemma constructed_vote_states t :
  tx_kind t = VoteTransaction -> constructed t ->
  previous_state t ∈ [CREATED; ISSUED; USED]
  /\ new_state t ∈ [CREATED; ISSUED; USED].
Proof. intros Hk (_ & Hp & Hn). rewrite Hk in Hp, Hn. done. Qed.

Lemma constructed_voter_states t :
  tx_kind t = VoterTransaction -> constructed t ->
  previous_state t ∈ [NOT_VOTED; VOTED] /\ new_state t ∈ [NOT_VOTED; VOTED].
Proof. intros Hk (_ & Hp & Hn). rewrite Hk in Hp, Hn. done. Qed.

Lemma vote_reachable_counter_sum ballots p :
  vote_reachable ballots p ->
  counter_sum [CREATED; ISSUED; USED] (vote_ledger (fst p))
  = Some (Z.of_nat (length ballots))
  /\ total_ballots (fst p) = Z.of_nat (length ballots).
Proof.
  induction 1 as [L marks Hinit | mem txs L marks Hr [IHs IHt] Hall].
  - by apply VoteLedger_init_counter_sum.
  - unfold VoteLedger_apply_transactions. cbn [fst] in IHs, IHt.
    assert (Hsum : counter_sum [CREATED; ISSUED; USED]
                     (ledger (state_of (apply_transactions mem txs
                        {| ledger := vote_ledger L; reiterate := marks |})))
                   = Some (Z.of_nat (length ballots))).
    { apply apply_transactions_counter_sum; [| |exact IHs].
      - exact NoDup_vote_states.
      - eapply Forall_impl; [exact Hall|].
        intros t [Hk Hc]. by apply constructed_vote_states. }
    destruct (apply_transactions mem txs _) as [σ|e σ];
      cbn [state_of fst vote_ledger total_ballots] in *; by split.
Qed.

Lemma voter_reachable_counter_sum voters L :
  voter_reachable voters L ->
  counter_sum [NOT_VOTED; VOTED] (voter_ledger L)
  = Some (Z.of_nat (length voters))
  /\ registered_voters L = Z.of_nat (length voters).
Proof.
  induction 1 as [| txs L Hr [IHs IHt] Hall].
  - split; [apply VoterLedger_init_counter_sum | done].
  - unfold VoterLedger_apply_transactions.
    assert (Hsum : counter_sum [NOT_VOTED; VOTED]
                     (state_of (voter_apply_transactions txs (voter_ledger L)))
                   = Some (Z.of_nat (length voters))).
    { apply voter_apply_transactions_counter_sum; [| |exact IHs].
      - exact NoDup_voter_states.
      - eapply Forall_impl; [exact Hall|].
        intros t [Hk Hc]. by apply constructed_voter_states. }
    destruct (voter_apply_transactions txs _) as [d|e d];
      cbn [state_of voter_ledger registered_voters] in *; by split.
Qed.

(** C3. In every vote ledger obtained from [VoteLedger(ballots)] by calls of
    [apply_transactions], the totals kept for Created, Issued and Used sum to
    the number of ballots given at initialization, and in every voter ledger
    obtained from [VoterLedger(voters)] the totals kept for NotVoted and
    Voted sum to the number of voters. *)
Theorem counters_sum_to_entity_count :
  (forall ballots L marks,
      vote_reachable ballots (L, marks) ->
      counter_sum [CREATED; ISSUED; USED] (vote_ledger L)
      = Some (Z.of_nat (length ballots))
      /\ total_ballots L = Z.of_nat (length ballots))
  /\ (forall voters L,
         voter_reachable voters L ->
         counter_sum [NOT_VOTED; VOTED] (voter_ledger L)
         = Some (Z.of_nat (length voters))
         /\ registered_voters L = Z.of_nat (length voters)).
Proof.
  split.
  - intros ballots L marks Hr.
    apply (vote_reachable_counter_sum ballots (L, marks) Hr).
  - apply voter_reachable_counter_sum.
Qed.

End counter_invariant.

(** The invariant on the ledgers of the concrete election after one batch. *)
Lemma counters_sum_to_entity_count_witness :
  (let p := state_of (VoteLedger_apply_transactions blank
                        [vote_tx blank 100 b1 CREATED ISSUED (Some false)]
                        ledger12 ∅) in
   vote_reachable [b1; b2] p
   /\ counter_sum [CREATED; ISSUED; USED] (vote_ledger (fst p)) = Some 2%Z)
  /\ (let L := state_of (VoterLedger_apply_transactions
                           [voter_tx 200 voter1 NOT_VOTED VOTED]
                           (VoterLedger_init [voter1; voter2])) in
      voter_reachable [voter1; voter2] L
      /\ counter_sum [NOT_VOTED; VOTED] (voter_ledger L) = Some 2%Z).
Proof.
  assert (Hv : vote_reachable [b1; b2]
                 (state_of (VoteLedger_apply_transactions blank
                              [vote_tx blank 100 b1 CREATED ISSUED (Some false)]
                              ledger12 ∅))).
  { apply vote_reachable_apply.
    - apply vote_reachable_init. reflexivity.
    - repeat constructor; vm_compute; repeat constructor. }
  assert (Hw : voter_reachable [voter1; voter2]
                 (state_of (VoterLedger_apply_transactions
                              [voter_tx 200 voter1 NOT_VOTED VOTED]
                              (VoterLedger_init [voter1; voter2])))).
  { apply voter_reachable_apply.
    - apply voter_reachable_init.
    - repeat constructor; vm_compute; repeat constructor. }
  split; (split; [assumption|]).
  - destruct (state_of (VoteLedger_apply_transactions _ _ _ _)) as [L marks].
    exact (proj1 (proj1 counters_sum_to_entity_count _ L marks Hv)).
  - exact (proj1 (proj2 counters_sum_to_entity_count _ _ Hw)).
Defined.

(** ** What the vote ledger counts *)

Section tallies.
Context `{Crypto} `{Runtime}.

Lemma dict_add_tally_mono k d d' c n :
  dict_add k 1 d = inr d' -> tally d c = Some n ->
  exists n', tally d' c = Some n' /\ (n <= n')%Z.
Proof.
  intros (m & Hm & ->)%dict_add_inr. unfold tally.
  destruct (decide (k = KChoice (choice_addr c))) as [->|Hne].
  - rewrite Hm, lookup_insert_eq. intros [= <-]. eexists; split; [done|lia].
  - rewrite lookup_insert_ne by done. intros Ht. eexists; split; [done|lia].
Qed.

Lemma update_candidates_tally_mono cs d c n :
  tally d c = Some n ->
  exists n', tally (state_of (update_candidates cs d)) c = Some n'
             /\ (n <= n')%Z.
Proof.
  revert d n. induction cs as [|x cs IH]; intros d n Ht; simpl.
  - eexists; split; [done|lia].
  - destruct (dict_add _ 1 d) as [e|d'] eqn:E; simpl.
    + eexists; split; [done|lia].
    + destruct (dict_add_tally_mono _ _ _ c n E Ht) as (n1 & Ht1 & Hle1).
      destruct (IH d' n1 Ht1) as (n2 & Ht2 & Hle2).
      exists n2. split; [done|lia].
Qed.

Lemma update_ledger_tally_mono mem t d c n :
  tally d c = Some n ->
  exists n', tally (state_of (update_ledger mem t d)) c = Some n'
             /\ (n <= n')%Z.
Proof.
  intros Ht. unfold update_ledger.
  set (d0 := <[key_of_content (content t) := VState (new_state t)]> d).
  assert (Ht0 : tally d0 c = Some n).
  { unfold tally, d0. rewrite lookup_insert_ne; [done|].
    by destruct (content t). }
  destruct (dict_add _ (-1) d0) as [e|d1] eqn:E1;
    [eexists; split; [done|lia]|].
  assert (Ht1 : tally d1 c = Some n).
  { unfold tally. by rewrite (dict_add_lookup_ne _ _ _ _ _ E1). }
  destruct (dict_add _ 1 d1) as [e|d2] eqn:E2;
    [eexists; split; [done|lia]|].
  assert (Ht2 : tally d2 c = Some n).
  { unfold tally. by rewrite (dict_add_lookup_ne _ _ _ _ _ E2). }
  destruct (content_selected_choices mem (content t)) as [e|cands];
    [eexists; split; [done|lia]|].
  by apply update_candidates_tally_mono.
Qed.

Lemma vote_pass_tally_mono mem it txs σ c n :
  tally (ledger σ) c = Some n ->
  exists n', tally (ledger (state_of (vote_pass mem it txs σ))) c = Some n'
             /\ (n <= n')%Z.
Proof.
  revert σ n. induction txs as [|t txs IH]; intros σ n Ht; simpl.
  - eexists; split; [done|lia].
  - assert (exists n1, tally (ledger (state_of (vote_step mem it t σ))) c
                       = Some n1 /\ (n <= n1)%Z) as (n1 & Ht1 & Hle1).
    { assert (exists n1,
                 tally (ledger (state_of (apply_vote_transaction mem t σ))) c
                 = Some n1 /\ (n <= n1)%Z) as Happ.
      { unfold apply_vote_transaction.
        destruct (ledger σ !! key_of_content (content t)) as [old|];
          [|eexists; split; [done|lia]].
        destruct (decide _); [|eexists; split; [done|lia]].
        destruct (update_ledger_tally_mono mem t (ledger σ) c n Ht)
          as (n1 & Ht1 & Hle1).
        exists n1. by destruct (update_ledger mem t (ledger σ)). }
      unfold vote_step. destruct (decide (it = 1)); [|done].
      destruct (reiterate σ !! tx_addr t) as [[]|]; [done| |];
        eexists; split; done || lia. }
    destruct (vote_step mem it t σ) as [σ'|e σ']; simpl in *.
    + destruct (IH σ' n1 Ht1) as (n2 & Ht2 & Hle2). exists n2. split; [done|lia].
    + by exists n1.
Qed.

(** No call of [apply_transactions] lowers the vote count of a choice. *)
Lemma tally_non_decreasing mem txs σ c n :
  tally (ledger σ) c = Some n ->
  exists n', tally (ledger (state_of (apply_transactions mem txs σ))) c
             = Some n' /\ (n <= n')%Z.
Proof.
  intros Ht. unfold apply_transactions.
  destruct (vote_pass_tally_mono mem 0 txs σ c n Ht) as (n1 & Ht1 & Hle1).
  destruct (vote_pass mem 0 txs σ) as [σ'|e σ']; simpl in *; [|by exists n1].
  destruct (vote_pass_tally_mono mem 1 txs σ' c n1 Ht1) as (n2 & Ht2 & Hle2).
  exists n2. split; [done|lia].
Qed.

End tallies.

(** C1. With one ballot whose choice X is selected, applying the single
    transaction Created -> Issued returns, leaves the ballot Issued and
    already counts one vote for X; applying Created -> Issued and
    Issued -> Used in one batch counts two votes for X for the one ballot. *)
Theorem tally_incremented_when_ballot_issued :
  let mem := Choice_select (choice_X 10) blank in
  let issue := vote_tx mem 100 b1 CREATED ISSUED (Some false) in
  let use := vote_tx mem 101 b1 ISSUED USED None in
  tally (vote_ledger ledger1) (choice_X 10) = Some 0%Z
  /\ (let r := apply_transactions mem [issue] (store_of ledger1) in
      returns r = true
      /\ ledger (state_of r) !! KBallot 1 = Some (VState ISSUED)
      /\ tally (ledger (state_of r)) (choice_X 10) = Some 1%Z)
  /\ (let r := apply_transactions mem [issue; use] (store_of ledger1) in
      returns r = true
      /\ ledger (state_of r) !! KBallot 1 = Some (VState USED)
      /\ tally (ledger (state_of r)) (choice_X 10) = Some 2%Z).
Proof. vm_compute. repeat split; reflexivity. Qed.

(** ** Replaying the two edges of one ballot in either order *)

Section order_insensitivity.
Context `{Crypto} `{Runtime}.

(** C5. For every vote ledger and every pair of transactions on one ballot,
    one Created -> Issued and one Issued -> Used, the two passes of
    [apply_transactions] leave the same dictionary (state of the ballot,
    collective totals, candidate votes) and end the same way whichever of
    the two comes first in the batch. *)
Theorem replay_order_insensitive mem σ t1 t2 :
  content t1 = content t2 ->
  previous_state t1 = CREATED -> new_state t1 = ISSUED ->
  previous_state t2 = ISSUED -> new_state t2 = USED ->
  tx_addr t1 <> tx_addr t2 ->
  same_snapshot (apply_transactions mem [t1; t2] σ)
                (apply_transactions mem [t2; t1] σ).
Proof.
  intros Hc Hp1 Hn1 Hp2 Hn2 Hne.
  assert (Hne' : tx_addr t2 <> tx_addr t1) by congruence.
  unfold same_snapshot, apply_transactions. cbn [vote_pass].
  rewrite !vote_step_first_pass.
  destruct (ledger σ !! key_of_content (content t1)) as [old|] eqn:Hold.
  2: { rewrite (apply_vote_missing mem t1 σ Hold).
       vote_red. rewrite (apply_vote_missing mem t2 σ) by (by rewrite <- Hc). done. }
  destruct (decide (old = VState CREATED)) as [->|Hnc].
  - (* the ballot is Created: the first edge applies, then the second *)
    vote_red. rewrite (apply_vote_matched mem t1 σ) by (by rewrite Hp1).
    vote_red. rewrite (apply_vote_deferred mem t2 σ (VState CREATED))
      by (by rewrite <- ?Hc, ?Hp2).
    vote_red. rewrite (apply_vote_matched mem t1 (set_reiterate t2 true σ))
      by (by rewrite Hp1).
    vote_red.
    destruct (update_ledger mem t1 (ledger σ)) as [d1|e d1] eqn:E1; [|done].
    apply update_ledger_new_state in E1. rewrite Hn1, Hc, <- Hp2 in E1.
    vote_red. rewrite (apply_vote_matched mem t2 (set_reiterate t1 false (set_ledger d1 σ)))
      by done.
    vote_red. rewrite (vote_step_marked mem t2) by marks_solve.
    vote_red. rewrite (apply_vote_matched mem t2) by done.
    vote_red.
    destruct (update_ledger mem t2 d1) as [d2|e d2] eqn:E2; [|done].
    vote_red. rewrite (vote_step_unmarked mem t1) by marks_solve.
    vote_red. rewrite (vote_step_unmarked mem t2) by marks_solve.
    vote_red. rewrite (vote_step_unmarked mem t1) by marks_solve.
    done.
  - destruct (decide (old = VState ISSUED)) as [->|Hni].
    + (* the ballot is Issued: only the second edge applies *)
      vote_red. rewrite (apply_vote_deferred mem t1 σ (VState ISSUED))
        by (by rewrite ?Hp1).
      vote_red. rewrite (apply_vote_matched mem t2 (set_reiterate t1 true σ))
        by (by rewrite <- Hc, Hp2).
      vote_red. rewrite (apply_vote_matched mem t2 σ) by (by rewrite <- Hc, Hp2).
      vote_red.
      destruct (update_ledger mem t2 (ledger σ)) as [d2|e d2] eqn:E2; [|done].
      apply update_ledger_new_state in E2. rewrite Hn2, <- Hc in E2.
      vote_red. rewrite (apply_vote_deferred mem t1 _ (VState USED))
        by (by rewrite ?Hp1).
      vote_red. rewrite (vote_step_marked mem t1) by marks_solve.
      vote_red. rewrite (apply_vote_deferred mem t1 _ (VState USED))
        by (by rewrite ?Hp1).
      vote_red. rewrite (vote_step_unmarked mem t2) by marks_solve.
      vote_red. rewrite (vote_step_unmarked mem t2) by marks_solve.
      vote_red. rewrite (vote_step_marked mem t1) by marks_solve.
      vote_red. rewrite (apply_vote_deferred mem t1 _ (VState USED))
        by (by rewrite ?Hp1).
      done.
    + (* any other record: both edges stay deferred *)
      assert (Hd1 : VState (previous_state t1) <> old) by (by rewrite Hp1).
      assert (Hd2 : VState (previous_state t2) <> old) by (by rewrite Hp2).
      assert (Hold2 : ledger σ !! key_of_content (content t2) = Some old)
        by (by rewrite <- Hc).
      vote_red. rewrite (apply_vote_deferred mem t1 σ old) by done.
      vote_red. rewrite (apply_vote_deferred mem t2 σ old) by done.
      vote_red. rewrite (apply_vote_deferred mem t2 (set_reiterate t1 true σ) old) by done.
      vote_red. rewrite (apply_vote_deferred mem t1 (set_reiterate t2 true σ) old) by done.
      vote_red. rewrite (vote_step_marked mem t1) by marks_solve.
      vote_red. rewrite (apply_vote_deferred mem t1 _ old) by done.
      vote_red. rewrite (vote_step_marked mem t2) by marks_solve.
      vote_red. rewrite (apply_vote_deferred mem t2 _ old) by done.
      vote_red. rewrite (vote_step_marked mem t2) by marks_solve.
      vote_red. rewrite (apply_vote_deferred mem t2 _ old) by done.
      vote_red. rewrite (vote_step_marked mem t1) by marks_solve.
      vote_red. rewrite (apply_vote_deferred mem t1 _ old) by done.
      done.
Qed.

End order_insensitivity.

(** The concrete pair of edges on ballot [b1], in both orders. *)
Lemma replay_order_insensitive_witness :
  let mem := Choice_select (choice_X 10) blank in
  let t1 := vote_tx mem 100 b1 CREATED ISSUED (Some false) in
  let t2 := vote_tx mem 101 b1 ISSUED USED None in
  (content t1 = content t2
   /\ previous_state t1 = CREATED /\ new_state t1 = ISSUED
   /\ previous_state t2 = ISSUED /\ new_state t2 = USED
   /\ tx_addr t1 <> tx_addr t2)
  /\ same_snapshot (apply_transactions mem [t1; t2] (store_of ledger12))
                   (apply_transactions mem [t2; t1] (store_of ledger12)).
Proof.
  intros mem t1 t2.
  assert (Hne : tx_addr t1 <> tx_addr t2) by (vm_compute; lia).
  split; [repeat split; try reflexivity; exact Hne|].
  apply replay_order_insensitive; try reflexivity. exact Hne.
Defined.

(** ** Stale copies of a transaction *)

Section idempotence.
Context `{Crypto} `{Runtime}.

Lemma legal_edge_rank u :
  legal_edge u -> rank (previous_state u) < rank (new_state u).
Proof.
  unfold legal_edge. rewrite !elem_of_cons, elem_of_nil.
  intros [E|[E|[E|[]]]]; injection E as -> ->; simpl; lia.
Qed.

Lemma already_applied_stale t d :
  legal_edge t -> already_applied t d ->
  exists v, d !! key_of_content (content t) = Some v
            /\ VState (previous_state t) <> v.
Proof.
  intros Hl (s & Hs & Hr). exists (VState s). split; [done|].
  intros [= E]. apply legal_edge_rank in Hl. rewrite E in Hl. lia.
Qed.

(** A legal edge applied to the dictionary keeps a stale transaction stale. *)
Lemma already_applied_update mem t u d :
  legal_edge u ->
  d !! key_of_content (content u) = Some (VState (previous_state u)) ->
  already_applied t d ->
  already_applied t (state_of (update_ledger mem u d)).
Proof.
  intros Hl Hu (s & Hs & Hr). unfold already_applied.
  rewrite update_ledger_lookup_entity by apply key_of_content_entity.
  destruct (decide (key_of_content (content u) = key_of_content (content t)))
    as [E|E].
  - rewrite E, lookup_insert_eq. eexists; split; [done|].
    rewrite E, Hs in Hu. injection Hu as ->.
    apply legal_edge_rank in Hl. lia.
  - rewrite lookup_insert_ne by done. eauto.
Qed.

Lemma apply_vote_transaction_effect mem u σ :
  apply_vote_transaction mem u σ
  = match vote_effect mem u (ledger σ) with
    | Ok (d, b) => Ok {| ledger := d; reiterate := <[tx_addr u := b]> (reiterate σ) |}
    | Raise e (d, _) => Raise e {| ledger := d; reiterate := reiterate σ |}
    end.
Proof.
  unfold apply_vote_transaction, vote_effect. destruct σ as [d m]; simpl.
  destruct (d !! _) as [old|]; [|done].
  destruct (decide _); [|done].
  by destruct (update_ledger mem u d).
Qed.

Lemma vote_effect_already_applied mem t u d :
  legal_edge u -> already_applied t d ->
  already_applied t (fst (state_of (vote_effect mem u d))).
Proof.
  intros Hl Ha. unfold vote_effect.
  destruct (d !! key_of_content (content u)) as [old|] eqn:Hold; [|done].
  destruct (decide _) as [<-|]; [|done].
  pose proof (already_applied_update mem t u d Hl Hold Ha) as Hup.
  by destruct (update_ledger mem u d).
Qed.

Lemma vote_effect_stale mem t d :
  legal_edge t -> already_applied t d -> vote_effect mem t d = Ok (d, true).
Proof.
  intros Hl Ha. destruct (already_applied_stale t d Hl Ha) as (v & Hv & Hne).
  unfold vote_effect. rewrite Hv. by destruct (decide _).
Qed.

Lemma vote_pass_app mem it l1 l2 σ :
  vote_pass mem it (l1 ++ l2) σ
  = match vote_pass mem it l1 σ with
    | Ok σ' => vote_pass mem it l2 σ'
    | Raise e σ' => Raise e σ'
    end.
Proof.
  revert σ. induction l1 as [|u l1 IH]; intros σ; simpl; [done|].
  destruct (vote_step mem it u σ); [apply IH | done].
Qed.

Section stale_copy.
Variables (mem : nat -> bool) (t : Transaction).
Hypothesis t_legal : legal_edge t.

Lemma stale_step it σ :
  already_applied t (ledger σ) -> (it = 1 -> marked t σ) ->
  vote_step mem it t σ = Ok (set_reiterate t true σ).
Proof.
  intros Ha Hm.
  assert (apply_vote_transaction mem t σ = Ok (set_reiterate t true σ)) as Happ.
  { rewrite apply_vote_transaction_effect, vote_effect_stale by done.
    by destruct σ. }
  unfold vote_step. destruct (decide (it = 1)) as [E|_]; [|done].
  unfold marked in Hm. by rewrite (Hm E).
Qed.

Lemma vote_step_agree it u σ1 σ2 :
  legal_edge u -> (tx_addr u = tx_addr t -> u = t) ->
  agree t σ1 σ2 ->
  (it = 1 -> u = t -> marked t σ1 /\ marked t σ2) ->
  agree_results t σ1 σ2 (u = t) (vote_step mem it u σ1) (vote_step mem it u σ2).
Proof.
  intros Hl Hwf (Hd & Ha & Hm) Hmk.
  destruct (decide (tx_addr u = tx_addr t)) as [E|E].
  - (* a copy of the stale transaction *)
    specialize (Hwf E). subst u.
    rewrite !stale_step; try done.
    + unfold agree_results, agree, marked. simpl.
      rewrite !lookup_insert_eq. repeat split; try done.
      intros a Hna. rewrite !lookup_insert_ne by done. by apply Hm.
    + by rewrite <- Hd.
    + intros E1. by apply Hmk.
    + intros E1. by apply Hmk.
  - (* any other transaction *)
    assert (Hne : u <> t) by congruence.
    assert (Happ : agree_results t σ1 σ2 (u = t)
                     (apply_vote_transaction mem u σ1)
                     (apply_vote_transaction mem u σ2)).
    { rewrite !apply_vote_transaction_effect. rewrite <- Hd.
      pose proof (vote_effect_already_applied mem t u (ledger σ1) Hl Ha) as Hk.
      destruct (vote_effect mem u (ledger σ1)) as [[d b]|e [d b]]; simpl in *.
      - unfold agree, marked. simpl. repeat split; try done.
        + intros a Hna. destruct (decide (a = tx_addr u)) as [->|?].
          * by rewrite !lookup_insert_eq.
          * rewrite !lookup_insert_ne by done. by apply Hm.
        + by rewrite lookup_insert_ne.
        + by rewrite lookup_insert_ne.
      - done. }
    unfold vote_step. destruct (decide (it = 1)) as [E1|_]; [|done].
    rewrite <- (Hm (tx_addr u)) by done.
    destruct (reiterate σ1 !! tx_addr u) as [[]|]; [exact Happ| |by split].
    unfold agree_results, agree. repeat split; try done; congruence.
Qed.

Lemma vote_pass_agree it l σ1 σ2 :
  Forall (fun u => legal_edge u /\ (tx_addr u = tx_addr t -> u = t)) l ->
  agree t σ1 σ2 ->
  (it = 1 -> t ∈ l -> marked t σ1 /\ marked t σ2) ->
  agree_results t σ1 σ2 (t ∈ l) (vote_pass mem it l σ1) (vote_pass mem it l σ2).
Proof.
  intros Hall. revert σ1 σ2.
  induction Hall as [|u l [Hl Hwf] Hall IH]; intros σ1 σ2 Hag Hmk; simpl.
  - unfold agree_results. split; [exact Hag|]. do 2 (split; [done|]).
    by intros ?%elem_of_nil.
  - pose proof (vote_step_agree it u σ1 σ2 Hl Hwf Hag) as Hstep.
    destruct (vote_step mem it u σ1) as [s1|e1 s1],
             (vote_step mem it u σ2) as [s2|e2 s2];
      try (exfalso; apply Hstep; intros E ->; apply Hmk; [done|left]; fail).
    + destruct Hstep as (Hag' & Hk1 & Hk2 & Hhit).
      { intros E ->. apply Hmk; [done|left]. }
      specialize (IH s1 s2 Hag').
      destruct (vote_pass mem it l s1) as [s1'|e1' s1'],
               (vote_pass mem it l s2) as [s2'|e2' s2'];
        try (exfalso; apply IH; intros E Hin; split;
             [apply Hk1|apply Hk2]; apply Hmk; try done; by right).
      * destruct IH as (Hag'' & Hk1' & Hk2' & Hhit').
        { intros E Hin. split; [apply Hk1|apply Hk2]; apply Hmk; try done;
            by right. }
        unfold agree_results. split; [exact Hag''|].
        split; [intros ?; by apply Hk1', Hk1|].
        split; [intros ?; by apply Hk2', Hk2|].
        intros [->|Hin]%elem_of_cons.
        -- split; [apply Hk1'|apply Hk2']; by apply Hhit.
        -- by apply Hhit'.
      * apply IH. intros E Hin. split; [apply Hk1|apply Hk2]; apply Hmk;
          try done; by right.
    + apply Hstep. intros E ->. apply Hmk; [done|left].
Qed.

(** One pass over a batch with a stale copy of [t], against the same pass
    over the batch without that copy. *)
Lemma vote_pass_remove it pre post σ1 σ2 :
  Forall (fun u => legal_edge u /\ (tx_addr u = tx_addr t -> u = t))
         (pre ++ post) ->
  agree t σ1 σ2 ->
  (it = 1 -> marked t σ1 /\ (t ∈ pre ++ post -> marked t σ2)) ->
  match vote_pass mem it (pre ++ t :: post) σ1,
        vote_pass mem it (pre ++ post) σ2 with
  | Ok s1, Ok s2 =>
      agree t s1 s2 /\ marked t s1 /\ (t ∈ pre ++ post -> marked t s2)
  | Raise e1 s1, Raise e2 s2 => e1 = e2 /\ ledger s1 = ledger s2
  | _, _ => False
  end.
Proof.
  intros [Hpre Hpost]%Forall_app Hag Hmk.
  rewrite !vote_pass_app.
  pose proof (vote_pass_agree it pre σ1 σ2 Hpre Hag) as Hp.
  destruct (vote_pass mem it pre σ1) as [p1|e1 p1],
           (vote_pass mem it pre σ2) as [p2|e2 p2];
    try (exfalso; apply Hp; intros E Hin; destruct (Hmk E) as [? Hm2];
         split; [done|]; apply Hm2, elem_of_app; by left).
  2: { apply Hp. intros E Hin. destruct (Hmk E) as [? Hm2].
       split; [done|]. apply Hm2, elem_of_app. by left. }
  destruct Hp as (Hag' & Hk1 & Hk2 & Hhit).
  { intros E Hin. destruct (Hmk E) as [? Hm2].
    split; [done|]. apply Hm2, elem_of_app. by left. }
  cbn [vote_pass].
  rewrite stale_step.
  2: { apply Hag'. }
  2: { intros E. apply Hk1. by apply Hmk. }
  assert (Hag1 : agree t (set_reiterate t true p1) p2).
  { destruct Hag' as (Hd & Ha & Hm). split; [done|]. split; [done|].
    intros a Hna. simpl. rewrite lookup_insert_ne by done. by apply Hm. }
  assert (Hmk1 : marked t (set_reiterate t true p1)).
  { unfold marked. simpl. by rewrite lookup_insert_eq. }
  pose proof (vote_pass_agree it post (set_reiterate t true p1) p2 Hpost Hag1)
    as Hq.
  assert (Hpre2 : it = 1 -> t ∈ post -> marked t (set_reiterate t true p1)
                                        /\ marked t p2).
  { intros E Hin. split; [done|]. apply Hk2. destruct (Hmk E) as [_ Hm2].
    apply Hm2, elem_of_app. by right. }
  destruct (vote_pass mem it post (set_reiterate t true p1)) as [s1|e1 s1],
           (vote_pass mem it post p2) as [s2|e2 s2];
    try (exfalso; by apply Hq).
  2: { by apply Hq. }
  destruct (Hq Hpre2) as (Hag'' & Hk1' & Hk2' & Hhit').
  split; [done|]. split; [by apply Hk1'|].
  intros [Hin|Hin]%elem_of_app.
  - apply Hk2'.
    destruct (decide (it = 1)) as [E|E].
    + apply Hk2. destruct (Hmk E) as [_ Hm2]. apply Hm2, elem_of_app. by left.
    + by apply Hhit.
  - by apply Hhit'.
Qed.

End stale_copy.

Lemma apply_voter_stale t d :
  legal_edge t -> already_applied t d -> apply_voter_transaction t d = Ok d.
Proof.
  intros Hl Ha. destruct (already_applied_stale t d Hl Ha) as (v & Hv & Hne).
  unfold apply_voter_transaction. rewrite Hv.
  destruct (decide _) as [->|]; done.
Qed.

Lemma apply_voter_already_applied t u d :
  legal_edge u -> already_applied t d ->
  already_applied t (state_of (apply_voter_transaction u d)).
Proof.
  intros Hl (s & Hs & Hr). unfold apply_voter_transaction.
  destruct (d !! key_of_content (content u)) as [cur|] eqn:Hcur; [|by exists s].
  destruct (decide _) as [->|]; [|by exists s].
  set (d0 := <[key_of_content (content u) := VState (new_state u)]> d).
  assert (Ha0 : already_applied t d0).
  { unfold already_applied, d0.
    destruct (decide (key_of_content (content u) = key_of_content (content t)))
      as [E|E].
    - rewrite E, lookup_insert_eq. eexists; split; [done|].
      rewrite E, Hs in Hcur. injection Hcur as ->.
      apply legal_edge_rank in Hl. lia.
    - rewrite lookup_insert_ne by done. eauto. }
  assert (Hent : forall k', is_entity_key k' -> forall s', k' <> KState s').
  { intros [] ? ?; done. }
  destruct (dict_add _ (-1) d0) as [e|d1] eqn:E1; [done|].
  assert (Ha1 : already_applied t d1).
  { destruct Ha0 as (s0 & Hs0 & Hr0). exists s0. split; [|done].
    rewrite <- Hs0. eapply dict_add_lookup_ne; [exact E1|].
    apply Hent, key_of_content_entity. }
  destruct (dict_add _ 1 d1) as [e|d2] eqn:E2; [done|].
  destruct Ha1 as (s1 & Hs1 & Hr1). exists s1. split; [|done].
  simpl. rewrite <- Hs1. eapply dict_add_lookup_ne; [exact E2|].
  apply Hent, key_of_content_entity.
Qed.

Lemma voter_apply_remove t pre post d :
  legal_edge t -> Forall legal_edge pre -> already_applied t d ->
  voter_apply_transactions (pre ++ t :: post) d
  = voter_apply_transactions (pre ++ post) d.
Proof.
  intros Hl Hpre. revert d.
  induction Hpre as [|u pre Hu Hpre IH]; intros d Ha; simpl.
  - by rewrite apply_voter_stale.
  - pose proof (apply_voter_already_applied t u d Hu Ha) as Ha'.
    destruct (apply_voter_transaction u d) as [d'|e d']; [|done].
    by apply IH.
Qed.

(** C4, for transactions on legal edges. A transaction on a legal edge that
    has been applied leaves the recorded state of its entity at or beyond its
    new state; a copy of it in a later batch of legal edges is then stale: the
    vote ledger ends with the same dictionary, and in the same way, as on the
    batch without the copy, and so does the voter ledger; and a batch holding
    the same transaction twice leaves the dictionary that the batch holding it
    once leaves. *)
Theorem stale_copy_is_not_replayed :
  (forall mem t σ σ',
      ledger σ !! key_of_content (content t)
        = Some (VState (previous_state t)) ->
      apply_vote_transaction mem t σ = Ok σ' ->
      already_applied t (ledger σ'))
  /\ (forall mem t pre post σ,
         legal_edge t ->
         Forall (fun u => legal_edge u /\ (tx_addr u = tx_addr t -> u = t))
                (pre ++ post) ->
         already_applied t (ledger σ) ->
         same_snapshot (apply_transactions mem (pre ++ t :: post) σ)
                       (apply_transactions mem (pre ++ post) σ))
  /\ (forall t pre post d,
         legal_edge t -> Forall legal_edge (pre ++ post) ->
         already_applied t d ->
         voter_apply_transactions (pre ++ t :: post) d
         = voter_apply_transactions (pre ++ post) d)
  /\ (forall mem t σ,
         previous_state t <> new_state t ->
         same_snapshot (apply_transactions mem [t; t] σ)
                       (apply_transactions mem [t] σ)).
Proof.
  split; [|split; [|split]].
  - intros mem t σ σ' Hpre Happ.
    rewrite (apply_vote_matched mem t σ Hpre) in Happ.
    destruct (update_ledger mem t (ledger σ)) as [d|e d] eqn:E; [|done].
    injection Happ as <-. simpl.
    exists (new_state t). split; [|done]. by eapply update_ledger_new_state.
  - intros mem t pre post σ Hl Hall Ha.
    unfold same_snapshot, apply_transactions.
    assert (Hag : agree t σ σ) by done.
    pose proof (vote_pass_remove mem t Hl 0 pre post σ σ Hall Hag) as Hr0.
    destruct (vote_pass mem 0 (pre ++ t :: post) σ) as [s1|e1 s1],
             (vote_pass mem 0 (pre ++ post) σ) as [s2|e2 s2];
      try (exfalso; by apply Hr0).
    2: { destruct Hr0 as [-> Hd]; done. }
    destruct Hr0 as (Hag' & Hm1 & Hm2); [done|].
    pose proof (vote_pass_remove mem t Hl 1 pre post s1 s2 Hall Hag') as Hr1.
    destruct (vote_pass mem 1 (pre ++ t :: post) s1) as [q1|e1 q1],
             (vote_pass mem 1 (pre ++ post) s2) as [q2|e2 q2];
      try (exfalso; by apply Hr1).
    + destruct Hr1 as ((Hd & _) & _); done.
    + destruct Hr1 as [-> Hd]; done.
  - intros t pre post d Hl [Hpre _]%Forall_app Ha.
    by apply voter_apply_remove.
  - intros mem t σ Hne.
    unfold same_snapshot, apply_transactions. cbn [vote_pass].
    rewrite !vote_step_first_pass.
    destruct (ledger σ !! key_of_content (content t)) as [old|] eqn:Hold.
    2: { by rewrite (apply_vote_missing mem t σ Hold). }
    destruct (decide (old = VState (previous_state t))) as [->|Hno].
    + rewrite (apply_vote_matched mem t σ) by done.
      destruct (update_ledger mem t (ledger σ)) as [d1|e d1] eqn:E1; [|done].
      apply update_ledger_new_state in E1.
      vote_red. rewrite (apply_vote_deferred mem t _ (VState (new_state t)));
        [|done|congruence].
      vote_red. rewrite (vote_step_marked mem t) by marks_solve.
      vote_red. rewrite (apply_vote_deferred mem t _ (VState (new_state t)));
        [|done|congruence].
      vote_red. rewrite (vote_step_marked mem t) by marks_solve.
      vote_red. rewrite (apply_vote_deferred mem t _ (VState (new_state t)));
        [|done|congruence].
      vote_red. rewrite (vote_step_unmarked mem t) by marks_solve.
      done.
    + assert (Hd : VState (previous_state t) <> old) by congruence.
      rewrite (apply_vote_deferred mem t σ old) by done.
      vote_red. rewrite (apply_vote_deferred mem t _ old) by done.
      vote_red. rewrite (vote_step_marked mem t) by marks_solve.
      vote_red. rewrite (apply_vote_deferred mem t _ old) by done.
      vote_red. rewrite (vote_step_marked mem t) by marks_solve.
      vote_red. rewrite (apply_vote_deferred mem t _ old) by done.
      vote_red. rewrite (vote_step_marked mem t) by marks_solve.
      vote_red. rewrite (apply_vote_deferred mem t _ old) by done.
      done.
Qed.

End idempotence.

(** With the constructor's states alone, a copy of an applied transaction
    can be applied again: a vote transaction Created -> Created on a ballot
    with X selected counts X at each replay, and a voter transaction
    NotVoted -> Voted is applied a second time once Voted -> NotVoted has
    come before it in the batch. *)
Lemma applied_copy_replayed :
  (let mem := Choice_select (choice_X 10) blank in
   let t := vote_tx mem 100 b1 CREATED CREATED None in
   let r1 := apply_transactions mem [t] (store_of ledger1) in
   let again := apply_transactions mem [t] (state_of r1) in
   let without := apply_transactions mem [] (state_of r1) in
   Transaction_init mem VoteTransaction 100 (CBallot b1) (keys_of 7)
     CREATED CREATED false None 0 = inr t
   /\ returns r1 = true
   /\ reiterate (state_of r1) !! 100 = Some false
   /\ tally (ledger (state_of r1)) (choice_X 10) = Some 1%Z
   /\ tally (ledger (state_of again)) (choice_X 10) = Some 2%Z
   /\ tally (ledger (state_of without)) (choice_X 10) = Some 1%Z
   /\ ~ same_snapshot again without)
  /\ (let cast := voter_tx 200 voter1 NOT_VOTED VOTED in
      let back := voter_tx 201 voter1 VOTED NOT_VOTED in
      let d1 := state_of (voter_apply_transactions [cast]
                  (voter_ledger (VoterLedger_init [voter1; voter2]))) in
      let again := voter_apply_transactions [back; cast] d1 in
      let without := voter_apply_transactions [back] d1 in
      d1 !! KVoter 31 = Some (VState VOTED)
      /\ state_of again !! KVoter 31 = Some (VState VOTED)
      /\ state_of without !! KVoter 31 = Some (VState NOT_VOTED)
      /\ again <> without).
Proof.
  split.
  - cbv zeta. split; [reflexivity|]. do 5 (split; [by vm_compute|]).
    intros [Hl _]. apply (f_equal (fun d => d !! KChoice 10)) in Hl.
    vm_compute in Hl. discriminate.
  - cbv zeta. do 3 (split; [by vm_compute|]).
    intros E. apply (f_equal (fun r => state_of r !! KVoter 31)) in E.
    vm_compute in E. discriminate.
Qed.

(** The statement above on the concrete election: a stale copy of the
    issue of [b1], a stale copy of the vote of [voter1], and the issue of
    [b1] twice in one batch. *)
Lemma stale_copy_is_not_replayed_witness :
  let issue := vote_tx blank 100 b1 CREATED ISSUED (Some false) in
  let use := vote_tx blank 101 b1 ISSUED USED None in
  let σ := state_of (apply_transactions blank [issue] (store_of ledger12)) in
  let cast := voter_tx 200 voter1 NOT_VOTED VOTED in
  let d := state_of (voter_apply_transactions [cast]
             (voter_ledger (VoterLedger_init [voter1; voter2]))) in
  (legal_edge issue /\ already_applied issue (ledger σ)
   /\ same_snapshot (apply_transactions blank ([] ++ issue :: [use]) σ)
                    (apply_transactions blank ([] ++ [use]) σ))
  /\ (legal_edge cast /\ already_applied cast d
      /\ voter_apply_transactions ([] ++ cast :: []) d
         = voter_apply_transactions ([] ++ []) d)
  /\ (previous_state issue <> new_state issue
      /\ same_snapshot
           (apply_transactions blank [issue; issue] (store_of ledger12))
           (apply_transactions blank [issue] (store_of ledger12))).
Proof.
  intros issue use σ cast d.
  pose proof (@stale_copy_is_not_replayed ideal_crypto minute_runtime)
    as (T0 & T1 & T2 & T3).
  assert (Hli : legal_edge issue) by (vm_compute; repeat constructor).
  assert (Hlu : legal_edge use) by (vm_compute; repeat constructor).
  assert (Hlc : legal_edge cast) by (vm_compute; repeat constructor).
  assert (Hai : already_applied issue (ledger σ)).
  { apply (T0 blank issue (store_of ledger12)); reflexivity. }
  assert (Hac : already_applied cast d).
  { exists VOTED. split; [reflexivity | simpl; lia]. }
  split; [|split].
  - split; [done|]. split; [done|].
    apply T1; [done| |done].
    constructor; [|constructor]. split; [done|].
    intros E. vm_compute in E. discriminate.
  - split; [done|]. split; [done|]. apply T2; [done|constructor|done].
  - assert (Hne : previous_state issue <> new_state issue)
      by (vm_compute; discriminate).
    split; [done|]. by apply T3.
Defined.

(** ** Deferred and conflicting transactions *)

Section conflicts.
Context `{Crypto} `{Runtime}.

Lemma vote_pass_all_deferred mem it txs σ :
  Forall (deferred_on (ledger σ)) txs ->
  (it = 1 -> forall t, t ∈ txs -> reiterate σ !! tx_addr t = Some true) ->
  exists σ', vote_pass mem it txs σ = Ok σ'
             /\ ledger σ' = ledger σ
             /\ (forall a, reiterate σ !! a = Some true ->
                           reiterate σ' !! a = Some true)
             /\ (forall t, t ∈ txs -> reiterate σ' !! tx_addr t = Some true).
Proof.
  intros Hall. revert σ Hall.
  induction txs as [|t txs IH]; intros σ Hall Hmk; simpl.
  - exists σ. repeat split; try done. by intros t ?%elem_of_nil.
  - apply Forall_cons in Hall as [(v & Hv & Hne) Hall].
    assert (Hstep : vote_step mem it t σ = Ok (set_reiterate t true σ)).
    { unfold vote_step. destruct (decide (it = 1)) as [E|_].
      - rewrite (Hmk E t) by left. by eapply apply_vote_deferred.
      - by eapply apply_vote_deferred. }
    rewrite Hstep.
    destruct (IH (set_reiterate t true σ)) as (σ' & -> & Hl & Hk & Hin).
    { done. }
    { intros E u Hu. simpl.
      destruct (decide (tx_addr u = tx_addr t)) as [->|?].
      - by rewrite lookup_insert_eq.
      - rewrite lookup_insert_ne by done. apply Hmk; [done|by right]. }
    exists σ'. split; [done|]. split; [done|]. split.
    + intros a Ha. apply Hk. simpl.
      destruct (decide (a = tx_addr t)) as [->|?].
      * by rewrite lookup_insert_eq.
      * by rewrite lookup_insert_ne.
    + intros u [->|Hu]%elem_of_cons; [|by apply Hin].
      apply Hk. simpl. by rewrite lookup_insert_eq.
Qed.

Lemma voter_apply_all_deferred txs d :
  Forall (deferred_on d) txs -> voter_apply_transactions txs d = Ok d.
Proof.
  induction 1 as [|t txs (v & Hv & Hne) Hall IH]; simpl; [done|].
  unfold apply_voter_transaction. rewrite Hv.
  destruct (decide _) as [->|]; done.
Qed.















End conflicts.



(** ** Candidate keys and generated ballots *)

Section candidate_keys.
Context `{Crypto} `{Runtime}.

Lemma get_selected_choices_subset mem b c :
  c ∈ get_selected_choices mem b -> c ∈ ballot_choices b.
Proof.
  unfold get_selected_choices, ballot_choices.
  rewrite !list_elem_of_In, !in_flat_map.
  intros (it & Hit & Hc). exists it. split; [done|].
  apply list_elem_of_In in Hc. apply list_elem_of_In.
  by apply list_elem_of_filter in Hc as [_ ?].
Qed.

(** *** Fresh addresses *)

Lemma deepcopy_Choice_fresh lo c memo h c' memo' h' :
  deepcopy_Choice c memo h = (c', memo', h') ->
  lo <= next_addr h ->
  (forall k v, memo !! k = Some v -> lo <= choice_addr v < next_addr h) ->
  next_addr h <= next_addr h'
  /\ lo <= choice_addr c' < next_addr h'
  /\ (forall k v, memo' !! k = Some v -> lo <= choice_addr v < next_addr h').
Proof.
  unfold deepcopy_Choice. intros E Hlo Hmemo.
  destruct (memo !! choice_addr c) as [c0|] eqn:Hc.
  - injection E as <- <- <-. split; [lia|]. split; [by eapply Hmemo|done].
  - injection E as <- <- <-. simpl. split; [lia|]. split; [lia|].
    intros k v. destruct (decide (k = choice_addr c)) as [->|Hne].
    + rewrite lookup_insert_eq. intros [= <-]. simpl. lia.
    + rewrite lookup_insert_ne by done. intros Hk.
      specialize (Hmemo k v Hk). lia.
Qed.

Lemma deepcopy_choices_fresh lo cs memo h cs' memo' h' :
  deepcopy_choices cs memo h = (cs', memo', h') ->
  lo <= next_addr h ->
  (forall k v, memo !! k = Some v -> lo <= choice_addr v < next_addr h) ->
  next_addr h <= next_addr h'
  /\ (forall c, c ∈ cs' -> lo <= choice_addr c < next_addr h')
  /\ (forall k v, memo' !! k = Some v -> lo <= choice_addr v < next_addr h').
Proof.
  revert memo h cs' memo' h'.
  induction cs as [|c cs IH]; intros memo h cs' memo' h' E Hlo Hmemo; simpl in E.
  - injection E as <- <- <-. split; [lia|]. split; [|done].
    by intros c ?%elem_of_nil.
  - destruct (deepcopy_Choice c memo h) as [[c1 memo1] h1] eqn:E1.
    destruct (deepcopy_choices cs memo1 h1) as [[cs2 memo2] h2] eqn:E2.
    injection E as <- <- <-.
    destruct (deepcopy_Choice_fresh lo _ _ _ _ _ _ E1 Hlo Hmemo)
      as (Hle1 & Hc1 & Hmemo1).
    destruct (IH _ _ _ _ _ E2 ltac:(lia) Hmemo1) as (Hle2 & Hcs2 & Hmemo2).
    split; [lia|]. split; [|done].
    intros c0 [->|Hin]%elem_of_cons; [lia|by apply Hcs2].
Qed.

Lemma BallotItem_deepcopy_fresh it h it' h' :
  BallotItem_deepcopy it h = (it', h') ->
  next_addr h <= next_addr h'
  /\ forall c, c ∈ choices it' -> next_addr h <= choice_addr c < next_addr h'.
Proof.
  unfold BallotItem_deepcopy. intros E.
  destruct (deepcopy_choices (choices it) ∅ h) as [[cs memo] h1] eqn:E1.
  injection E as <- <-. simpl.
  destruct (deepcopy_choices_fresh (next_addr h) _ _ _ _ _ _ E1) as (? & ? & _);
    [lia| |done].
  intros k v. by rewrite lookup_empty.
Qed.

Lemma get_deep_copy_of_list_fresh its h its' h' :
  get_deep_copy_of_list its h = (its', h') ->
  next_addr h <= next_addr h'
  /\ forall it c, it ∈ its' -> c ∈ choices it ->
                  next_addr h <= choice_addr c < next_addr h'.
Proof.
  revert h its' h'. induction its as [|it its IH]; intros h its' h' E; simpl in E.
  - injection E as <- <-. split; [lia|]. by intros it c ?%elem_of_nil.
  - destruct (BallotItem_deepcopy it h) as [it1 h1] eqn:E1.
    destruct (get_deep_copy_of_list its h1) as [its2 h2] eqn:E2.
    injection E as <- <-.
    destruct (BallotItem_deepcopy_fresh _ _ _ _ E1) as [Hle1 Hc1].
    destruct (IH _ _ _ E2) as [Hle2 Hc2].
    split; [lia|].
    intros it0 c [->|Hin]%elem_of_cons Hc.
    + specialize (Hc1 c Hc). lia.
    + specialize (Hc2 it0 c Hin Hc). lia.
Qed.

Lemma generate_loop_fresh election_name its rand i count h bs h' :
  generate_loop election_name its rand i count h = (bs, h') ->
  next_addr h <= next_addr h'
  /\ forall b c, b ∈ bs -> c ∈ ballot_choices b ->
                 next_addr h <= choice_addr c < next_addr h'.
Proof.
  revert i h bs h'. induction count as [|count IH]; intros i h bs h' E;
    simpl in E.
  - injection E as <- <-. split; [lia|]. by intros b c ?%elem_of_nil.
  - destruct (get_deep_copy_of_list its h) as [copies h1] eqn:E1.
    destruct (generate_loop election_name its rand (S i) count _)
      as [rest h3] eqn:E3.
    injection E as <- <-.
    destruct (get_deep_copy_of_list_fresh _ _ _ _ E1) as [Hle1 Hc1].
    destruct (IH _ _ _ _ E3) as [Hle3 Hc3]. simpl in Hle3, Hc3.
    split; [lia|].
    intros b c [->|Hin]%elem_of_cons Hc.
    + unfold ballot_choices in Hc. simpl in Hc.
      apply list_elem_of_In, in_flat_map in Hc as (it & Hit & Hc).
      apply list_elem_of_In in Hit, Hc.
      specialize (Hc1 it c Hit Hc). lia.
    + specialize (Hc3 b c Hin Hc). lia.
Qed.

(** The Choice objects of a generated ballot other than the first are not
    those of the first one. *)
Lemma generate_ballots_choices_apart election_name its n rand h b0 rest h' :
  generate_ballots election_name its n rand h = (b0 :: rest, h') ->
  forall b c c0, b ∈ rest -> c ∈ ballot_choices b -> c0 ∈ ballot_choices b0 ->
                 choice_addr c <> choice_addr c0.
Proof.
  unfold generate_ballots. destruct n as [[|n]|]; try discriminate.
  simpl. intros E.
  destruct (get_deep_copy_of_list its h) as [copies h1] eqn:E1.
  destruct (generate_loop election_name its rand 1 n _) as [rest' h3] eqn:E3.
  injection E as <- <- <-.
  destruct (get_deep_copy_of_list_fresh _ _ _ _ E1) as [Hle1 Hc1].
  destruct (generate_loop_fresh _ _ _ _ _ _ _ _ E3) as [Hle3 Hc3].
  simpl in Hle3, Hc3.
  intros b c c0 Hb Hc Hc0.
  unfold ballot_choices in Hc0. simpl in Hc0.
  apply list_elem_of_In, in_flat_map in Hc0 as (it & Hit & Hc0).
  apply list_elem_of_In in Hit, Hc0.
  specialize (Hc1 it c0 Hit Hc0). specialize (Hc3 b c Hb Hc). lia.
Qed.

(** *** The candidate keys of a ledger *)

Lemma register_choices_lookup_None cs (d : dict) a :
  d !! KChoice a = None -> a ∉ map choice_addr cs ->
  register_choices cs d !! KChoice a = None.
Proof.
  unfold register_choices. revert d.
  induction cs as [|c cs IH]; intros d Hd Hnot; simpl; [done|].
  simpl in Hnot. apply not_elem_of_cons in Hnot as [Hne Hnot].
  apply IH; [|exact Hnot]. rewrite lookup_insert_ne; [exact Hd|]. congruence.
Qed.

Lemma foldl_insert_ballots_other (bs : list Ballot) (d : dict) k :
  (forall a, k <> KBallot a) ->
  foldl (fun d b => <[KBallot (ballot_addr b) := VState CREATED]> d) d bs !! k
  = d !! k.
Proof.
  intros Hk. revert d. induction bs as [|b bs IH]; intros d; simpl; [done|].
  rewrite IH, lookup_insert_ne; [done|]. intros E. by apply (Hk (ballot_addr b)).
Qed.

Lemma VoteLedger_init_candidate_keys b0 rest L a :
  VoteLedger_init (b0 :: rest) = inr L ->
  a ∉ map choice_addr (ballot_choices b0) ->
  vote_ledger L !! KChoice a = None.
Proof.
  unfold VoteLedger_init. intros [= <-] Hnot. cbn [vote_ledger].
  set (d := <[KState USED := _]> _).
  assert (Hd : d !! KChoice a = None).
  { unfold d. rewrite !lookup_insert_ne by discriminate.
    rewrite foldl_insert_ballots_other by discriminate.
    by rewrite lookup_insert_ne. }
  clearbody d. unfold ballot_choices in Hnot. revert d Hd.
  induction (items b0) as [|it its IH]; intros d Hd; simpl; [done|].
  simpl in Hnot. rewrite map_app in Hnot.
  apply not_elem_of_app in Hnot as [Hn1 Hn2].
  apply IH; [done|]. by apply register_choices_lookup_None.
Qed.

(** [apply_transactions] adds no key to the dictionary. *)
Lemma dict_add_lookup_None k delta d d' k' :
  dict_add k delta d = inr d' -> d !! k' = None -> d' !! k' = None.
Proof.
  intros (n & Hn & ->)%dict_add_inr Hk'.
  rewrite lookup_insert_ne; [done|]. congruence.
Qed.

Lemma update_candidates_lookup_None cs d k :
  d !! k = None -> state_of (update_candidates cs d) !! k = None.
Proof.
  revert d. induction cs as [|c cs IH]; intros d Hd; simpl; [done|].
  destruct (dict_add _ 1 d) as [e|d'] eqn:E; simpl; [done|].
  apply IH. by eapply dict_add_lookup_None.
Qed.

Lemma update_ledger_candidate_None mem t d a :
  d !! KChoice a = None ->
  state_of (update_ledger mem t d) !! KChoice a = None.
Proof.
  intros Hd. unfold update_ledger.
  set (d0 := <[key_of_content (content t) := VState (new_state t)]> d).
  assert (Hd0 : d0 !! KChoice a = None).
  { unfold d0. rewrite lookup_insert_ne; [done|]. by destruct (content t). }
  destruct (dict_add _ (-1) d0) as [e|d1] eqn:E1; [done|].
  pose proof (dict_add_lookup_None _ _ _ _ _ E1 Hd0) as Hd1.
  destruct (dict_add _ 1 d1) as [e|d2] eqn:E2; [done|].
  pose proof (dict_add_lookup_None _ _ _ _ _ E2 Hd1) as Hd2.
  destruct (content_selected_choices mem (content t)) as [e|cands]; [done|].
  by apply update_candidates_lookup_None.
Qed.

Lemma vote_pass_candidate_None mem it txs σ a :
  ledger σ !! KChoice a = None ->
  ledger (state_of (vote_pass mem it txs σ)) !! KChoice a = None.
Proof.
  revert σ. induction txs as [|t txs IH]; intros σ Hd; simpl; [done|].
  assert (Hstep : ledger (state_of (vote_step mem it t σ)) !! KChoice a = None).
  { assert (ledger (state_of (apply_vote_transaction mem t σ)) !! KChoice a
            = None) as Happ.
    { unfold apply_vote_transaction.
      destruct (ledger σ !! key_of_content (content t)) as [old|]; [|done].
      destruct (decide _); [|done].
      pose proof (update_ledger_candidate_None mem t (ledger σ) a Hd).
      by destruct (update_ledger mem t (ledger σ)). }
    unfold vote_step. destruct (decide (it = 1)); [|done].
    by destruct (reiterate σ !! tx_addr t) as [[]|]. }
  destruct (vote_step mem it t σ) as [σ'|e σ']; simpl in *; [|done].
  by apply IH.
Qed.

Lemma vote_reachable_candidate_keys b0 rest p a :
  vote_reachable (b0 :: rest) p ->
  a ∉ map choice_addr (ballot_choices b0) ->
  vote_ledger (fst p) !! KChoice a = None.
Proof.
  intros Hr Hnot.
  induction Hr as [L marks Hinit | mem txs L marks Hr IH Hall].
  - by eapply VoteLedger_init_candidate_keys.
  - unfold VoteLedger_apply_transactions, apply_transactions. simpl in IH.
    pose proof (vote_pass_candidate_None mem 0 txs
                  {| ledger := vote_ledger L; reiterate := marks |} a IH) as Hp0.
    destruct (vote_pass mem 0 txs _) as [σ|e σ]; simpl in *; [|done].
    pose proof (vote_pass_candidate_None mem 1 txs σ a Hp0) as Hp1.
    by destruct (vote_pass mem 1 txs σ).
Qed.

(** The loop over the selected choices stops at the first one whose key the
    dictionary lacks. *)
Lemma update_candidates_KeyError cs d :
  cs <> [] ->
  (forall c, c ∈ cs -> d !! KChoice (choice_addr c) = None) ->
  update_candidates cs d = Raise KeyError d.
Proof.
  destruct cs as [|c cs]; [done|]. intros _ Hnone. simpl.
  unfold dict_add. rewrite Hnone; [done|left].
Qed.

(** C10. The candidate keys of a vote ledger are the Choice objects of the
    first ballot, and every generated ballot has Choice objects of its own:
    for every ballot other than the first that the ledger records as Issued
    and that has a selected choice, the batch made of its Issued -> Used
    transaction raises KeyError at the lookup of the tally, after the state
    of the ballot has been written and with no tally for any of its selected
    choices. *)
Theorem tally_lookup_fails_beyond_first_ballot
    election_name its n rand h ballots h' i b mem L marks use :
  generate_ballots election_name its n rand h = (ballots, h') ->
  ballots !! S i = Some b ->
  vote_reachable ballots (L, marks) ->
  vote_ledger L !! KBallot (ballot_addr b) = Some (VState ISSUED) ->
  get_selected_choices mem b <> [] ->
  content use = CBallot b ->
  previous_state use = ISSUED -> new_state use = USED ->
  exists σ,
    apply_transactions mem [use]
      {| ledger := vote_ledger L; reiterate := marks |} = Raise KeyError σ
    /\ ledger σ !! KBallot (ballot_addr b) = Some (VState USED)
    /\ forall c, c ∈ get_selected_choices mem b ->
                 ledger σ !! KChoice (choice_addr c) = None.
Proof.
  intros Hgen Hb Hreach Hissued Hsel Hc Hp Hn.
  destruct ballots as [|b0 rest]; [done|]. simpl in Hb.
  assert (Hin : b ∈ rest) by (by eapply list_elem_of_lookup_2).
  assert (Hnone : forall c, c ∈ get_selected_choices mem b ->
                            vote_ledger L !! KChoice (choice_addr c) = None).
  { intros c Hcs%get_selected_choices_subset.
    apply (vote_reachable_candidate_keys b0 rest (L, marks) _ Hreach).
    intros (c0 & E & Hc0)%list_elem_of_fmap.
    by apply (generate_ballots_choices_apart _ _ _ _ _ _ _ _ Hgen b c c0). }
  destruct (vote_reachable_counter_sum _ _ Hreach) as [Hsum _].
  cbn [fst] in Hsum.
  set (σ := {| ledger := vote_ledger L; reiterate := marks |}).
  set (d0 := <[KBallot (ballot_addr b) := VState USED]> (vote_ledger L)).
  assert (Hs0 : counter_sum [CREATED; ISSUED; USED] d0
                = Some (Z.of_nat (length (b0 :: rest)))).
  { unfold d0. by rewrite counter_sum_insert_other. }
  destruct (counter_sum_add _ ISSUED (-1) d0 _ NoDup_vote_states
              ltac:(set_solver) Hs0) as (d1 & E1 & Hs1).
  destruct (counter_sum_add _ USED 1 d1 _ NoDup_vote_states
              ltac:(set_solver) Hs1) as (d2 & E2 & _).
  assert (Hup : update_ledger mem use (vote_ledger L) = Raise KeyError d2).
  { unfold update_ledger. rewrite Hc, Hp, Hn. cbn [key_of_content].
    fold d0. rewrite E1, E2. cbn [content_selected_choices].
    apply update_candidates_KeyError; [done|].
    intros c Hcs. eapply dict_add_lookup_None; [exact E2|].
    eapply dict_add_lookup_None; [exact E1|].
    unfold d0. rewrite lookup_insert_ne by done. by apply Hnone. }
  exists (set_ledger d2 σ). split; [|split].
  - unfold apply_transactions. cbn [vote_pass].
    rewrite vote_step_first_pass.
    rewrite (apply_vote_matched mem use σ).
    + cbn [ledger σ]. by rewrite Hup.
    + by rewrite Hc, Hp.
  - cbn [ledger set_ledger].
    rewrite (dict_add_lookup_ne _ _ _ _ _ E2) by done.
    rewrite (dict_add_lookup_ne _ _ _ _ _ E1) by done.
    unfold d0. by rewrite lookup_insert_eq.
  - intros c Hcs. cbn [ledger set_ledger].
    eapply dict_add_lookup_None; [exact E2|].
    eapply dict_add_lookup_None; [exact E1|].
    unfold d0. rewrite lookup_insert_ne by done. by apply Hnone.
Qed.

End candidate_keys.

(** The second of two generated ballots, issued and then filled in. *)
Lemma tally_lookup_fails_beyond_first_ballot_witness :
  let ballots := fst generated in
  let g1 := generated_ballot 1 in
  let mem0 := chosen (snd generated) in
  let issue := vote_tx mem0 300 g1 CREATED ISSUED (Some false) in
  let p := state_of (VoteLedger_apply_transactions mem0 [issue]
                       (ledger_of (VoteLedger_init ballots)) ∅) in
  let mem := Choice_select (choice_X 103) mem0 in
  let use := vote_tx mem 301 g1 ISSUED USED None in
  (ballots !! 1 = Some g1
   /\ vote_reachable ballots (fst p, snd p)
   /\ vote_ledger (fst p) !! KBallot (ballot_addr g1) = Some (VState ISSUED)
   /\ get_selected_choices mem g1 <> [])
  /\ exists σ,
      apply_transactions mem [use]
        {| ledger := vote_ledger (fst p); reiterate := snd p |}
      = Raise KeyError σ
      /\ ledger σ !! KBallot (ballot_addr g1) = Some (VState USED)
      /\ forall c, c ∈ get_selected_choices mem g1 ->
                   ledger σ !! KChoice (choice_addr c) = None.
Proof.
  intros ballots g1 mem0 issue p mem use.
  assert (Hb : ballots !! 1 = Some g1) by reflexivity.
  assert (Hr : vote_reachable ballots (fst p, snd p)).
  { rewrite <- surjective_pairing. apply vote_reachable_apply.
    - apply vote_reachable_init. reflexivity.
    - repeat constructor; vm_compute; repeat constructor. }
  assert (Hi : vote_ledger (fst p) !! KBallot (ballot_addr g1)
               = Some (VState ISSUED)) by reflexivity.
  assert (Hs : get_selected_choices mem g1 <> []) by (vm_compute; discriminate).
  split; [done|].
  apply (tally_lookup_fails_beyond_first_ballot
           "2018 Election" template (Some 2) (fun i => N.of_nat i) heap0
           ballots (snd generated) 0 g1 mem (fst p) (snd p) use);
    done.
Defined.

(** ** Two-phase signing *)

Section two_phase.
Context `{Crypto} `{Runtime}.

(** A signature verifies for the message it was made for only. *)
Hypothesis sign_sound :
  forall m m' sk pk, verify_signature m' (sign m sk) pk = true -> m' = m.

(** A signature verifies for its message under the key of its signer. *)
Hypothesis sign_correct :
  forall m sk, verify_signature m (sign m sk) (public_key_of sk) = true.

Lemma timestamp_and_sign_fields mem now t :
  tx_kind t = VoteTransaction ->
  exists msg,
    signature_payload mem (content t) (previous_state t) (new_state t)
                      true (Some now) None = inr msg
    /\ timestamp_and_sign mem now t
       = Ok {| tx_addr := tx_addr t; tx_kind := tx_kind t;
                content := content t;
                signature_kwargs := signature_kwargs t;
                previous_state := previous_state t;
                new_state := new_state t; node := node t;
                timestamped := true; time := Some now;
                tx_signature := sign_message (node t) msg |}.
Proof.
  intros Hk. eexists. split; [reflexivity|].
  unfold timestamp_and_sign. rewrite Hk at 1. reflexivity.
Qed.

(** Every transaction of a batch of VoteTransaction objects gets the one
    reading of the clock, is marked timestamped and carries a signature of
    its issuer over the payload with the timestamp, computed without keyword
    arguments. *)
Lemma timestamp_and_sign_transactions_spec mem now txs :
  Forall (fun t => tx_kind t = VoteTransaction) txs ->
  exists txs',
    timestamp_and_sign_transactions mem now txs = Ok txs'
    /\ Forall2 (fun t t' =>
         timestamped t' = true /\ time t' = Some now
         /\ content t' = content t /\ previous_state t' = previous_state t
         /\ new_state t' = new_state t /\ node t' = node t
         /\ signature_kwargs t' = signature_kwargs t
         /\ exists msg,
              get_signature_contents mem t' None = inr msg
              /\ tx_signature t' = sign_message (node t) msg) txs txs'.
Proof.
  induction 1 as [|t txs Hk Hall (txs' & E & IH)];
    cbn [timestamp_and_sign_transactions].
  - exists []. split; [done|constructor].
  - destruct (timestamp_and_sign_fields mem now t Hk) as (msg & Hmsg & ->).
    rewrite E. eexists; split; [done|]. constructor; [|done].
    cbn [content signature_kwargs previous_state new_state node timestamped
         time tx_signature].
    do 7 (split; [done|]). exists msg. split; [|done].
    unfold get_signature_contents. exact Hmsg.
Qed.

(** A transaction built with no keyword argument verifies after the second
    signature, when the keys of its issuer match. *)
Lemma resigned_plain_transaction_verifies mem now t t' :
  signature_kwargs t = None ->
  node_public_key (node t) = public_key_of (_private_key (node t)) ->
  timestamp_and_sign mem now t = Ok t' ->
  verify_transaction mem t' = inr true.
Proof.
  intros Hkw Hkeys.
  destruct (tx_kind t) eqn:Hk; [|unfold timestamp_and_sign; by rewrite Hk].
  destruct (timestamp_and_sign_fields mem now t Hk) as (msg & Hmsg & ->).
  intros [= <-]. unfold verify_transaction, get_signature_contents.
  cbn [content signature_kwargs previous_state new_state node timestamped
       time tx_signature].
  rewrite Hkw, Hmsg. unfold sign_message. by rewrite Hkeys, sign_correct.
Qed.

(** The second signature is made over the payload computed without the
    keyword arguments of the transaction, while verification recomputes the
    payload with them: whenever the two payloads differ, the re-signed
    transaction does not verify. *)
Lemma resigned_payload_mismatch mem now t :
  tx_kind t = VoteTransaction ->
  signature_payload mem (content t) (previous_state t) (new_state t)
                    true (Some now) (signature_kwargs t)
  <> signature_payload mem (content t) (previous_state t) (new_state t)
                       true (Some now) None ->
  exists t',
    timestamp_and_sign_transactions mem now [t] = Ok [t']
    /\ timestamped t' = true /\ time t' = Some now
    /\ verify_transaction mem t' = inr false.
Proof.
  intros Hk Hdiff. cbn [timestamp_and_sign_transactions].
  destruct (timestamp_and_sign_fields mem now t Hk) as (msg & Hmsg & ->).
  eexists; split; [done|].
  cbn [timestamped time]. split; [done|]. split; [done|].
  unfold verify_transaction, get_signature_contents.
  cbn [content signature_kwargs previous_state new_state node timestamped
       time tx_signature].
  destruct (signature_payload mem (content t) (previous_state t) (new_state t)
              true (Some now) (signature_kwargs t)) as [e|msg'] eqn:E.
  - unfold signature_payload in E. discriminate.
  - f_equal. unfold sign_message.
    destruct (verify_signature msg' _ _) eqn:Hv; [|done].
    apply sign_sound in Hv. subst msg'. by rewrite Hmsg in Hdiff.
Qed.

(** With [include_chosen=False] the payload of a ballot that has a choice
    is shorter than without keyword arguments. *)
Lemma length_append_string (s1 s2 : string) :
  String.length (s1 +:+ s2) = String.length s1 + String.length s2.
Proof. induction s1 as [|a s1 IH]; simpl; [done|]. by rewrite IH. Qed.

Lemma join_length l :
  l <> [] -> S (String.length (join ":" l)) = weight l.
Proof.
  induction l as [|x [|y l] IH]; intros Hne; [done| |].
  - simpl. lia.
  - specialize (IH ltac:(done)).
    change (join ":" (x :: y :: l)) with (x +:+ ":" +:+ join ":" (y :: l)).
    rewrite !length_append_string.
    change (weight (x :: y :: l)) with (S (String.length x) + weight (y :: l)).
    rewrite <- IH. simpl. lia.
Qed.

Lemma weight_app l1 l2 : weight (l1 ++ l2) = weight l1 + weight l2.
Proof. induction l1 as [|x l1 IH]; simpl; [done|]. rewrite IH. lia. Qed.

Lemma weight_map_le {A} (f g : A -> string) (l : list A) :
  (forall x, String.length (f x) <= String.length (g x)) ->
  weight (map f l) <= weight (map g l).
Proof.
  intros Hle. induction l as [|x l IH]; simpl; [done|].
  specialize (Hle x). lia.
Qed.

Lemma weight_map_lt {A} (f g : A -> string) (l : list A) x :
  (forall x, String.length (f x) <= String.length (g x)) ->
  x ∈ l -> String.length (f x) < String.length (g x) ->
  weight (map f l) < weight (map g l).
Proof.
  intros Hle Hin Hlt. induction l as [|y l IH]; [by apply elem_of_nil in Hin|].
  pose proof (weight_map_le f g l Hle) as Hl. simpl.
  apply elem_of_cons in Hin as [<-|Hin].
  - lia.
  - specialize (IH Hin). specialize (Hle y). lia.
Qed.

Lemma Choice_contents_length mem c :
  String.length (Choice_get_signature_contents mem c (Some false))
  < String.length (Choice_get_signature_contents mem c None).
Proof.
  unfold Choice_get_signature_contents. cbn [include_chosen_of app].
  change (join ":" [choice_description c]) with (choice_description c).
  change (join ":" [choice_description c; str_bool (mem (choice_addr c))])
    with (choice_description c +:+ ":" +:+ str_bool (mem (choice_addr c))).
  rewrite !length_append_string. simpl. lia.
Qed.

Lemma BallotItem_contents_length mem it :
  String.length (BallotItem_get_signature_contents mem it (Some false))
  <= String.length (BallotItem_get_signature_contents mem it None)
  /\ (choices it <> [] ->
      String.length (BallotItem_get_signature_contents mem it (Some false))
      < String.length (BallotItem_get_signature_contents mem it None)).
Proof.
  unfold BallotItem_get_signature_contents.
  pose proof (join_length
    ([title it; item_description it; pretty (max_choices it)]
     ++ map (fun c => Choice_get_signature_contents mem c (Some false))
            (choices it)) ltac:(done)) as Hf.
  pose proof (join_length
    ([title it; item_description it; pretty (max_choices it)]
     ++ map (fun c => Choice_get_signature_contents mem c None)
            (choices it)) ltac:(done)) as Ht.
  rewrite weight_app in Hf, Ht.
  assert (Hle : forall c,
    String.length (Choice_get_signature_contents mem c (Some false))
    <= String.length (Choice_get_signature_contents mem c None)).
  { intros c. pose proof (Choice_contents_length mem c). lia. }
  split.
  - pose proof (weight_map_le _ _ (choices it) Hle). lia.
  - intros Hne. destruct (choices it) as [|c cs] eqn:E; [done|].
    pose proof (weight_map_lt _ _ (c :: cs) c Hle ltac:(left)
                  (Choice_contents_length mem c)). lia.
Qed.

Lemma ballot_choices_item b :
  ballot_choices b <> [] -> exists it, it ∈ items b /\ choices it <> [].
Proof.
  unfold ballot_choices. induction (items b) as [|it its IH]; [done|].
  simpl. destruct (choices it) as [|c cs] eqn:E.
  - intros Hne. destruct (IH Hne) as (it' & Hin & Hc).
    exists it'. split; [by right|done].
  - intros _. exists it. split; [by left|]. by rewrite E.
Qed.

Lemma Ballot_contents_length mem b :
  ballot_choices b <> [] ->
  String.length (Ballot_get_signature_contents mem b (Some false))
  < String.length (Ballot_get_signature_contents mem b None).
Proof.
  intros Hne. unfold Ballot_get_signature_contents.
  pose proof (join_length
    ([ballot_id b; election b]
     ++ map (fun it => BallotItem_get_signature_contents mem it (Some false))
            (items b)) ltac:(done)) as Hf.
  pose proof (join_length
    ([ballot_id b; election b]
     ++ map (fun it => BallotItem_get_signature_contents mem it None)
            (items b)) ltac:(done)) as Ht.
  rewrite weight_app in Hf, Ht.
  destruct (ballot_choices_item b Hne) as (it & Hit & Hcs).
  pose proof (weight_map_lt
    (fun it => BallotItem_get_signature_contents mem it (Some false))
    (fun it => BallotItem_get_signature_contents mem it None)
    (items b) it
    (fun x => proj1 (BallotItem_contents_length mem x)) Hit
    (proj2 (BallotItem_contents_length mem it) Hcs)). lia.
Qed.

Lemma payload_depends_on_include_chosen mem b prev new now :
  ballot_choices b <> [] ->
  signature_payload mem (CBallot b) prev new true (Some now) (Some false)
  <> signature_payload mem (CBallot b) prev new true (Some now) None.
Proof.
  intros Hne. unfold signature_payload. intros [= E].
  apply (f_equal (fun s => S (String.length s))) in E. cbv beta in E.
  rewrite !length_append_string in E.
  pose proof (Ballot_contents_length mem b Hne). lia.
Qed.

(** C8. Every transaction of the batch gets the one reading of the clock,
    is marked timestamped and has its signature replaced by one over the
    payload with the timestamp; but that payload is computed without the
    keyword arguments of the transaction, which verification uses: a
    transaction built with [include_chosen=False] on a ballot that has a
    choice does not verify after the second signature. *)
Theorem resigned_transaction_fails_verification mem now t b :
  tx_kind t = VoteTransaction ->
  content t = CBallot b -> ballot_choices b <> [] ->
  signature_kwargs t = Some false ->
  exists t',
    timestamp_and_sign_transactions mem now [t] = Ok [t']
    /\ timestamped t' = true /\ time t' = Some now
    /\ verify_transaction mem t' = inr false.
Proof.
  intros Hk Hc Hne Hkw. apply resigned_payload_mismatch; [done|].
  rewrite Hc, Hkw. by apply payload_depends_on_include_chosen.
Qed.

End two_phase.

(** The issuance of ballot [b1] by the ballot generator, re-signed at time
    5: its first signature verifies, its second one does not. *)
Lemma resigned_transaction_fails_verification_witness :
  let t := vote_tx blank 100 b1 CREATED ISSUED (Some false) in
  verify_transaction blank t = inr true
  /\ (tx_kind t = VoteTransaction
      /\ content t = CBallot b1 /\ ballot_choices b1 <> []
      /\ signature_kwargs t = Some false)
  /\ exists t',
      timestamp_and_sign_transactions blank 5 [t] = Ok [t']
      /\ timestamped t' = true /\ time t' = Some 5
      /\ verify_transaction blank t' = inr false.
Proof.
  intros t.
  assert (Hsound : forall (m m' : string) (sk pk : nat),
             verify_signature m' (sign m sk) pk = true -> m' = m).
  { intros m m' sk pk Hv. unfold verify_signature, sign in Hv. simpl in Hv.
    apply bool_decide_eq_true in Hv. by injection Hv. }
  assert (Hne : ballot_choices b1 <> []) by (vm_compute; discriminate).
  split; [reflexivity|]. split; [by repeat split|].
  exact (@resigned_transaction_fails_verification ideal_crypto minute_runtime
           Hsound blank 5 t b1 eq_refl eq_refl Hne eq_refl).
Defined.

(** ** Blocks and the chain *)

Section chain.
Context `{Crypto} `{Runtime}.

(** C9. [Block.__init__] never returns a block: with a ledger of another
    class than the block's it raises TypeError, and otherwise it raises
    AttributeError at [Block.get_hash], which class [Block] does not
    define; [Block.get_signature_contents], which builds the string of the
    header, raises NameError on every block. *)
Theorem Block_init_raises cls addr txs l n prev_block now :
  Block_init cls addr txs l n prev_block now
  = inl (if ledger_class_ok cls l then AttributeError else TypeError)
  /\ forall self, Block_get_signature_contents self = inl NameError.
Proof.
  split.
  - unfold Block_init. by destruct (ledger_class_ok cls l).
  - intros self. unfold Block_get_signature_contents.
    by destruct (previous_block self).
Qed.

Lemma add_block_gate block self :
  (snd (add_block block self) = true
   <-> is_same (previous_block block) (current_block self) = true)
  /\ (snd (add_block block self) = true ->
      current_block (fst (add_block block self)) = Some block)
  /\ (snd (add_block block self) = false -> fst (add_block block self) = self).
Proof.
  unfold add_block.
  destruct (is_same (previous_block block) (current_block self)); simpl;
    repeat split; done.
Qed.

(** C2. [add_block] makes the block the head exactly when its link is the
    current head, and leaves the chain as it is otherwise; [remove_block]
    raises and leaves the chain as it is; but [add_block_2] makes every
    block the head after overwriting its link: a block whose link is not the
    current head, which [add_block] rejects, becomes the head. *)
Theorem add_block_2_accepts_any_block block self :
  is_same (previous_block block) (current_block self) = false ->
  add_block block self = (self, false)
  /\ (exists e, remove_block block self = Raise e self)
  /\ block_addr <$> current_block (add_block_2 block self)
     = Some (block_addr block)
  /\ header <$> current_block (add_block_2 block self) = Some (header block)
  /\ previous_block <$> current_block (add_block_2 block self)
     = Some (current_block self).
Proof.
  intros Hno. unfold add_block. rewrite Hno.
  split; [done|]. split; [by eexists|]. done.
Qed.

End chain.

(** The chain A, B and a block C built on A: [add_block] rejects C,
    [add_block_2] makes it the head. *)
Lemma add_block_2_accepts_any_block_witness :
  is_same (previous_block block_C) (current_block chain_AB) = false
  /\ add_block block_C chain_AB = (chain_AB, false)
  /\ block_addr <$> current_block (add_block_2 block_C chain_AB) = Some 403.
Proof.
  assert (Hno : is_same (previous_block block_C) (current_block chain_AB)
                = false) by reflexivity.
  split; [exact Hno|].
  destruct (add_block_2_accepts_any_block block_C chain_AB Hno)
    as (Ha & _ & Hb & _).
  split; [exact Ha | exact Hb].
Defined.

(** ** Admission of transactions *)

Section admission.
Context `{Crypto} `{Runtime}.

Hypothesis sign_correct :
  forall m sk, verify_signature m (sign m sk) (public_key_of sk) = true.

Lemma elem_of_set_add u t s :
  u ∈ set_add t s -> u ∈ s \/ u = t.
Proof.
  unfold set_add. destruct (bool_decide _); [by left|].
  intros [?|?%list_elem_of_singleton]%elem_of_app; [by left|by right].
Qed.

Lemma add_transaction_verified mem t self u :
  u ∈ verified_transactions (state_of (add_transaction mem t self)) ->
  u ∈ verified_transactions self
  \/ (u = t /\ verify_transaction mem t = inr true).
Proof.
  unfold add_transaction, admission_valid.
  destruct (is_node_in_network self _) as [e|[]]; simpl; [by left| |by left].
  destruct (verify_transaction mem t) as [e|[]] eqn:Hv; simpl;
    [by left| |by left].
  destruct (negb (timestamped t)).
  - destruct (pending_transactions self); simpl; by left.
  - simpl. intros [?| ->]%elem_of_set_add; [by left|by right].
Qed.

Lemma add_transaction_pending mem t self :
  is_Some (pending_transactions (state_of (add_transaction mem t self)))
  <-> is_Some (pending_transactions self).
Proof.
  unfold add_transaction.
  destruct (admission_valid mem self t) as [e|[]]; simpl; [done| |done].
  destruct (negb (timestamped t)); [|done].
  destruct (pending_transactions self) as [p|] eqn:Hp; simpl; [|by rewrite Hp].
  split; eauto.
Qed.

Lemma add_transaction_kind mem t self :
  node_kind (state_of (add_transaction mem t self)) = node_kind self.
Proof.
  unfold add_transaction.
  destruct (admission_valid mem self t) as [e|[]]; simpl; [done| |done].
  destruct (negb (timestamped t)); [|done].
  by destruct (pending_transactions self).
Qed.

(** A transaction built by its issuer verifies, when the keys of the issuer
    match. *)
Lemma VoterComputer_created_transaction_verifies mem addr now voter keys :
  node_public_key keys = public_key_of (_private_key keys) ->
  exists tx,
    Transaction_init mem VoterTransaction addr (CVoter voter) keys
                     NOT_VOTED VOTED true None now = inr tx
    /\ verify_transaction mem tx = inr true.
Proof.
  intros Hkeys. unfold Transaction_init. cbn [content_class_ok negb].
  rewrite !bool_decide_eq_true_2 by set_solver. cbn [andb].
  unfold signature_payload. eexists; split; [done|].
  unfold verify_transaction, get_signature_contents, signature_payload.
  cbn [content signature_kwargs previous_state new_state node timestamped
       time tx_signature].
  unfold sign_message. by rewrite Hkeys, sign_correct.
Qed.

Lemma node_reachable_invariant mem n :
  node_reachable mem n ->
  (is_Some (pending_transactions n) <-> is_voting_computer (node_kind n) = true)
  /\ forall u, u ∈ verified_transactions n -> verify_transaction mem u = inr true.
Proof.
  induction 1 as [cls pk sk | m n Hn [IHp IHv] | g n Hn [IHp IHv]
                 | t n Hn [IHp IHv] | addr now voter peers n Hn [IHp IHv] Hkeys].
  - simpl. split; [|by intros u ?%elem_of_nil].
    destruct (is_voting_computer cls); split; try done; eauto.
  - done.
  - done.
  - split.
    + by rewrite add_transaction_pending, add_transaction_kind.
    + intros u [Hu|[-> Hv]]%add_transaction_verified; [by apply IHv|done].
  - destruct (VoterComputer_created_transaction_verifies
                mem addr now voter (node_keys n) Hkeys) as (tx & Htx & Hv).
    assert (E : fst (state_of (VoterComputer_create_transaction
                                 mem addr now voter n peers))
                = with_verified (set_add tx (verified_transactions n)) n).
    { unfold VoterComputer_create_transaction. rewrite Htx.
      destruct (node_mapping n); [|done].
      by destruct (broadcast_transactions mem [tx] peers). }
    rewrite E. split; [done|].
    cbn [with_verified verified_transactions].
    intros u [Hu| ->]%elem_of_set_add; [by apply IHv|done].
Qed.

(** C7. Where [Node.add_transaction] raises instead of filing the
    transaction: on a node whose mapping is not set; on a voting computer
    whose mapping does not hold the issuer while its ballot generator is not
    set, where the transaction should be rejected; on a node other than a
    voting computer for an untimestamped transaction of a trusted issuer
    whose signature verifies, where it should go to a pending set. In each
    of these the node is left as it was, the transaction in none of its
    sets. Where the trust test gives an answer: a transaction of an issuer
    that is not trusted, or whose signature does not verify, goes to the
    rejected set; one that passes both goes to the verified set when it is
    timestamped, and to the pending set of a node that has one when it is
    not. In every state that a node reaches from its construction through
    the setters, admissions and, with keys that belong together,
    [VoterComputer.create_transaction], the node has a pending set exactly
    when it is a voting computer, and its verified set holds only
    transactions whose signature verifies. *)
Theorem admission_gate mem self t :
  (node_mapping self = None ->
   add_transaction mem t self = Raise AttributeError self)
  /\ (forall m, node_mapping self = Some m ->
        is_voting_computer (node_kind self) = true ->
        m !! hash (node_public_key (node t)) = None ->
        ballot_generator self = None ->
        add_transaction mem t self = Raise AttributeError self)
  /\ (node_reachable mem self ->
      is_voting_computer (node_kind self) = false ->
      is_node_in_network self (node_public_key (node t)) = inr true ->
      verify_transaction mem t = inr true -> timestamped t = false ->
      add_transaction mem t self = Raise AttributeError self)
  /\ (is_node_in_network self (node_public_key (node t)) = inr false ->
      add_transaction mem t self
      = Ok (with_rejected (set_add t (rejected_transactions self)) self))
  /\ (is_node_in_network self (node_public_key (node t)) = inr true ->
      verify_transaction mem t = inr false ->
      add_transaction mem t self
      = Ok (with_rejected (set_add t (rejected_transactions self)) self))
  /\ (is_node_in_network self (node_public_key (node t)) = inr true ->
      verify_transaction mem t = inr true -> timestamped t = true ->
      add_transaction mem t self
      = Ok (with_verified (set_add t (verified_transactions self)) self))
  /\ (is_node_in_network self (node_public_key (node t)) = inr true ->
      verify_transaction mem t = inr true -> timestamped t = false ->
      forall p, pending_transactions self = Some p ->
      add_transaction mem t self = Ok (with_pending (set_add t p) self))
  /\ (forall n, node_reachable mem n ->
        (is_Some (pending_transactions n)
         <-> is_voting_computer (node_kind n) = true)
        /\ forall u, u ∈ verified_transactions n ->
                     verify_transaction mem u = inr true).
Proof.
  split; [|split; [|split; [|split; [|split; [|split; [|split]]]]]].
  - intros Hm. unfold add_transaction, admission_valid, is_node_in_network.
    by rewrite Hm.
  - intros m Hm Hk Hno Hg.
    unfold add_transaction, admission_valid, is_node_in_network.
    rewrite Hm, Hk, Hno, Hg.
    rewrite (bool_decide_eq_false_2 (is_Some None)) by (by intros [? ?]).
    done.
  - intros Hr Hk Htrust Hv Hts.
    destruct (node_reachable_invariant mem self Hr) as [Hp _].
    unfold add_transaction, admission_valid. rewrite Htrust, Hv, Hts.
    cbn [negb]. destruct (pending_transactions self) as [p|] eqn:E; [|done].
    assert (Hsome : is_Some (Some p)) by eauto.
    apply Hp in Hsome. congruence.
  - intros Htrust. unfold add_transaction, admission_valid. by rewrite Htrust.
  - intros Htrust Hv. unfold add_transaction, admission_valid.
    by rewrite Htrust, Hv.
  - intros Htrust Hv Hts. unfold add_transaction, admission_valid.
    by rewrite Htrust, Hv, Hts.
  - intros Htrust Hv Hts p Hp. unfold add_transaction, admission_valid.
    by rewrite Htrust, Hv, Hts, Hp.
  - apply node_reachable_invariant.
Qed.

End admission.

(** A voter computer that trusts node 8 is sent an untimestamped
    transaction signed by node 8: the issuer is trusted and the signature
    verifies, yet the call raises and the node is left with the transaction
    in none of its sets. And a transaction that a voting computer has
    admitted to its verified set stops verifying once a choice of its ballot
    is selected. *)
Lemma untimestamped_transaction_raises_on_voter_computer :
  (let t := untimestamped_voter_tx in
   is_node_in_network voter_computer (node_public_key (node t)) = inr true
   /\ verify_transaction blank t = inr true
   /\ timestamped t = false
   /\ pending_transactions voter_computer = None
   /\ add_transaction blank t voter_computer
      = Raise AttributeError voter_computer
   /\ verified_transactions voter_computer = []
   /\ rejected_transactions voter_computer = [])
  /\ (let use := timestamped_vote_tx in
      let n := state_of (add_transaction blank use voting_computer) in
      verified_transactions n = [use]
      /\ verify_transaction blank use = inr true
      /\ verify_transaction (Choice_select (choice_X 10) blank) use
         = inr false).
Proof. cbv zeta. repeat split; by vm_compute. Qed.

(** The statement above on concrete nodes: a voting computer set up
    without a ballot generator is sent a transaction of an issuer that its
    mapping does not hold; a voter computer is sent an untimestamped
    transaction that it trusts and that verifies; and a voter computer admits
    a cast to its verified set. *)
Lemma admission_gate_witness :
  let t := untimestamped_voter_tx in
  let cast := voter_tx 201 voter1 NOT_VOTED VOTED in
  (node_mapping adversary_voting_computer = Some {[ 5%Z := 1 ]}
   /\ is_voting_computer (node_kind adversary_voting_computer) = true
   /\ ballot_generator adversary_voting_computer = None
   /\ add_transaction blank cast adversary_voting_computer
      = Raise AttributeError adversary_voting_computer)
  /\ (node_reachable blank voter_computer
      /\ is_node_in_network voter_computer (node_public_key (node t))
         = inr true
      /\ verify_transaction blank t = inr true
      /\ timestamped t = false
      /\ add_transaction blank t voter_computer
         = Raise AttributeError voter_computer)
  /\ (is_node_in_network voter_computer (node_public_key (node cast))
      = inr true
      /\ verify_transaction blank cast = inr true
      /\ timestamped cast = true
      /\ add_transaction blank cast voter_computer
         = Ok (with_verified
                 (set_add cast (verified_transactions voter_computer))
                 voter_computer))
  /\ (forall u,
        u ∈ verified_transactions
              (state_of (add_transaction blank cast voter_computer)) ->
        verify_transaction blank u = inr true).
Proof.
  intros t cast.
  assert (Hc : forall (m : string) (sk : nat),
             verify_signature m (sign m sk) (public_key_of sk) = true).
  { intros m sk. unfold verify_signature, sign. simpl.
    by apply bool_decide_eq_true. }
  assert (Hr0 : node_reachable blank voter_computer).
  { apply node_reachable_mapping, node_reachable_init. }
  assert (Hr : node_reachable blank
                 (state_of (add_transaction blank cast voter_computer))).
  { by apply node_reachable_admit. }
  split; [|split; [|split]].
  - do 3 (split; [reflexivity|]).
    destruct (@admission_gate ideal_crypto minute_runtime Hc blank
                adversary_voting_computer cast) as (_ & T2 & _).
    by apply (T2 {[ 5%Z := 1 ]}).
  - assert (Htrust : is_node_in_network voter_computer
                       (node_public_key (node t)) = inr true) by reflexivity.
    assert (Hv : verify_transaction blank t = inr true) by reflexivity.
    assert (Ht : timestamped t = false) by reflexivity.
    split; [exact Hr0|]. do 3 (split; [done|]).
    destruct (@admission_gate ideal_crypto minute_runtime Hc blank
                voter_computer t) as (_ & _ & T3 & _).
    by apply T3.
  - assert (Htrust : is_node_in_network voter_computer
                       (node_public_key (node cast)) = inr true)
      by reflexivity.
    assert (Hv : verify_transaction blank cast = inr true) by reflexivity.
    assert (Ht : timestamped cast = true) by reflexivity.
    do 3 (split; [done|]).
    destruct (@admission_gate ideal_crypto minute_runtime Hc blank
                voter_computer cast) as (_ & _ & _ & _ & _ & T6 & _).
    by apply T6.
  - destruct (@admission_gate ideal_crypto minute_runtime Hc blank
                voter_computer cast) as (_ & _ & _ & _ & _ & _ & _ & T8).
    exact (proj2 (T8 _ Hr)).
Defined.

(** ** The keys of a ledger *)

Section ledger_keys.
Context `{HC : Crypto} `{HR : Runtime}.

Lemma dom_insert_present (d : dict) k v :
  is_Some (d !! k) -> dom (<[k := v]> d) = dom d.
Proof.
  intros Hk%elem_of_dom. rewrite dom_insert_L.
  apply subseteq_union_1_L. by apply singleton_subseteq_l.
Qed.

Lemma dict_add_dom k delta d d' :
  dict_add k delta d = inr d' -> dom d' = dom d.
Proof.
  intros (n & Hn & ->)%dict_add_inr. apply dom_insert_present. eauto.
Qed.

Lemma update_candidates_dom cs d :
  dom (state_of (update_candidates cs d)) = dom d.
Proof.
  revert d. induction cs as [|c cs IH]; intros d; simpl; [done|].
  destruct (dict_add _ 1 d) as [e|d'] eqn:E; simpl; [done|].
  rewrite IH. by eapply dict_add_dom.
Qed.

Lemma update_ledger_dom mem t d :
  is_Some (d !! key_of_content (content t)) ->
  dom (state_of (update_ledger mem t d)) = dom d.
Proof.
  intros Hk. unfold update_ledger.
  set (d0 := <[key_of_content (content t) := VState (new_state t)]> d).
  assert (Hd0 : dom d0 = dom d).
  { by apply dom_insert_present. }
  destruct (dict_add _ (-1) d0) as [e|d1] eqn:E1; [done|].
  apply dict_add_dom in E1.
  destruct (dict_add _ 1 d1) as [e|d2] eqn:E2; [simpl; congruence|].
  apply dict_add_dom in E2.
  destruct (content_selected_choices mem (content t)) as [e|cands];
    [simpl; congruence|].
  rewrite update_candidates_dom. congruence.
Qed.

Lemma apply_vote_transaction_dom mem t σ :
  dom (ledger (state_of (apply_vote_transaction mem t σ))) = dom (ledger σ).
Proof.
  unfold apply_vote_transaction.
  destruct (ledger σ !! key_of_content (content t)) as [old|] eqn:Hold; [|done].
  destruct (decide _) as [Heq|]; [|done].
  pose proof (update_ledger_dom mem t (ledger σ)) as Hd.
  rewrite Hold in Hd. specialize (Hd ltac:(eauto)).
  by destruct (update_ledger mem t (ledger σ)).
Qed.

Lemma vote_pass_dom mem it txs σ :
  dom (ledger (state_of (vote_pass mem it txs σ))) = dom (ledger σ).
Proof.
  revert σ. induction txs as [|t txs IH]; intros σ; simpl; [done|].
  assert (Hstep : dom (ledger (state_of (vote_step mem it t σ)))
                  = dom (ledger σ)).
  { unfold vote_step. destruct (decide (it = 1)).
    - destruct (reiterate σ !! tx_addr t) as [[]|]; try done.
      apply apply_vote_transaction_dom.
    - apply apply_vote_transaction_dom. }
  destruct (vote_step mem it t σ) as [σ'|e σ']; simpl in *; [|done].
  by rewrite IH.
Qed.

Lemma apply_voter_transaction_dom t d :
  dom (state_of (apply_voter_transaction t d)) = dom d.
Proof.
  unfold apply_voter_transaction.
  destruct (d !! key_of_content (content t)) as [cur|] eqn:Hcur; [|done].
  destruct (decide _) as [Heq|]; [|done].
  set (d0 := <[key_of_content (content t) := VState (new_state t)]> d).
  assert (Hd0 : dom d0 = dom d).
  { apply dom_insert_present. eauto. }
  destruct (dict_add _ (-1) d0) as [e|d1] eqn:E1; [done|].
  apply dict_add_dom in E1.
  destruct (dict_add _ 1 d1) as [e|d2] eqn:E2; simpl; [congruence|].
  apply dict_add_dom in E2. congruence.
Qed.

(** X1. No call of [apply_transactions], of the vote ledger or of the voter
    ledger, adds a key to the dictionary or takes one out, whether the call
    returns or raises: an entity, a state or a candidate that the ledger
    does not know stays unknown. *)
Theorem apply_transactions_keeps_keys :
  (forall mem txs σ,
      dom (ledger (state_of (apply_transactions mem txs σ))) = dom (ledger σ))
  /\ (forall txs d,
         dom (state_of (voter_apply_transactions txs d)) = dom d).
Proof.
  split.
  - intros mem txs σ. unfold apply_transactions.
    pose proof (vote_pass_dom mem 0 txs σ) as H0'.
    destruct (vote_pass mem 0 txs σ) as [σ'|e σ']; simpl in *; [|done].
    by rewrite vote_pass_dom.
  - intros txs. induction txs as [|t txs IH]; intros d; simpl; [done|].
    pose proof (apply_voter_transaction_dom t d) as Hs.
    destruct (apply_voter_transaction t d) as [d'|e d']; simpl in *; [|done].
    by rewrite IH.
Qed.

End ledger_keys.

(** ** Counting the entities in each state *)

Section counting.
Context `{HC : Crypto} `{HR : Runtime}.

Lemma filter_length_ext {A} (P Q : A -> Prop)
    `{!forall x, Decision (P x)} `{!forall x, Decision (Q x)} (l : list A) :
  (forall x, x ∈ l -> (P x <-> Q x)) ->
  length (filter P l) = length (filter Q l).
Proof.
  induction l as [|y l IH]; intros Hext; [done|].
  assert (Hl : length (filter P l) = length (filter Q l)).
  { apply IH. intros x Hx. apply Hext. by right. }
  specialize (Hext y ltac:(left)).
  rewrite !filter_cons.
  destruct (decide (P y)) as [Hp|Hp], (decide (Q y)) as [Hq|Hq]; simpl;
    try lia; tauto.
Qed.

Lemma filter_length_move {A} `{!EqDecision A} (P Q : A -> Prop)
    `{!forall x, Decision (P x)} `{!forall x, Decision (Q x)} (l : list A) x :
  NoDup l -> x ∈ l ->
  (forall y, y ∈ l -> y <> x -> (P y <-> Q y)) ->
  P x -> ~ Q x ->
  length (filter P l) = S (length (filter Q l)).
Proof.
  intros Hnd. induction Hnd as [|y l Hy Hnd IH]; intros Hin Hext Hp Hq.
  - by apply elem_of_nil in Hin.
  - rewrite !filter_cons.
    destruct (decide (y = x)) as [->|Hne].
    + rewrite decide_True by done. rewrite decide_False by done. simpl.
      f_equal. apply filter_length_ext. intros z Hz. apply Hext; [by right|].
      intros ->. done.
    + apply elem_of_cons in Hin as [->|Hin]; [done|].
      assert (Hl : length (filter P l) = S (length (filter Q l))).
      { apply IH; try done. intros z Hz Hzx. apply Hext; [by right|done]. }
      specialize (Hext y ltac:(left) Hne).
      destruct (decide (P y)) as [Hpy|Hpy], (decide (Q y)) as [Hqy|Hqy];
        simpl; try lia; tauto.
Qed.

Lemma keys_in_state_agree ks d d' s :
  (forall k, k ∈ ks -> d' !! k = d !! k) ->
  keys_in_state ks d' s = keys_in_state ks d s.
Proof.
  intros Hag. unfold keys_in_state. apply filter_length_ext.
  intros k Hk. by rewrite Hag.
Qed.

(** Writing a new state under one of the keys moves one unit from the count
    of the old state to the count of the new one. *)
Lemma keys_in_state_insert ks d k0 prev new s :
  NoDup ks -> k0 ∈ ks -> d !! k0 = Some (VState prev) ->
  (Z.of_nat (keys_in_state ks (<[k0 := VState new]> d) s)
   = Z.of_nat (keys_in_state ks d s)
     - (if decide (s = prev) then 1 else 0)
     + (if decide (s = new) then 1 else 0))%Z.
Proof.
  intros Hnd Hin Hk0. unfold keys_in_state.
  set (P := fun k => d !! k = Some (VState s)).
  set (Q := fun k => <[k0 := VState new]> d !! k = Some (VState s)).
  assert (Hext : forall y, y ∈ ks -> y <> k0 -> (P y <-> Q y)).
  { intros y _ Hy. unfold P, Q. by rewrite lookup_insert_ne. }
  assert (Hext' : forall y, y ∈ ks -> y <> k0 -> (Q y <-> P y)).
  { intros y Hy Hne. symmetry. by apply Hext. }
  assert (HP : P k0 <-> s = prev).
  { unfold P. rewrite Hk0. split; congruence. }
  assert (HQ : Q k0 <-> s = new).
  { unfold Q. rewrite lookup_insert_eq. split; congruence. }
  destruct (decide (s = prev)) as [Hsp|Hsp], (decide (s = new)) as [Hsn|Hsn].
  - rewrite (filter_length_ext Q P); [lia|].
    intros y Hy. destruct (decide (y = k0)) as [->|Hne]; [tauto|by apply Hext'].
  - rewrite (filter_length_move P Q ks k0 Hnd Hin Hext); [lia|tauto|tauto].
  - rewrite (filter_length_move Q P ks k0 Hnd Hin Hext'); [lia|tauto|tauto].
  - rewrite (filter_length_ext Q P); [lia|].
    intros y Hy. destruct (decide (y = k0)) as [->|Hne]; [tauto|by apply Hext'].
Qed.

(** The three writes that record a transition, on a dictionary whose totals
    count the keys in each state. *)
Lemma totals_follow_transition ks (sts : list STATE) d k0 prev new :
  NoDup ks -> (forall k s, k ∈ ks -> k <> KState s) ->
  k0 ∈ ks -> d !! k0 = Some (VState prev) ->
  prev ∈ sts -> new ∈ sts ->
  (forall s, s ∈ sts ->
     d !! KState s = Some (VInt (Z.of_nat (keys_in_state ks d s)))) ->
  exists d1 d2,
    dict_add (KState prev) (-1) (<[k0 := VState new]> d) = inr d1
    /\ dict_add (KState new) 1 d1 = inr d2
    /\ (forall s, s ∈ sts ->
          d2 !! KState s = Some (VInt (Z.of_nat (keys_in_state ks d2 s))))
    /\ (forall k, (forall s, k <> KState s) ->
          d2 !! k = <[k0 := VState new]> d !! k)
    /\ (forall s, s <> prev -> s <> new -> d2 !! KState s = d !! KState s).
Proof.
  intros Hnd Hent Hin Hk0 Hp Hn Htot.
  set (d0 := <[k0 := VState new]> d).
  assert (Hk0s : forall s, k0 <> KState s) by (intros s; by apply Hent).
  assert (Hd0 : forall s, d0 !! KState s = d !! KState s).
  { intros s. unfold d0. rewrite lookup_insert_ne; [done|]. apply Hk0s. }
  pose proof (Htot prev Hp) as Hprev.
  set (d1 := <[KState prev :=
                 VInt (Z.of_nat (keys_in_state ks d prev) + -1)]> d0).
  assert (E1 : dict_add (KState prev) (-1) d0 = inr d1).
  { unfold dict_add. by rewrite Hd0, Hprev. }
  assert (exists m, d1 !! KState new = Some (VInt m)
                    /\ (m + 1 = Z.of_nat (keys_in_state ks d0 new))%Z)
    as (m & Hm & Hmv).
  { pose proof (keys_in_state_insert ks d k0 prev new new Hnd Hin Hk0) as Hc.
    fold d0 in Hc. rewrite (decide_True (P := new = new)) in Hc by done.
    destruct (decide (new = prev)) as [->|Hne].
    - eexists. split; [unfold d1; by rewrite lookup_insert_eq|]. lia.
    - eexists. split.
      + unfold d1. rewrite lookup_insert_ne by congruence.
        rewrite Hd0. by apply Htot.
      + lia. }
  set (d2 := <[KState new := VInt (m + 1)]> d1).
  assert (E2 : dict_add (KState new) 1 d1 = inr d2).
  { unfold dict_add. by rewrite Hm. }
  assert (Hother : forall k, (forall s, k <> KState s) -> d2 !! k = d0 !! k).
  { intros k Hk. unfold d2, d1. by rewrite !lookup_insert_ne. }
  assert (Hcount : forall s, keys_in_state ks d2 s = keys_in_state ks d0 s).
  { intros s. apply keys_in_state_agree. intros k Hk. apply Hother.
    intros s'. by apply Hent. }
  exists d1, d2. split; [done|]. split; [done|]. split; [|split; [done|]].
  - intros s Hs. rewrite Hcount.
    destruct (decide (s = new)) as [->|Hsn].
    + unfold d2. rewrite lookup_insert_eq. by rewrite Hmv.
    + unfold d2. rewrite lookup_insert_ne by congruence.
      pose proof (keys_in_state_insert ks d k0 prev new s Hnd Hin Hk0) as Hc.
      fold d0 in Hc. rewrite (decide_False (P := s = new)) in Hc by done.
      destruct (decide (s = prev)) as [->|Hsp].
      * unfold d1. rewrite lookup_insert_eq. do 2 f_equal. lia.
      * unfold d1. rewrite lookup_insert_ne by congruence.
        rewrite Hd0, (Htot s Hs). do 2 f_equal. lia.
  - intros s Hsp Hsn. unfold d2, d1.
    rewrite !lookup_insert_ne by congruence. apply Hd0.
Qed.

End counting.

(** ** The shape of a vote ledger *)

Section vote_shape.
Context `{HC : Crypto} `{HR : Runtime}.

Lemma ballots_in_state_keys bs d s :
  ballots_in_state bs d s = keys_in_state (ballot_keys bs) d s.
Proof.
  unfold ballots_in_state, keys_in_state, ballot_keys.
  induction bs as [|b bs IH]; [done|].
  cbn [map]. rewrite !filter_cons.
  destruct (decide (d !! KBallot (ballot_addr b) = Some (VState s)));
    simpl; by rewrite IH.
Qed.

Lemma ballot_keys_NoDup bs :
  NoDup (map ballot_addr bs) -> NoDup (ballot_keys bs).
Proof.
  unfold ballot_keys. induction bs as [|b bs IH]; intros Hnd; simpl.
  - constructor.
  - simpl in Hnd. apply NoDup_cons in Hnd as [Hb Hnd].
    apply NoDup_cons. split; [|by apply IH].
    intros (b' & [= E] & Hb')%list_elem_of_fmap. apply Hb.
    apply list_elem_of_fmap. eauto.
Qed.

Lemma elem_of_ballot_keys bs a :
  KBallot a ∈ ballot_keys bs <-> a ∈ map ballot_addr bs.
Proof.
  unfold ballot_keys. split.
  - intros (b & [= ->] & Hb)%list_elem_of_fmap. apply list_elem_of_fmap. eauto.
  - intros (b & -> & Hb)%list_elem_of_fmap. apply list_elem_of_fmap. eauto.
Qed.

Lemma ballot_keys_not_state bs k s : k ∈ ballot_keys bs -> k <> KState s.
Proof. intros (b & -> & _)%list_elem_of_fmap. done. Qed.

Lemma update_candidates_typed cs d :
  (forall a v, d !! KChoice a = Some v -> exists n, v = VInt n /\ (0 <= n)%Z) ->
  (forall a v, state_of (update_candidates cs d) !! KChoice a = Some v ->
               exists n, v = VInt n /\ (0 <= n)%Z)
  /\ only_KeyError (update_candidates cs d).
Proof.
  revert d. induction cs as [|c cs IH]; intros d Hty; simpl.
  - split; [done|by left].
  - unfold dict_add.
    destruct (d !! KChoice (choice_addr c)) as [[s|n]|] eqn:Hc; simpl.
    + by destruct (Hty _ _ Hc) as (n & [=] & _).
    + destruct (Hty _ _ Hc) as (n' & [= <-] & Hn).
      apply IH. intros a v.
      destruct (decide (a = choice_addr c)) as [->|Hne].
      * rewrite lookup_insert_eq. intros [= <-]. eexists; split; [done|lia].
      * rewrite lookup_insert_ne by congruence. apply Hty.
    + split; [done|by right].
Qed.

(** A transaction that lines up with the recorded state of a listed ballot
    keeps the shape of the dictionary, and raises nothing but KeyError. *)
Lemma update_ledger_shape bs mem t d b :
  NoDup (map ballot_addr bs) -> vote_ledger_shape bs d ->
  content t = CBallot b ->
  previous_state t ∈ [CREATED; ISSUED; USED] ->
  new_state t ∈ [CREATED; ISSUED; USED] ->
  d !! KBallot (ballot_addr b) = Some (VState (previous_state t)) ->
  vote_ledger_shape bs (state_of (update_ledger mem t d))
  /\ only_KeyError (update_ledger mem t d).
Proof.
  intros Hnd (Hb & Hnb & Hv & Htot & Hns & Hch) Hc Hp Hn Hold.
  assert (Hin : ballot_addr b ∈ map ballot_addr bs).
  { destruct (decide (ballot_addr b ∈ map ballot_addr bs)) as [|Hno]; [done|].
    rewrite (Hnb _ Hno) in Hold. done. }
  destruct (totals_follow_transition (ballot_keys bs) [CREATED; ISSUED; USED]
              d (KBallot (ballot_addr b)) (previous_state t) (new_state t))
    as (d1 & d2 & E1 & E2 & Htot2 & Hother & Hstates); try done.
  { by apply ballot_keys_NoDup. }
  { intros k s Hk. by eapply ballot_keys_not_state. }
  { by apply elem_of_ballot_keys. }
  { intros s Hs. rewrite <- ballots_in_state_keys. by apply Htot. }
  unfold update_ledger. rewrite Hc. cbn [key_of_content].
  rewrite E1, E2. cbn [content_selected_choices].
  set (cands := get_selected_choices mem b).
  destruct (update_candidates_typed cands d2) as [Hty Hexn].
  { intros a v. rewrite Hother by done.
    rewrite lookup_insert_ne by done. apply Hch. }
  split; [|exact Hexn].
  assert (Hsame : forall k, (forall a, k <> KChoice a) ->
            state_of (update_candidates cands d2) !! k = d2 !! k).
  { intros k Hk. by apply update_candidates_lookup_other. }
  split; [|split; [|split; [|split; [|split]]]].
  - intros b' Hb'. rewrite Hsame, Hother by done.
    destruct (decide (ballot_addr b' = ballot_addr b)) as [->|Hne].
    + rewrite lookup_insert_eq. eauto.
    + rewrite lookup_insert_ne by congruence. by apply Hb.
  - intros a Ha. rewrite Hsame, Hother by done.
    rewrite lookup_insert_ne; [by apply Hnb|]. intros [= E]. by rewrite <- E in Ha.
  - intros a. rewrite Hsame, Hother by done.
    by rewrite lookup_insert_ne.
  - intros s Hs. rewrite Hsame by done. rewrite (Htot2 s Hs).
    do 3 f_equal. rewrite ballots_in_state_keys.
    symmetry. apply keys_in_state_agree.
    intros k Hk. apply Hsame. intros a ->.
    by apply list_elem_of_fmap in Hk as (b' & [=] & _).
  - intros s Hs. rewrite Hsame by done.
    rewrite Hstates; [by apply Hns| |]; intros ->; done.
  - exact Hty.
Qed.

Lemma apply_vote_transaction_shape bs mem t σ :
  NoDup (map ballot_addr bs) -> vote_ledger_shape bs (ledger σ) ->
  tx_kind t = VoteTransaction -> constructed t ->
  vote_ledger_shape bs (ledger (state_of (apply_vote_transaction mem t σ)))
  /\ only_KeyError (apply_vote_transaction mem t σ).
Proof.
  intros Hnd Hsh Hk (Hcls & Hp & Hn). rewrite Hk in Hcls, Hp, Hn.
  destruct (content t) as [b|v] eqn:Hc; [|done].
  unfold apply_vote_transaction. rewrite Hc. cbn [key_of_content].
  destruct (ledger σ !! KBallot (ballot_addr b)) as [old|] eqn:Hold;
    [|split; [done|by right]].
  destruct (decide _) as [<-|]; [|split; [done|by left]].
  destruct (update_ledger_shape bs mem t (ledger σ) b Hnd Hsh Hc Hp Hn Hold)
    as [Hsh' Hexn].
  destruct (update_ledger mem t (ledger σ)); by split.
Qed.

(** A step leaves every mark that is set, and sets the mark of its
    transaction when it goes through [apply_vote_transaction]. *)
Lemma apply_vote_transaction_marks mem t σ a :
  is_Some (reiterate σ !! a) ->
  is_Some (reiterate (state_of (apply_vote_transaction mem t σ)) !! a).
Proof.
  intros Ha. unfold apply_vote_transaction.
  destruct (ledger σ !! key_of_content (content t)) as [old|]; [|done].
  destruct (decide _) as [Heq|].
  - destruct (update_ledger mem t (ledger σ)); simpl; [|done].
    destruct (decide (a = tx_addr t)) as [->|Hne].
    + rewrite lookup_insert_eq. eauto.
    + by rewrite lookup_insert_ne.
  - simpl. destruct (decide (a = tx_addr t)) as [->|Hne].
    + rewrite lookup_insert_eq. eauto.
    + by rewrite lookup_insert_ne.
Qed.

Lemma apply_vote_transaction_marked mem t σ σ' :
  apply_vote_transaction mem t σ = Ok σ' ->
  is_Some (reiterate σ' !! tx_addr t).
Proof.
  unfold apply_vote_transaction.
  destruct (ledger σ !! key_of_content (content t)) as [old|]; [|done].
  destruct (decide _) as [Heq|].
  - destruct (update_ledger mem t (ledger σ)); [|done].
    intros [= <-]. simpl. rewrite lookup_insert_eq. eauto.
  - intros [= <-]. simpl. rewrite lookup_insert_eq. eauto.
Qed.

Lemma vote_step_marks mem it t σ a :
  is_Some (reiterate σ !! a) ->
  is_Some (reiterate (state_of (vote_step mem it t σ)) !! a).
Proof.
  intros Ha. unfold vote_step. destruct (decide (it = 1)).
  - destruct (reiterate σ !! tx_addr t) as [[]|]; try done.
    by apply apply_vote_transaction_marks.
  - by apply apply_vote_transaction_marks.
Qed.

Lemma vote_pass_first_marks mem txs σ σ' :
  vote_pass mem 0 txs σ = Ok σ' ->
  (forall a, is_Some (reiterate σ !! a) -> is_Some (reiterate σ' !! a))
  /\ forall t, t ∈ txs -> is_Some (reiterate σ' !! tx_addr t).
Proof.
  revert σ. induction txs as [|t txs IH]; intros σ; simpl.
  - intros [= <-]. split; [done|]. by intros t ?%elem_of_nil.
  - rewrite vote_step_first_pass.
    destruct (apply_vote_transaction mem t σ) as [σ1|e σ1] eqn:E1; [|done].
    intros E. destruct (IH σ1 E) as [Hkeep Hall].
    pose proof (apply_vote_transaction_marked mem t σ σ1 E1) as Ht.
    split.
    + intros a Ha. apply Hkeep.
      pose proof (apply_vote_transaction_marks mem t σ a Ha) as Hm.
      by rewrite E1 in Hm.
    + intros u [->|Hu]%elem_of_cons; [by apply Hkeep|by apply Hall].
Qed.

Lemma vote_pass_shape bs mem it txs σ :
  NoDup (map ballot_addr bs) -> vote_ledger_shape bs (ledger σ) ->
  Forall (fun t => tx_kind t = VoteTransaction /\ constructed t) txs ->
  (it = 1 -> forall t, t ∈ txs -> is_Some (reiterate σ !! tx_addr t)) ->
  vote_ledger_shape bs (ledger (state_of (vote_pass mem it txs σ)))
  /\ only_KeyError (vote_pass mem it txs σ).
Proof.
  intros Hnd Hsh Hall. revert σ Hsh.
  induction Hall as [|t txs [Hk Hc] Hall IH]; intros σ Hsh Hmk; simpl.
  - split; [done|by left].
  - assert (Hstep :
      vote_ledger_shape bs (ledger (state_of (vote_step mem it t σ)))
      /\ only_KeyError (vote_step mem it t σ)).
    { unfold vote_step. destruct (decide (it = 1)) as [E|_].
      - destruct (Hmk E t ltac:(left)) as [m Hm]. rewrite Hm.
        destruct m; [by apply apply_vote_transaction_shape|].
        split; [done|by left].
      - by apply apply_vote_transaction_shape. }
    destruct Hstep as [Hsh1 Hexn1].
    pose proof (vote_step_marks mem it t σ) as Hkeep.
    destruct (vote_step mem it t σ) as [σ1|e σ1]; simpl in *; [|by split].
    apply IH; [done|].
    intros E u Hu. apply Hkeep. apply Hmk; [done|by right].
Qed.

Lemma apply_transactions_shape bs mem txs σ :
  NoDup (map ballot_addr bs) -> vote_ledger_shape bs (ledger σ) ->
  Forall (fun t => tx_kind t = VoteTransaction /\ constructed t) txs ->
  vote_ledger_shape bs (ledger (state_of (apply_transactions mem txs σ)))
  /\ only_KeyError (apply_transactions mem txs σ).
Proof.
  intros Hnd Hsh Hall. unfold apply_transactions.
  destruct (vote_pass_shape bs mem 0 txs σ Hnd Hsh Hall) as [Hsh0 Hexn0];
    [done|].
  destruct (vote_pass mem 0 txs σ) as [σ0|e σ0] eqn:E0; [|by split].
  apply vote_pass_shape; try done.
  intros _ t Ht. by apply (vote_pass_first_marks mem txs σ σ0 E0).
Qed.

Lemma foldl_insert_ballots_lookup (bs : list Ballot) (d : dict) a :
  foldl (fun d b => <[KBallot (ballot_addr b) := VState CREATED]> d) d bs
    !! KBallot a
  = if decide (a ∈ map ballot_addr bs) then Some (VState CREATED)
    else d !! KBallot a.
Proof.
  revert d. induction bs as [|b bs IH]; intros d; cbn [foldl map].
  - case_decide as Hin; [by apply elem_of_nil in Hin|done].
  - rewrite IH. destruct (decide (a ∈ map ballot_addr bs)) as [Hin|Hno].
    + rewrite decide_True; [done|by right].
    + destruct (decide (a = ballot_addr b)) as [->|Hne].
      * rewrite decide_True by left. by rewrite lookup_insert_eq.
      * rewrite decide_False.
        -- rewrite lookup_insert_ne; [done|congruence].
        -- intros [?|?]%elem_of_cons; done.
Qed.

Lemma ballots_in_state_all bs d s0 s :
  (forall b, b ∈ bs -> d !! KBallot (ballot_addr b) = Some (VState s0)) ->
  ballots_in_state bs d s = if decide (s = s0) then length bs else 0.
Proof.
  unfold ballots_in_state. induction bs as [|b bs IH]; intros Hall.
  - by case_decide.
  - rewrite filter_cons. rewrite (Hall b) by left.
    specialize (IH (fun b' Hb' => Hall b' (list_elem_of_further _ _ _ Hb'))).
    destruct (decide (s = s0)) as [->|Hne].
    + rewrite decide_True by done. simpl. by rewrite IH.
    + rewrite decide_False by congruence. done.
Qed.

Lemma register_choices_typed cs (d : dict) :
  (forall a v, d !! KChoice a = Some v -> exists n, v = VInt n /\ (0 <= n)%Z) ->
  forall a v, register_choices cs d !! KChoice a = Some v ->
              exists n, v = VInt n /\ (0 <= n)%Z.
Proof.
  unfold register_choices. revert d.
  induction cs as [|c cs IH]; intros d Hty; simpl; [done|].
  apply IH. intros a v. destruct (decide (a = choice_addr c)) as [->|Hne].
  - rewrite lookup_insert_eq. intros [= <-]. by exists 0%Z.
  - rewrite lookup_insert_ne by congruence. apply Hty.
Qed.

Lemma register_items_typed (its : list BallotItem) (d : dict) :
  (forall a v, d !! KChoice a = Some v -> exists n, v = VInt n /\ (0 <= n)%Z) ->
  forall a v,
    foldl (fun d it => register_choices (choices it) d) d its !! KChoice a
    = Some v ->
    exists n, v = VInt n /\ (0 <= n)%Z.
Proof.
  revert d. induction its as [|it its IH]; intros d Hty; simpl; [done|].
  apply IH. by apply register_choices_typed.
Qed.

Lemma VoteLedger_init_shape ballots L :
  VoteLedger_init ballots = inr L -> vote_ledger_shape ballots (vote_ledger L).
Proof.
  unfold VoteLedger_init. destruct ballots as [|b0 rest] eqn:Hbs; [done|].
  rewrite <- Hbs. intros [= <-]. cbn [vote_ledger].
  set (bs := ballots).
  assert (Hb : forall b, b ∈ bs ->
    foldl (fun d it => register_choices (choices it) d)
      (<[KState USED := VInt 0]> (<[KState ISSUED := VInt 0]>
         (<[KState CREATED := VInt (Z.of_nat (length bs))]>
            (foldl (fun d b => <[KBallot (ballot_addr b) := VState CREATED]> d)
               ∅ bs)))) (items b0)
      !! KBallot (ballot_addr b) = Some (VState CREATED)).
  { intros b Hin. rewrite register_items_lookup_other by done.
    rewrite !lookup_insert_ne by done.
    rewrite foldl_insert_ballots_lookup, decide_True; [done|].
    apply list_elem_of_fmap. eauto. }
  split; [|split; [|split; [|split; [|split]]]].
  - intros b Hin. exists CREATED. split; [by left|by apply Hb].
  - intros a Ha. rewrite register_items_lookup_other by done.
    rewrite !lookup_insert_ne by done.
    by rewrite foldl_insert_ballots_lookup, decide_False.
  - intros a. rewrite register_items_lookup_other by done.
    rewrite !lookup_insert_ne by done.
    by rewrite foldl_insert_ballots_other.
  - intros s Hs. rewrite (ballots_in_state_all bs _ CREATED s Hb).
    rewrite register_items_lookup_other by done.
    apply elem_of_cons in Hs as [->|Hs].
    { rewrite !lookup_insert_ne by done. by rewrite lookup_insert_eq. }
    apply elem_of_cons in Hs as [->|Hs].
    { rewrite lookup_insert_ne by done. by rewrite lookup_insert_eq. }
    apply elem_of_cons in Hs as [->|Hs]; [|by apply elem_of_nil in Hs].
    by rewrite lookup_insert_eq.
  - intros s Hs. rewrite register_items_lookup_other by done.
    rewrite !lookup_insert_ne.
    + by rewrite foldl_insert_ballots_state.
    + intros [= <-]. apply Hs. by left.
    + intros [= <-]. apply Hs. right. by left.
    + intros [= <-]. apply Hs. right. right. by left.
  - apply register_items_typed. intros a v.
    rewrite !lookup_insert_ne by done.
    by rewrite foldl_insert_ballots_other.
Qed.

Lemma vote_reachable_shape ballots p :
  NoDup (map ballot_addr ballots) -> vote_reachable ballots p ->
  vote_ledger_shape ballots (vote_ledger (fst p)).
Proof.
  intros Hnd. induction 1 as [L marks Hinit | mem txs L marks Hr IH Hall].
  - by apply VoteLedger_init_shape.
  - unfold VoteLedger_apply_transactions. cbn [fst] in IH.
    destruct (apply_transactions_shape ballots mem txs
                {| ledger := vote_ledger L; reiterate := marks |} Hnd IH Hall)
      as [Hsh _].
    by destruct (apply_transactions mem txs _).
Qed.

(** X2. On a vote ledger built by the constructor from ballots that are
    distinct objects, whatever batches of VoteTransaction objects have been
    replayed, every listed ballot is recorded as Created, Issued or Used,
    each of the three collective totals is the number of listed ballots
    recorded in that state, every candidate key holds an integer that is not
    negative, and the dictionary has no other entity or state key. *)
Theorem vote_totals_count_ballots ballots L marks :
  NoDup (map ballot_addr ballots) ->
  vote_reachable ballots (L, marks) ->
  vote_ledger_shape ballots (vote_ledger L).
Proof. intros Hnd Hr. exact (vote_reachable_shape ballots (L, marks) Hnd Hr). Qed.

(** X3. Replaying a batch of VoteTransaction objects on such a ledger either
    returns or raises KeyError: no TypeError from adding to a state, no
    AttributeError from a missing mark in the second pass. *)
Theorem vote_replay_raises_only_KeyError ballots L marks mem txs :
  NoDup (map ballot_addr ballots) ->
  vote_reachable ballots (L, marks) ->
  Forall (fun t => tx_kind t = VoteTransaction /\ constructed t) txs ->
  only_KeyError (VoteLedger_apply_transactions mem txs L marks).
Proof.
  intros Hnd Hr Hall.
  pose proof (vote_reachable_shape ballots (L, marks) Hnd Hr) as Hsh.
  cbn [fst] in Hsh. unfold VoteLedger_apply_transactions.
  destruct (apply_transactions_shape ballots mem txs
              {| ledger := vote_ledger L; reiterate := marks |} Hnd Hsh Hall)
    as [_ Hexn].
  unfold only_KeyError in *.
  by destruct (apply_transactions mem txs _).
Qed.

End vote_shape.

(** ** The shape of a voter ledger *)

Section voter_shape.
Context `{HC : Crypto} `{HR : Runtime}.

Lemma voters_in_state_keys vs d s :
  voters_in_state vs d s = keys_in_state (voter_keys vs) d s.
Proof.
  unfold voters_in_state, keys_in_state, voter_keys.
  induction vs as [|v vs IH]; [done|].
  cbn [map]. rewrite !filter_cons.
  destruct (decide (d !! KVoter (voter_addr v) = Some (VState s)));
    simpl; by rewrite IH.
Qed.

Lemma voter_keys_NoDup vs :
  NoDup (map voter_addr vs) -> NoDup (voter_keys vs).
Proof.
  unfold voter_keys. induction vs as [|v vs IH]; intros Hnd; simpl.
  - constructor.
  - simpl in Hnd. apply NoDup_cons in Hnd as [Hv Hnd].
    apply NoDup_cons. split; [|by apply IH].
    intros (v' & [= E] & Hv')%list_elem_of_fmap. apply Hv.
    apply list_elem_of_fmap. eauto.
Qed.

Lemma elem_of_voter_keys vs a :
  KVoter a ∈ voter_keys vs <-> a ∈ map voter_addr vs.
Proof.
  unfold voter_keys. split.
  - intros (v & [= ->] & Hv)%list_elem_of_fmap. apply list_elem_of_fmap. eauto.
  - intros (v & -> & Hv)%list_elem_of_fmap. apply list_elem_of_fmap. eauto.
Qed.

Lemma voter_keys_not_state vs k s : k ∈ voter_keys vs -> k <> KState s.
Proof. intros (v & -> & _)%list_elem_of_fmap. done. Qed.

(** One VoterTransaction on a dictionary of the right shape: KeyError when
    the voter is not on the roll, a return otherwise. *)
Lemma apply_voter_transaction_shape vs t d :
  NoDup (map voter_addr vs) -> voter_ledger_shape vs d ->
  tx_kind t = VoterTransaction -> constructed t ->
  voter_ledger_shape vs (state_of (apply_voter_transaction t d))
  /\ (raised (apply_voter_transaction t d)
      = if decide (key_of_content (content t) ∈ voter_keys vs) then None
        else Some KeyError).
Proof.
  intros Hnd Hsh Hk (Hcls & Hp & Hn). rewrite Hk in Hcls, Hp, Hn.
  destruct (content t) as [b|v] eqn:Hc; [done|].
  pose proof Hsh as (Hv & Hnv & Hb & Hch & Htot & Hns).
  unfold apply_voter_transaction. rewrite Hc. cbn [key_of_content].
  destruct (decide (KVoter (voter_addr v) ∈ voter_keys vs)) as [Hin|Hno].
  - assert (Hin' := Hin). apply elem_of_voter_keys in Hin'.
    apply list_elem_of_fmap in Hin' as (v' & Ev & Hv').
    destruct (Hv v' Hv') as (s & Hs & Hold). rewrite <- Ev in Hold.
    rewrite Hold.
    destruct (decide _) as [[= ->]|]; [|by split].
    destruct (totals_follow_transition (voter_keys vs) [NOT_VOTED; VOTED]
                d (KVoter (voter_addr v)) (previous_state t) (new_state t))
      as (d1 & d2 & E1 & E2 & Htot2 & Hother & Hstates); try done.
    { by apply voter_keys_NoDup. }
    { intros k s Hk'. by eapply voter_keys_not_state. }
    { intros s Hs'. rewrite <- voters_in_state_keys. by apply Htot. }
    rewrite E1, E2. split; [|done]. cbn [state_of].
    split; [|split; [|split; [|split; [|split]]]].
    + intros v0 Hv0. rewrite Hother by done.
      destruct (decide (voter_addr v0 = voter_addr v)) as [->|Hne].
      * rewrite lookup_insert_eq. eauto.
      * rewrite lookup_insert_ne by congruence. by apply Hv.
    + intros a Ha. rewrite Hother by done.
      rewrite lookup_insert_ne; [by apply Hnv|].
      intros [= E]. apply Ha. rewrite <- E. by apply elem_of_voter_keys.
    + intros a. rewrite Hother by done. by rewrite lookup_insert_ne.
    + intros a. rewrite Hother by done. by rewrite lookup_insert_ne.
    + intros s Hs'. rewrite (Htot2 s Hs'). by rewrite voters_in_state_keys.
    + intros s Hs'. rewrite Hstates; [by apply Hns| |]; intros ->; done.
  - rewrite Hnv; [by split|]. intros Ha. by apply Hno, elem_of_voter_keys.
Qed.

Lemma voter_apply_transactions_shape vs txs d :
  NoDup (map voter_addr vs) -> voter_ledger_shape vs d ->
  Forall (fun t => tx_kind t = VoterTransaction /\ constructed t) txs ->
  voter_ledger_shape vs (state_of (voter_apply_transactions txs d))
  /\ (raised (voter_apply_transactions txs d)
      = if decide (Forall (fun t => key_of_content (content t) ∈ voter_keys vs)
                     txs)
        then None else Some KeyError).
Proof.
  intros Hnd Hsh Hall. revert d Hsh.
  induction Hall as [|t txs [Hk Hc] Hall IH]; intros d Hsh;
    cbn [voter_apply_transactions].
  - split; [done|]. by rewrite decide_True.
  - destruct (apply_voter_transaction_shape vs t d Hnd Hsh Hk Hc)
      as [Hsh1 Hexn1].
    destruct (apply_voter_transaction t d) as [d1|e d1];
      cbn [state_of raised] in *.
    + destruct (decide (key_of_content (content t) ∈ voter_keys vs))
        as [Hin|]; [|done].
      destruct (IH d1 Hsh1) as [Hsh2 Hexn2]. split; [done|].
      rewrite Hexn2.
      destruct (decide (Forall _ txs)) as [Hf|Hf].
      * rewrite decide_True; [done|by constructor].
      * rewrite decide_False; [done|]. intros Hf'. apply Hf.
        by apply Forall_cons in Hf' as [_ ?].
    + split; [done|].
      destruct (decide (key_of_content (content t) ∈ voter_keys vs))
        as [|Hno]; [done|].
      rewrite decide_False; [done|]. intros Hf'. apply Hno.
      by apply Forall_cons in Hf' as [? _].
Qed.

Lemma foldl_insert_voters_lookup (vs : list Voter) (d : dict) a :
  foldl (fun d v => <[KVoter (voter_addr v) := VState NOT_VOTED]> d) d vs
    !! KVoter a
  = if decide (a ∈ map voter_addr vs) then Some (VState NOT_VOTED)
    else d !! KVoter a.
Proof.
  revert d. induction vs as [|v vs IH]; intros d; cbn [foldl map].
  - case_decide as Hin; [by apply elem_of_nil in Hin|done].
  - rewrite IH. destruct (decide (a ∈ map voter_addr vs)) as [Hin|Hno].
    + rewrite decide_True; [done|by right].
    + destruct (decide (a = voter_addr v)) as [->|Hne].
      * rewrite decide_True by left. by rewrite lookup_insert_eq.
      * rewrite decide_False.
        -- rewrite lookup_insert_ne; [done|congruence].
        -- intros [?|?]%elem_of_cons; done.
Qed.

Lemma foldl_insert_voters_other (vs : list Voter) (d : dict) k :
  (forall a, k <> KVoter a) ->
  foldl (fun d v => <[KVoter (voter_addr v) := VState NOT_VOTED]> d) d vs !! k
  = d !! k.
Proof.
  intros Hk. revert d. induction vs as [|v vs IH]; intros d; simpl; [done|].
  rewrite IH, lookup_insert_ne; [done|]. intros E. by apply (Hk (voter_addr v)).
Qed.

Lemma voters_in_state_all vs d s0 s :
  (forall v, v ∈ vs -> d !! KVoter (voter_addr v) = Some (VState s0)) ->
  voters_in_state vs d s = if decide (s = s0) then length vs else 0.
Proof.
  unfold voters_in_state. induction vs as [|v vs IH]; intros Hall.
  - by case_decide.
  - rewrite filter_cons. rewrite (Hall v) by left.
    specialize (IH (fun v' Hv' => Hall v' (list_elem_of_further _ _ _ Hv'))).
    destruct (decide (s = s0)) as [->|Hne].
    + rewrite decide_True by done. simpl. by rewrite IH.
    + rewrite decide_False by congruence. done.
Qed.

Lemma VoterLedger_init_shape voters :
  voter_ledger_shape voters (voter_ledger (VoterLedger_init voters)).
Proof.
  unfold VoterLedger_init. cbn [voter_ledger].
  assert (Hv : forall v, v ∈ voters ->
    foldl (fun d v => <[KVoter (voter_addr v) := VState NOT_VOTED]> d)
      (<[KState VOTED := VInt 0]>
         (<[KState NOT_VOTED := VInt (Z.of_nat (length voters))]> (∅ : dict)))
      voters !! KVoter (voter_addr v) = Some (VState NOT_VOTED)).
  { intros v Hin. rewrite foldl_insert_voters_lookup, decide_True; [done|].
    apply list_elem_of_fmap. eauto. }
  split; [|split; [|split; [|split; [|split]]]].
  - intros v Hin. exists NOT_VOTED. split; [by left|by apply Hv].
  - intros a Ha. rewrite foldl_insert_voters_lookup, decide_False by done.
    by rewrite !lookup_insert_ne.
  - intros a. rewrite foldl_insert_voters_other by done.
    by rewrite !lookup_insert_ne.
  - intros a. rewrite foldl_insert_voters_other by done.
    by rewrite !lookup_insert_ne.
  - intros s Hs. rewrite (voters_in_state_all voters _ NOT_VOTED s Hv).
    rewrite foldl_insert_voters_state.
    apply elem_of_cons in Hs as [->|Hs].
    { rewrite lookup_insert_ne by done. by rewrite lookup_insert_eq. }
    apply elem_of_cons in Hs as [->|Hs]; [|by apply elem_of_nil in Hs].
    by rewrite lookup_insert_eq.
  - intros s Hs. rewrite foldl_insert_voters_state.
    rewrite !lookup_insert_ne; [done| |].
    + intros [= <-]. apply Hs. by left.
    + intros [= <-]. apply Hs. right. by left.
Qed.

Lemma voter_reachable_shape voters L :
  NoDup (map voter_addr voters) -> voter_reachable voters L ->
  voter_ledger_shape voters (voter_ledger L).
Proof.
  intros Hnd. induction 1 as [| txs L Hr IH Hall].
  - apply VoterLedger_init_shape.
  - unfold VoterLedger_apply_transactions.
    destruct (voter_apply_transactions_shape voters txs (voter_ledger L)
                Hnd IH Hall) as [Hsh _].
    by destruct (voter_apply_transactions txs _).
Qed.

(** X4. On a voter ledger built by the constructor from voters that are
    distinct objects, whatever batches of VoterTransaction objects have been
    replayed, every listed voter is recorded as NotVoted or Voted, each of
    the two collective totals is the number of listed voters recorded in
    that state, and the dictionary has no other key. *)
Theorem voter_totals_count_voters voters L :
  NoDup (map voter_addr voters) ->
  voter_reachable voters L ->
  voter_ledger_shape voters (voter_ledger L).
Proof. intros Hnd Hr. exact (voter_reachable_shape voters L Hnd Hr). Qed.

(** X5. Replaying a batch of VoterTransaction objects on such a ledger
    returns exactly when the voter of every transaction of the batch is on
    the roll, and raises KeyError otherwise. *)
Theorem voter_replay_returns_iff_registered voters L txs :
  NoDup (map voter_addr voters) ->
  voter_reachable voters L ->
  Forall (fun t => tx_kind t = VoterTransaction /\ constructed t) txs ->
  raised (VoterLedger_apply_transactions txs L)
  = if decide (Forall (fun t => key_of_content (content t) ∈ voter_keys voters)
                 txs)
    then None else Some KeyError.
Proof.
  intros Hnd Hr Hall.
  pose proof (voter_reachable_shape voters L Hnd Hr) as Hsh.
  destruct (voter_apply_transactions_shape voters txs (voter_ledger L)
              Hnd Hsh Hall) as [_ Hexn].
  unfold VoterLedger_apply_transactions.
  by destruct (voter_apply_transactions txs _).
Qed.

End voter_shape.

(** The ledgers of the concrete election after one batch. *)
Lemma vote_totals_count_ballots_witness :
  let p := state_of (VoteLedger_apply_transactions blank
                       [vote_tx blank 100 b1 CREATED ISSUED (Some false)]
                       ledger12 ∅) in
  NoDup (map ballot_addr [b1; b2])
  /\ vote_reachable [b1; b2] p
  /\ vote_ledger_shape [b1; b2] (vote_ledger (fst p)).
Proof.
  assert (Hnd : NoDup (map ballot_addr [b1; b2])).
  { apply (bool_decide_unpack _). by vm_compute. }
  assert (Hv : vote_reachable [b1; b2]
                 (state_of (VoteLedger_apply_transactions blank
                              [vote_tx blank 100 b1 CREATED ISSUED (Some false)]
                              ledger12 ∅))).
  { apply vote_reachable_apply.
    - apply vote_reachable_init. reflexivity.
    - repeat constructor; vm_compute; repeat constructor. }
  split; [exact Hnd|]. split; [exact Hv|].
  destruct (state_of (VoteLedger_apply_transactions _ _ _ _)) as [L marks].
  exact (vote_totals_count_ballots [b1; b2] L marks Hnd Hv).
Defined.

Lemma vote_replay_raises_only_KeyError_witness :
  NoDup (map ballot_addr [b1; b2])
  /\ vote_reachable [b1; b2] (ledger12, ∅)
  /\ only_KeyError
       (VoteLedger_apply_transactions blank
          [vote_tx blank 100 b1 CREATED ISSUED (Some false)] ledger12 ∅).
Proof.
  assert (Hnd : NoDup (map ballot_addr [b1; b2])).
  { apply (bool_decide_unpack _). by vm_compute. }
  assert (Hv : vote_reachable [b1; b2] (ledger12, ∅)).
  { apply vote_reachable_init. reflexivity. }
  split; [exact Hnd|]. split; [exact Hv|].
  apply (vote_replay_raises_only_KeyError [b1; b2] ledger12 ∅ blank _ Hnd Hv).
  repeat constructor; vm_compute; repeat constructor.
Defined.

Lemma voter_totals_count_voters_witness :
  let L := state_of (VoterLedger_apply_transactions
                       [voter_tx 200 voter1 NOT_VOTED VOTED]
                       (VoterLedger_init [voter1; voter2])) in
  NoDup (map voter_addr [voter1; voter2])
  /\ voter_reachable [voter1; voter2] L
  /\ voter_ledger_shape [voter1; voter2] (voter_ledger L).
Proof.
  assert (Hnd : NoDup (map voter_addr [voter1; voter2])).
  { apply (bool_decide_unpack _). by vm_compute. }
  assert (Hw : voter_reachable [voter1; voter2]
                 (state_of (VoterLedger_apply_transactions
                              [voter_tx 200 voter1 NOT_VOTED VOTED]
                              (VoterLedger_init [voter1; voter2])))).
  { apply voter_reachable_apply.
    - apply voter_reachable_init.
    - repeat constructor; vm_compute; repeat constructor. }
  split; [exact Hnd|]. split; [exact Hw|].
  exact (voter_totals_count_voters [voter1; voter2] _ Hnd Hw).
Defined.

Lemma voter_replay_returns_iff_registered_witness :
  NoDup (map voter_addr [voter1])
  /\ voter_reachable [voter1] (VoterLedger_init [voter1])
  /\ raised (VoterLedger_apply_transactions
               [voter_tx 200 voter1 NOT_VOTED VOTED;
                voter_tx 201 voter2 NOT_VOTED VOTED]
               (VoterLedger_init [voter1]))
     = Some KeyError.
Proof.
  assert (Hnd : NoDup (map voter_addr [voter1])).
  { apply (bool_decide_unpack _). by vm_compute. }
  split; [exact Hnd|]. split; [apply voter_reachable_init|].
  rewrite (voter_replay_returns_iff_registered [voter1] _ _ Hnd
             (voter_reachable_init [voter1])).
  - reflexivity.
  - repeat constructor; vm_compute; repeat constructor.
Defined.

(** ** Filling a ballot in *)

Lemma selected_count_cons mem c cs :
  selected_count mem (c :: cs)
  = ((if mem (choice_addr c) then 1 else 0) + selected_count mem cs)%Z.
Proof.
  unfold selected_count. rewrite filter_cons.
  case_decide as Hc.
  - rewrite Hc. simpl length. lia.
  - destruct (mem (choice_addr c)); [done|]. lia.
Qed.

Lemma selected_count_nonneg mem cs : (0 <= selected_count mem cs)%Z.
Proof. unfold selected_count. lia. Qed.

Lemma max_choices_selected_from_passed mem max selected cs :
  (max < selected)%Z -> max_choices_selected_from mem max selected cs = false.
Proof.
  revert selected. induction cs as [|c cs IH]; intros selected Hlt; simpl;
    [done|].
  destruct (mem (choice_addr c)).
  - destruct (Z.eqb_spec (selected + 1) max); [lia|]. apply IH. lia.
  - destruct (Z.eqb_spec selected max); [lia|]. by apply IH.
Qed.

Lemma max_choices_selected_from_below mem max selected cs :
  (selected < max)%Z ->
  max_choices_selected_from mem max selected cs = true
  <-> (max <= selected + selected_count mem cs)%Z.
Proof.
  revert selected. induction cs as [|c cs IH]; intros selected Hlt.
  - simpl. unfold selected_count. simpl. split; [done|lia].
  - cbn [max_choices_selected_from]. rewrite selected_count_cons.
    pose proof (selected_count_nonneg mem cs).
    destruct (mem (choice_addr c)).
    + destruct (Z.eqb_spec (selected + 1) max) as [E|E].
      * split; [lia|done].
      * rewrite IH by lia. lia.
    + destruct (Z.eqb_spec selected max) as [E|E]; [lia|].
      rewrite IH by lia. lia.
Qed.

(** X6. [max_choices_selected] is true exactly when the maximum is at least
    one and at least that many choices of the item are selected; with a
    maximum of zero it is true exactly when the item has a first choice and
    that choice is not selected, and with a negative maximum it is false. *)
Theorem max_choices_selected_spec mem it :
  max_choices_selected mem it = true
  <-> ((1 <= max_choices it)%Z
       /\ (max_choices it <= selected_count mem (choices it))%Z)
      \/ (max_choices it = 0%Z
          /\ exists c rest, choices it = c :: rest
                            /\ mem (choice_addr c) = false).
Proof.
  unfold max_choices_selected.
  destruct (Z.lt_trichotomy 0 (max_choices it)) as [Hpos|[Hzero|Hneg]].
  - rewrite max_choices_selected_from_below by done. split.
    + intros Hle. left. lia.
    + intros [[_ Hle]|[E _]]; lia.
  - rewrite <- Hzero. split.
    + intros Hrun. right. split; [done|].
      destruct (choices it) as [|c rest]; [done|].
      exists c, rest. split; [done|].
      cbn [max_choices_selected_from] in Hrun.
      destruct (mem (choice_addr c)); [|done].
      simpl in Hrun. by rewrite max_choices_selected_from_passed in Hrun.
    + intros [[Hone _]|[_ (c & rest & -> & Hc)]]; [lia|].
      cbn [max_choices_selected_from]. by rewrite Hc.
  - rewrite max_choices_selected_from_passed by done. split; [done|].
    intros [[Hone _]|[E _]]; lia.
Qed.

Lemma item_filled_spec mem cs :
  item_filled mem cs = true
  <-> exists c, c ∈ cs /\ mem (choice_addr c) = true.
Proof.
  induction cs as [|c cs IH]; simpl.
  - split; [done|]. by intros (c & Hc%elem_of_nil & _).
  - destruct (mem (choice_addr c)) eqn:Hc.
    + split; [|done]. intros _. exists c. split; [by left|done].
    + rewrite IH. split.
      * intros (c' & Hin & Hc'). exists c'. split; [by right|done].
      * intros (c' & [->|Hin]%elem_of_cons & Hc'); [congruence|eauto].
Qed.

Lemma is_filled_items_spec mem its :
  (is_filled_items mem its = true <-> Forall (has_selection mem) its)
  /\ (is_filled_items mem its = true ->
      length its
      <= length (flat_map (fun it => filter (fun c => mem (choice_addr c) = true)
                                           (choices it)) its)).
Proof.
  induction its as [|it its [IH1 IH2]]; simpl.
  - split; [|lia]. split; [by constructor|done].
  - destruct (item_filled mem (choices it)) eqn:Hit; simpl.
    + apply item_filled_spec in Hit. split.
      * rewrite IH1. split.
        -- intros Hall. by constructor.
        -- by intros [_ ?]%Forall_cons.
      * intros Hf. specialize (IH2 Hf). rewrite length_app.
        destruct Hit as (c & Hin & Hc).
        assert (Hne : c ∈ filter (fun c => mem (choice_addr c) = true)
                        (choices it)).
        { by apply list_elem_of_filter. }
        destruct (filter _ (choices it)) as [|? ?];
          [by apply elem_of_nil in Hne|]. simpl. lia.
    + split; [|done]. split; [done|].
      intros [Hsel _]%Forall_cons. apply item_filled_spec in Hsel. congruence.
Qed.

Lemma BallotItem_vote_fold description cs mem a :
  foldl (fun m i => if decide (description = choice_description i)
                    then Choice_select i m else m) mem cs a = true
  <-> mem a = true
      \/ exists c, c ∈ cs /\ choice_addr c = a
                   /\ choice_description c = description.
Proof.
  revert mem. induction cs as [|c cs IH]; intros mem; simpl.
  - split; [by left|]. intros [?|(c & Hc%elem_of_nil & _)]; done.
  - rewrite IH. split.
    + intros [Hm|(c' & Hin & Ha & Hd)].
      * destruct (decide (description = choice_description c)) as [Hd|];
          [|by left].
        unfold Choice_select in Hm.
        destruct (decide (a = choice_addr c)) as [->|]; [|by left].
        right. exists c. split; [by left|done].
      * right. exists c'. split; [by right|done].
    + intros [Hm|(c' & [->|Hin]%elem_of_cons & Ha & Hd)].
      * left. destruct (decide _); [|done]. unfold Choice_select.
        by destruct (decide _).
      * left. rewrite decide_True by done. unfold Choice_select.
        by rewrite decide_True.
      * right. eauto.
Qed.

(** X7. [Ballot.is_filled] is true exactly when every item of the ballot
    has a selected choice, and a filled ballot has at least as many selected
    choices as it has items. *)
Theorem is_filled_spec mem b :
  (is_filled mem b = true <-> Forall (has_selection mem) (items b))
  /\ (is_filled mem b = true ->
      length (items b) <= length (get_selected_choices mem b)).
Proof. apply is_filled_items_spec. Qed.

(** X8. [BallotItem.vote] selects every choice of the item that carries the
    description, however many there are and whatever the maximum of the item
    is, and leaves every other choice as it was. *)
Theorem BallotItem_vote_selects_by_description description it mem a :
  BallotItem_vote description it mem a = true
  <-> mem a = true
      \/ exists c, c ∈ choices it /\ choice_addr c = a
                   /\ choice_description c = description.
Proof. apply BallotItem_vote_fold. Qed.

Lemma BallotItem_clear_fold cs mem a :
  foldl (fun m choice => Choice_unselect choice m) mem cs a
  = mem a && bool_decide (a ∉ map choice_addr cs).
Proof.
  revert mem. induction cs as [|c cs IH]; intros mem; cbn [foldl map].
  - rewrite bool_decide_true; [by rewrite andb_true_r|]. by intros ?%elem_of_nil.
  - rewrite IH. unfold Choice_unselect.
    destruct (decide (a = choice_addr c)) as [->|Hne].
    + cbn [andb]. rewrite (bool_decide_false (_ ∉ _ :: _)); [by rewrite andb_false_r|].
      intros Hn. apply Hn. by left.
    + f_equal. apply bool_decide_ext. rewrite not_elem_of_cons. tauto.
Qed.

(** X9. [BallotItem.clear] leaves no choice of the item selected and touches
    no other choice, so that a ballot is not filled after one of its items
    has been cleared. *)
Theorem BallotItem_clear_unfills mem it b :
  (forall a, BallotItem_clear it mem a
             = mem a && bool_decide (a ∉ map choice_addr (choices it)))
  /\ (it ∈ items b -> is_filled (BallotItem_clear it mem) b = false).
Proof.
  split; [intros a; apply BallotItem_clear_fold|].
  intros Hin. destruct (is_filled _ b) eqn:Hf; [|done].
  apply (proj1 (is_filled_items_spec _ (items b))) in Hf.
  rewrite Forall_forall in Hf. destruct (Hf it Hin) as (c & Hc & Hsel).
  unfold BallotItem_clear in Hsel. rewrite BallotItem_clear_fold in Hsel.
  apply andb_true_iff in Hsel as [_ Hn%bool_decide_eq_true].
  exfalso. apply Hn. apply list_elem_of_fmap. eauto.
Qed.

(** ** Transactions and their signatures *)

Section signed_transactions.
Context `{HC : Crypto} `{HR : Runtime}.

(** A signature verifies for the message it was made for only. *)
Hypothesis sign_sound :
  forall m m' sk pk, verify_signature m' (sign m sk) pk = true -> m' = m.

(** A signature verifies for its message under the key of its signer. *)
Hypothesis sign_correct :
  forall m sk, verify_signature m (sign m sk) (public_key_of sk) = true.

Lemma Transaction_init_inr mem cls addr c n prev new ts kw now :
  content_class_ok cls c = true ->
  prev ∈ allowed_states cls -> new ∈ allowed_states cls ->
  exists msg,
    signature_payload mem c prev new ts (if ts then Some now else None) kw
    = inr msg
    /\ Transaction_init mem cls addr c n prev new ts kw now
       = inr {| tx_addr := addr; tx_kind := cls; content := c;
                signature_kwargs := kw;
                previous_state := prev; new_state := new; node := n;
                timestamped := ts;
                time := if ts then Some now else None;
                tx_signature := sign_message n msg |}.
Proof.
  intros Hc Hp Hn. unfold Transaction_init. rewrite Hc. cbn [negb].
  rewrite !bool_decide_eq_true_2 by done. cbn [andb].
  unfold signature_payload. destruct ts; eauto.
Qed.

Lemma Transaction_init_inv mem cls addr c n prev new ts kw now tx :
  Transaction_init mem cls addr c n prev new ts kw now = inr tx ->
  content_class_ok cls c = true
  /\ prev ∈ allowed_states cls /\ new ∈ allowed_states cls.
Proof.
  unfold Transaction_init. destruct (content_class_ok cls c); [|done].
  cbn [negb]. destruct (bool_decide (prev ∈ _)) eqn:Hp; [|done].
  destruct (bool_decide (new ∈ _)) eqn:Hn; [|done].
  intros _. apply bool_decide_eq_true in Hp, Hn. done.
Qed.

(** X10. The constructor of a transaction raises on a content of the wrong
    class, and next on a state that the class does not allow; otherwise it
    returns a transaction with the attributes given, which passes
    [verify_transaction] at once when the keys of the node belong
    together. *)
Theorem Transaction_init_checks mem cls addr c n prev new ts kw now :
  (content_class_ok cls c = false ->
   Transaction_init mem cls addr c n prev new ts kw now
   = inl (Exception "Unexpected transaction content!"))
  /\ (content_class_ok cls c = true ->
      ~ (prev ∈ allowed_states cls /\ new ∈ allowed_states cls) ->
      Transaction_init mem cls addr c n prev new ts kw now
      = inl (Exception "Invalid state for transaction..add to tamper log?"))
  /\ (content_class_ok cls c = true ->
      prev ∈ allowed_states cls -> new ∈ allowed_states cls ->
      exists tx,
        Transaction_init mem cls addr c n prev new ts kw now = inr tx
        /\ constructed tx
        /\ tx_addr tx = addr /\ tx_kind tx = cls /\ content tx = c
        /\ previous_state tx = prev /\ new_state tx = new /\ node tx = n
        /\ timestamped tx = ts /\ signature_kwargs tx = kw
        /\ (matched_keys n -> verify_transaction mem tx = inr true)).
Proof.
  split; [|split].
  - intros Hc. unfold Transaction_init. by rewrite Hc.
  - intros Hc Hno. unfold Transaction_init. rewrite Hc. cbn [negb].
    destruct (bool_decide (prev ∈ _)) eqn:Hp; [|done].
    destruct (bool_decide (new ∈ _)) eqn:Hn; [|done].
    apply bool_decide_eq_true in Hp, Hn. by destruct Hno.
  - intros Hc Hp Hn.
    destruct (Transaction_init_inr mem cls addr c n prev new ts kw now
                Hc Hp Hn) as (msg & Hmsg & ->).
    eexists. split; [done|]. split; [by repeat split|].
    do 8 (split; [done|]).
    intros Hkeys. unfold verify_transaction, get_signature_contents.
    cbn [content signature_kwargs previous_state new_state node timestamped
         time tx_signature].
    rewrite Hmsg. unfold sign_message. red in Hkeys.
    by rewrite Hkeys, sign_correct.
Qed.

Lemma signature_payload_length mem c prev new ts tm kw msg :
  signature_payload mem c prev new ts tm kw = inr msg ->
  String.length msg
  = String.length (content_get_signature_contents mem c kw)
    + S (String.length (STATE_str prev)) + S (String.length (STATE_str new))
    + (if ts then match tm with
                  | Some d => S (String.length (get_formatted_time_str d))
                  | None => 0
                  end
       else 0).
Proof.
  unfold signature_payload. intros E.
  destruct ts; [destruct tm as [d|]; [|done]|].
  - assert (E2 : msg = join ":" ([content_get_signature_contents mem c kw;
                                  STATE_str prev; STATE_str new]
                                 ++ [get_formatted_time_str d]))
      by congruence.
    pose proof (join_length ([content_get_signature_contents mem c kw;
                              STATE_str prev; STATE_str new]
                             ++ [get_formatted_time_str d]) ltac:(done)) as Hl.
    rewrite <- E2 in Hl. cbn [app weight] in Hl. lia.
  - assert (E2 : msg = join ":" [content_get_signature_contents mem c kw;
                                 STATE_str prev; STATE_str new])
      by congruence.
    pose proof (join_length [content_get_signature_contents mem c kw;
                             STATE_str prev; STATE_str new] ltac:(done)) as Hl.
    rewrite <- E2 in Hl. cbn [weight] in Hl. lia.
Qed.

Lemma Choice_contents_ignore_selection mem mem' c :
  Choice_get_signature_contents mem c (Some false)
  = Choice_get_signature_contents mem' c (Some false).
Proof. done. Qed.

Lemma Ballot_contents_ignore_selection mem mem' b :
  Ballot_get_signature_contents mem b (Some false)
  = Ballot_get_signature_contents mem' b (Some false).
Proof. reflexivity. Qed.

(** Selecting a choice that was not selected shortens the contents signed
    with the selection in them. *)
Lemma Choice_contents_select mem c x :
  String.length (Choice_get_signature_contents (Choice_select c mem) x None)
  <= String.length (Choice_get_signature_contents mem x None)
  /\ (choice_addr x = choice_addr c -> mem (choice_addr c) = false ->
      String.length (Choice_get_signature_contents (Choice_select c mem) x None)
      < String.length (Choice_get_signature_contents mem x None)).
Proof.
  unfold Choice_get_signature_contents. cbn [include_chosen_of app].
  change (join ":" [choice_description x;
                    str_bool (Choice_select c mem (choice_addr x))])
    with (choice_description x +:+ ":"
          +:+ str_bool (Choice_select c mem (choice_addr x))).
  change (join ":" [choice_description x; str_bool (mem (choice_addr x))])
    with (choice_description x +:+ ":" +:+ str_bool (mem (choice_addr x))).
  rewrite !length_append_string. unfold Choice_select.
  destruct (decide (choice_addr x = choice_addr c)) as [E|E].
  - rewrite E. split.
    + destruct (mem (choice_addr c)); simpl; lia.
    + intros _ ->. simpl. lia.
  - split; [lia|done].
Qed.

Lemma BallotItem_contents_select mem c it :
  String.length (BallotItem_get_signature_contents (Choice_select c mem) it None)
  <= String.length (BallotItem_get_signature_contents mem it None)
  /\ (c ∈ choices it -> mem (choice_addr c) = false ->
      String.length
        (BallotItem_get_signature_contents (Choice_select c mem) it None)
      < String.length (BallotItem_get_signature_contents mem it None)).
Proof.
  unfold BallotItem_get_signature_contents.
  pose proof (join_length
    ([title it; item_description it; pretty (max_choices it)]
     ++ map (fun x => Choice_get_signature_contents (Choice_select c mem) x None)
            (choices it)) ltac:(done)) as Hf.
  pose proof (join_length
    ([title it; item_description it; pretty (max_choices it)]
     ++ map (fun x => Choice_get_signature_contents mem x None)
            (choices it)) ltac:(done)) as Ht.
  rewrite weight_app in Hf, Ht.
  split.
  - pose proof (weight_map_le _ _ (choices it)
                  (fun x => proj1 (Choice_contents_select mem c x))). lia.
  - intros Hin Hc.
    pose proof (weight_map_lt _ _ (choices it) c
                  (fun x => proj1 (Choice_contents_select mem c x)) Hin
                  (proj2 (Choice_contents_select mem c c) eq_refl Hc)). lia.
Qed.

Lemma Ballot_contents_select mem c b :
  c ∈ ballot_choices b -> mem (choice_addr c) = false ->
  String.length (Ballot_get_signature_contents (Choice_select c mem) b None)
  < String.length (Ballot_get_signature_contents mem b None).
Proof.
  intros Hin Hc. unfold Ballot_get_signature_contents.
  pose proof (join_length
    ([ballot_id b; election b]
     ++ map (fun it =>
               BallotItem_get_signature_contents (Choice_select c mem) it None)
            (items b)) ltac:(done)) as Hf.
  pose proof (join_length
    ([ballot_id b; election b]
     ++ map (fun it => BallotItem_get_signature_contents mem it None)
            (items b)) ltac:(done)) as Ht.
  rewrite weight_app in Hf, Ht.
  unfold ballot_choices in Hin.
  apply list_elem_of_In, in_flat_map in Hin as (it & Hit & Hcit).
  apply list_elem_of_In in Hit, Hcit.
  pose proof (weight_map_lt
    (fun it => BallotItem_get_signature_contents (Choice_select c mem) it None)
    (fun it => BallotItem_get_signature_contents mem it None)
    (items b) it
    (fun x => proj1 (BallotItem_contents_select mem c x)) Hit
    (proj2 (BallotItem_contents_select mem c it) Hcit Hc)). lia.
Qed.

(** X11. A transaction on a ballot signed with [include_chosen=False]
    verifies (or not) whatever is selected on the ballot afterwards; one
    signed without keyword arguments no longer verifies once a choice of the
    ballot that was not selected is selected. *)
Theorem selection_after_signature mem addr b n prev new ts now c :
  (forall tx mem',
      Transaction_init mem VoteTransaction addr (CBallot b) n prev new ts
                       (Some false) now = inr tx ->
      verify_transaction mem' tx = verify_transaction mem tx)
  /\ (forall tx,
         Transaction_init mem VoteTransaction addr (CBallot b) n prev new ts
                          None now = inr tx ->
         c ∈ ballot_choices b -> mem (choice_addr c) = false ->
         verify_transaction (Choice_select c mem) tx = inr false).
Proof.
  split.
  - intros tx mem' Hinit.
    destruct (Transaction_init_inv _ _ _ _ _ _ _ _ _ _ _ Hinit)
      as (Hc & Hp & Hn).
    destruct (Transaction_init_inr mem VoteTransaction addr (CBallot b) n
                prev new ts (Some false) now Hc Hp Hn) as (msg & Hmsg & E).
    rewrite E in Hinit. injection Hinit as <-.
    unfold verify_transaction, get_signature_contents, signature_payload.
    cbn [content signature_kwargs previous_state new_state node timestamped
         time tx_signature content_get_signature_contents].
    by rewrite (Ballot_contents_ignore_selection mem' mem b).
  - intros tx Hinit Hin Hsel.
    destruct (Transaction_init_inv _ _ _ _ _ _ _ _ _ _ _ Hinit)
      as (Hc & Hp & Hn).
    destruct (Transaction_init_inr mem VoteTransaction addr (CBallot b) n
                prev new ts None now Hc Hp Hn) as (msg & Hmsg & E).
    rewrite E in Hinit. injection Hinit as <-.
    unfold verify_transaction, get_signature_contents.
    cbn [content signature_kwargs previous_state new_state node timestamped
         time tx_signature].
    destruct (signature_payload (Choice_select c mem) (CBallot b) prev new ts
                (if ts then Some now else None) None) as [e|msg'] eqn:E';
      [by destruct ts|].
    f_equal. unfold sign_message.
    destruct (verify_signature msg' _ _) eqn:Hv; [|done].
    apply sign_sound in Hv. subst msg'.
    pose proof (Ballot_contents_select mem c b Hin Hsel) as Hlt.
    apply signature_payload_length in Hmsg, E'.
    cbn [content_get_signature_contents] in Hmsg, E'. lia.
Qed.

Lemma STATE_str_length_inj s1 s2 :
  String.length (STATE_str s1) = String.length (STATE_str s2) -> s1 = s2.
Proof. destruct s1, s2; simpl; intros E; try done; discriminate. Qed.

(** X12. Assigning another new state, or another previous state, to a
    transaction after it was signed makes [verify_transaction] return
    False. *)
Theorem altered_state_fails_verification mem cls addr c n prev new ts kw now tx s :
  Transaction_init mem cls addr c n prev new ts kw now = inr tx ->
  (s <> new -> verify_transaction mem (set_new_state s tx) = inr false)
  /\ (s <> prev -> verify_transaction mem (set_previous_state s tx) = inr false).
Proof.
  intros Hinit.
  destruct (Transaction_init_inv _ _ _ _ _ _ _ _ _ _ _ Hinit) as (Hc & Hp & Hn).
  destruct (Transaction_init_inr mem cls addr c n prev new ts kw now
              Hc Hp Hn) as (msg & Hmsg & E).
  rewrite E in Hinit. injection Hinit as <-.
  split; intros Hne;
    unfold verify_transaction, get_signature_contents, set_new_state,
      set_previous_state;
    cbn [content signature_kwargs previous_state new_state node timestamped
         time tx_signature].
  - destruct (signature_payload mem c prev s ts
                (if ts then Some now else None) kw) as [e|msg'] eqn:E';
      [by destruct ts|].
    f_equal. unfold sign_message.
    destruct (verify_signature msg' _ _) eqn:Hv; [|done].
    apply sign_sound in Hv. subst msg'. exfalso. apply Hne.
    apply STATE_str_length_inj.
    apply signature_payload_length in Hmsg, E'. lia.
  - destruct (signature_payload mem c s new ts
                (if ts then Some now else None) kw) as [e|msg'] eqn:E';
      [by destruct ts|].
    f_equal. unfold sign_message.
    destruct (verify_signature msg' _ _) eqn:Hv; [|done].
    apply sign_sound in Hv. subst msg'. exfalso. apply Hne.
    apply STATE_str_length_inj.
    apply signature_payload_length in Hmsg, E'. lia.
Qed.

End signed_transactions.

(** ** The nodes at work *)

Section node_work.
Context `{HC : Crypto} `{HR : Runtime}.

Hypothesis sign_correct :
  forall m sk, verify_signature m (sign m sk) (public_key_of sk) = true.

(** X13. After [set_node_mapping] a node does not find its own key in its
    mapping. For a transaction issued under the public key of the node,
    [add_transaction] on the node itself therefore files it as rejected on a
    node that is not a voting computer, and on a voting computer whose
    ballot generator has another key; raises AttributeError, filing it
    nowhere, on a voting computer whose ballot generator is not set; and on
    a voting computer whose ballot generator has that very key trusts the
    issuer, so that the signature check decides. *)
Theorem node_rejects_own_transactions mem m self t :
  node_public_key (node t) = node_public_key (node_keys self) ->
  (is_voting_computer (node_kind self) = false ->
   add_transaction mem t (set_node_mapping m self)
   = Ok (with_rejected (set_add t (rejected_transactions self))
           (set_node_mapping m self)))
  /\ (is_voting_computer (node_kind self) = true ->
      ballot_generator self = None ->
      add_transaction mem t (set_node_mapping m self)
      = Raise AttributeError (set_node_mapping m self))
  /\ (is_voting_computer (node_kind self) = true ->
      forall g, ballot_generator self = Some g ->
        node_public_key g <> node_public_key (node_keys self) ->
        add_transaction mem t (set_node_mapping m self)
        = Ok (with_rejected (set_add t (rejected_transactions self))
                (set_node_mapping m self)))
  /\ (is_voting_computer (node_kind self) = true ->
      forall g, ballot_generator self = Some g ->
        node_public_key g = node_public_key (node_keys self) ->
        admission_valid mem (set_node_mapping m self) t
        = verify_transaction mem t).
Proof.
  intros Hown.
  assert (Hmiss : bool_decide
            (is_Some (delete (hash (node_public_key (node_keys self))) m
                        !! hash (node_public_key (node_keys self)))) = false).
  { rewrite lookup_delete_eq. apply bool_decide_eq_false_2. by intros [? ?]. }
  split; [|split; [|split]].
  - intros Hk. unfold add_transaction, admission_valid, is_node_in_network.
    cbn [set_node_mapping node_mapping node_kind ballot_generator
         rejected_transactions].
    by rewrite Hown, Hk, Hmiss.
  - intros Hk Hg. unfold add_transaction, admission_valid, is_node_in_network.
    cbn [set_node_mapping node_mapping node_kind ballot_generator
         rejected_transactions].
    by rewrite Hown, Hk, Hmiss, Hg.
  - intros Hk g Hg Hne.
    unfold add_transaction, admission_valid, is_node_in_network.
    cbn [set_node_mapping node_mapping node_kind ballot_generator
         rejected_transactions].
    rewrite Hown, Hk, Hmiss, Hg. by rewrite bool_decide_eq_false_2.
  - intros Hk g Hg Heq. unfold admission_valid, is_node_in_network.
    cbn [set_node_mapping node_mapping node_kind ballot_generator].
    rewrite Hown, Hk, Hmiss, Hg. by rewrite bool_decide_eq_true_2.
Qed.

Lemma ballot_issued_in_spec p b acc :
  ballot_issued_in p b acc = true <-> acc = true \/ issuance_pending p b.
Proof.
  unfold issuance_pending. revert acc.
  induction p as [|t p IH]; intros acc; cbn [ballot_issued_in].
  - split; [by left|]. intros [?|(t & Ht%elem_of_nil & _)]; done.
  - rewrite IH. split.
    + intros [Hacc|(u & Hu & Hid & Hst)].
      * destruct (bool_decide (content_id (content t) = ballot_id b)) eqn:E1;
          [|by left].
        destruct (bool_decide (new_state t = ISSUED)) eqn:E2; [|by left].
        apply bool_decide_eq_true in E1, E2.
        right. exists t. split; [by left|done].
      * right. exists u. split; [by right|done].
    + intros [->|(u & [->|Hu]%elem_of_cons & Hid & Hst)].
      * left. by destruct (_ && _).
      * left. by rewrite !bool_decide_eq_true_2.
      * right. eauto.
Qed.

Lemma elem_of_set_add_old u t s : u ∈ s -> u ∈ set_add t s.
Proof.
  intros Hu. unfold set_add. destruct (bool_decide _); [done|].
  apply elem_of_app. by left.
Qed.

Lemma elem_of_set_add_new t s : tx_addr t ∉ map tx_addr s -> t ∈ set_add t s.
Proof.
  intros Hf. unfold set_add. rewrite bool_decide_eq_false_2 by done.
  apply elem_of_app. right. by left.
Qed.



Lemma VotingComputer_create_transaction_step mem addr now ballot self p :
  pending_transactions self = Some p ->
  (issuance_pending p ballot ->
   exists tx,
     Transaction_init mem VoteTransaction addr (CBallot ballot)
       (node_keys self) ISSUED USED false None now = inr tx
     /\ VotingComputer_create_transaction mem addr now ballot self
        = Return true (with_pending (set_add tx p) self)
     /\ forall mem' addr' now',
          returned (VotingComputer_create_transaction mem' addr' now' ballot
                      (with_pending (set_add tx p) self))
          = Some true)
  /\ (~ issuance_pending p ballot ->
      VotingComputer_create_transaction mem addr now ballot self
      = Return false self).
Proof.
  intros Hp. split.
  - intros Hiss.
    assert (Hinit : forall mem0 addr0 now0, exists tx0,
      Transaction_init mem0 VoteTransaction addr0 (CBallot ballot)
        (node_keys self) ISSUED USED false None now0 = inr tx0).
    { intros mem0 addr0 now0.
      destruct (Transaction_init_inr mem0 VoteTransaction addr0
                  (CBallot ballot) (node_keys self) ISSUED USED false None
                  now0) as (msg & _ & E); [done| | |by eauto].
      - right. by left.
      - right. right. by left. }
    destruct (Hinit mem addr now) as (tx & Htx). exists tx.
    split; [done|]. split.
    + unfold VotingComputer_create_transaction. rewrite Hp.
      rewrite (proj2 (ballot_issued_in_spec p ballot false)) by (by right).
      by rewrite Htx.
    + intros mem' addr' now'. unfold VotingComputer_create_transaction.
      cbn [with_pending pending_transactions node_keys].
      rewrite (proj2 (ballot_issued_in_spec (set_add tx p) ballot false)).
      * by destruct (Hinit mem' addr' now') as (tx' & ->).
      * right. destruct Hiss as (t & Ht & Hid & Hst).
        exists t. split; [by apply elem_of_set_add_old|done].
  - intros Hno. unfold VotingComputer_create_transaction. rewrite Hp.
    destruct (ballot_issued_in p ballot false) eqn:E; [|done].
    apply ballot_issued_in_spec in E as [?|?]; done.
Qed.


Lemma add_transaction_issuance mem tx m addr :
  knows_generator (node tx) addr m ->
  verify_transaction mem tx = inr true -> timestamped tx = false ->
  exists p, pending_transactions m = Some p /\ (addr ∉ map tx_addr p)
            /\ add_transaction mem tx m = Ok (with_pending (set_add tx p) m).
Proof.
  intros (Hk & [mm Hm] & (g' & Hg & Hpk) & (p & Hp & Hfresh)) Hv Hts.
  exists p. split; [done|]. split; [done|].
  unfold add_transaction, admission_valid, is_node_in_network.
  rewrite Hm, Hk, Hg.
  assert (Htrust : (if bool_decide (is_Some (mm !! hash (node_public_key (node tx))))
                    then inr true
                    else inr (bool_decide (node_public_key (node tx)
                                           = node_public_key g')))
                   = (inr true : exn + bool)).
  { destruct (bool_decide (is_Some _)); [done|].
    by rewrite bool_decide_eq_true_2. }
  rewrite Htrust, Hv, Hts. cbn [negb]. by rewrite Hp.
Qed.

Lemma deliver_issuance mem tx addr ms :
  Forall (knows_generator (node tx) addr) ms ->
  verify_transaction mem tx = inr true -> timestamped tx = false ->
  exists ms',
    deliver mem tx ms = Ok ms'
    /\ Forall2 (fun m m' =>
                  exists p, pending_transactions m = Some p
                            /\ (addr ∉ map tx_addr p)
                            /\ m' = with_pending (set_add tx p) m) ms ms'.
Proof.
  intros Hall Hv Hts.
  induction Hall as [|m ms Hm Hall (ms' & E & IH)]; cbn [deliver].
  - exists []. split; [done|constructor].
  - destruct (add_transaction_issuance mem tx m addr Hm Hv Hts)
      as (p & Hp & Hfresh & ->).
    rewrite E. eexists. split; [done|]. constructor; [|done]. eauto.
Qed.

Lemma deliver_abort mem tx pre pre' bad e bad' rest :
  deliver mem tx pre = Ok pre' ->
  add_transaction mem tx bad = Raise e bad' ->
  deliver mem tx (pre ++ bad :: rest) = Raise e (pre' ++ bad' :: rest).
Proof.
  revert pre'. induction pre as [|m pre IH]; intros pre'; cbn [deliver app].
  - intros [= <-] ->. done.
  - destruct (add_transaction mem tx m) as [m'|e' m']; [|done].
    destruct (deliver mem tx pre) as [pre1|e1 pre1]; [|done].
    intros [= <-] Hbad. by rewrite (IH pre1 eq_refl Hbad).
Qed.

Lemma add_transaction_trust_raises mem tx m e :
  is_node_in_network m (node_public_key (node tx)) = inl e ->
  add_transaction mem tx m = Raise e m.
Proof. intros E. unfold add_transaction, admission_valid. by rewrite E. Qed.

(** X15. The ballot generator, with keys that belong together and its
    mapping set, creates the issuance of a ballot. When every voting
    computer it sends to has this generator and its mapping set, each of
    them receives the issuance in its pending set, and a later
    [create_transaction] for that ballot on any of them returns True. When
    the trust test raises on one of them (no mapping, or no ballot generator
    for a key that its mapping lacks) after machines set up as above, the
    call raises AttributeError there: the machines before it have the
    issuance pending, that machine and the ones after it are left as they
    were. *)
Theorem issuance_reaches_voting_computers mem addr now ballot self machines :
  matched_keys (node_keys self) -> is_Some (node_mapping self) ->
  (Forall (knows_generator (node_keys self) addr) machines ->
   exists machines',
     BallotGenerator_create_transaction mem addr now ballot self machines
     = Return true (self, machines')
     /\ length machines' = length machines
     /\ forall m', m' ∈ machines' ->
          (exists p', pending_transactions m' = Some p'
                      /\ issuance_pending p' ballot)
          /\ forall mem' addr' now',
               returned (VotingComputer_create_transaction
                           mem' addr' now' ballot m') = Some true)
  /\ (forall ready bad rest,
        machines = ready ++ bad :: rest ->
        Forall (knows_generator (node_keys self) addr) ready ->
        is_node_in_network bad (node_public_key (node_keys self))
        = inl AttributeError ->
        exists tx ready',
          Transaction_init mem VoteTransaction addr (CBallot ballot)
            (node_keys self) CREATED ISSUED false (Some false) now = inr tx
          /\ Forall2 (gets_pending tx) ready ready'
          /\ BallotGenerator_create_transaction mem addr now ballot self
               machines
             = Throw AttributeError (self, ready' ++ bad :: rest)).
Proof.
  intros Hkeys [mm Hmm].
  destruct (Transaction_init_inr mem VoteTransaction addr (CBallot ballot)
              (node_keys self) CREATED ISSUED false (Some false) now)
    as (msg & Hmsg & Hinit); [done|by left|right; by left|].
  set (tx := {| tx_addr := addr; tx_kind := VoteTransaction;
                content := CBallot ballot; signature_kwargs := Some false;
                previous_state := CREATED; new_state := ISSUED;
                node := node_keys self; timestamped := false; time := None;
                tx_signature := sign_message (node_keys self) msg |}) in *.
  assert (Hv : verify_transaction mem tx = inr true).
  { unfold verify_transaction, get_signature_contents.
    cbn [tx content signature_kwargs previous_state new_state node timestamped
         time tx_signature].
    rewrite Hmsg. unfold sign_message. red in Hkeys.
    by rewrite Hkeys, sign_correct. }
  split.
  - intros Hall.
    destruct (deliver_issuance mem tx addr machines Hall Hv eq_refl)
      as (machines' & Hdel & Hrel).
    exists machines'. split; [|split].
    + unfold BallotGenerator_create_transaction. by rewrite Hinit, Hmm, Hdel.
    + symmetry. by eapply Forall2_length.
    + intros m' Hm'.
      apply list_elem_of_lookup in Hm' as [i Hi].
      destruct (Forall2_lookup_r _ _ _ _ _ Hrel Hi)
        as (m & _ & (p & Hp & Hfresh & ->)).
      assert (Hiss : issuance_pending (set_add tx p) ballot).
      { exists tx. split; [by apply elem_of_set_add_new|done]. }
      split; [by eauto|].
      intros mem' addr' now'.
      destruct (proj1 (VotingComputer_create_transaction_step mem' addr' now'
                  ballot (with_pending (set_add tx p) m) (set_add tx p) eq_refl)
                  Hiss) as (tx' & _ & -> & _).
      done.
  - intros ready bad rest -> Hready Hbad.
    destruct (deliver_issuance mem tx addr ready Hready Hv eq_refl)
      as (ready' & Hdel & Hrel).
    exists tx, ready'. split; [done|]. split.
    + eapply Forall2_impl; [exact Hrel|].
      intros m m' (p & Hp & _ & ->). by exists p.
    + unfold BallotGenerator_create_transaction. rewrite Hinit, Hmm.
      by rewrite (deliver_abort mem tx ready ready' bad AttributeError bad rest
                    Hdel (add_transaction_trust_raises mem tx bad _ Hbad)).
Qed.


(** The loop stops at the first VoterTransaction: the transactions before
    it are timestamped and signed again, it and the ones after it are as
    they were. *)
Lemma timestamp_and_sign_transactions_abort mem now pre pre' u post :
  timestamp_and_sign_transactions mem now pre = Ok pre' ->
  tx_kind u = VoterTransaction ->
  timestamp_and_sign_transactions mem now (pre ++ u :: post)
  = Raise AttributeError (pre' ++ u :: post).
Proof.
  intros Hpre Hu. revert pre' Hpre.
  induction pre as [|t pre IH]; intros pre';
    cbn [timestamp_and_sign_transactions app].
  - intros [= <-]. unfold timestamp_and_sign. by rewrite Hu.
  - destruct (timestamp_and_sign mem now t) as [t'|e t']; [|done].
    destruct (timestamp_and_sign_transactions mem now pre) as [p1|e p1];
      [|done].
    intros [= <-]. by rewrite (IH p1 eq_refl).
Qed.





End node_work.

(** ** Handing ballots out *)

Section handing_out.
Context `{HC : Crypto} `{HR : Runtime}.

Lemma list_remove_spec (b : Ballot) l :
  b ∈ l ->
  exists l',
    list_remove b l = Some l'
    /\ length l = S (length l')
    /\ (forall x, x ∈ l' -> x ∈ l)
    /\ (forall x, x ∈ l -> ballot_addr x <> ballot_addr b -> x ∈ l')
    /\ (NoDup (map ballot_addr l) -> ballot_addr b ∉ map ballot_addr l').
Proof.
  induction l as [|x l IH]; intros Hin; [by apply elem_of_nil in Hin|].
  cbn [list_remove].
  destruct (decide (ballot_addr x = ballot_addr b)) as [E|E].
  - exists l. split; [done|]. split; [done|]. split; [|split].
    + intros y Hy. by right.
    + intros y [->|Hy]%elem_of_cons Hne; done.
    + cbn [map]. rewrite E. by intros [? _]%NoDup_cons.
  - apply elem_of_cons in Hin as [->|Hin]; [done|].
    destruct (IH Hin) as (l' & -> & Hlen & Hsub & Hkeep & Hnd).
    exists (x :: l'). split; [done|]. split; [simpl; lia|].
    split; [|split].
    + intros y [->|Hy]%elem_of_cons; [by left|right; by apply Hsub].
    + intros y [->|Hy]%elem_of_cons Hne; [by left|right; by apply Hkeep].
    + cbn [map]. intros [_ Hnd']%NoDup_cons.
      intros [?|?]%elem_of_cons; [done|]. by apply Hnd.
Qed.

Lemma retrieve_ballot_step mem addr now r self machines l :
  available_ballots self = Some l ->
  (l = [] ->
   retrieve_ballot mem addr now r self machines = Return None (self, machines))
  /\ (l <> [] ->
      exists ballot l',
        l !! (r `mod` length l) = Some ballot
        /\ list_remove ballot l = Some l'
        /\ length l = S (length l')
        /\ (NoDup (map ballot_addr l) ->
            ballot_addr ballot ∉ map ballot_addr l')
        /\ (let out := retrieve_ballot mem addr now r self machines in
            available_ballots (fst (outcome_state out)) = Some l'
            /\ master_ballots (fst (outcome_state out)) = master_ballots self
            /\ (returned out = Some (Some ballot) \/ returned out = None)
            /\ (node_mapping (generator self) = None -> returned out = None))).
Proof.
  intros Hl. split.
  - intros ->. unfold retrieve_ballot. by rewrite Hl.
  - intros Hne.
    assert (Hlen : 0 < length l) by (destruct l; simpl; [done|lia]).
    destruct (lookup_lt_is_Some_2 l (r `mod` length l)) as [ballot Hb].
    { apply Nat.mod_upper_bound. lia. }
    destruct (list_remove_spec ballot l) as (l' & Hrm & Hlen' & _ & _ & Hnd).
    { by eapply list_elem_of_lookup_2. }
    exists ballot, l'. split; [done|]. split; [done|]. split; [done|].
    split; [done|].
    unfold retrieve_ballot. rewrite Hl, bool_decide_eq_true_2 by done.
    rewrite Hb, Hrm.
    unfold BallotGenerator_create_transaction.
    destruct (Transaction_init mem VoteTransaction addr (CBallot ballot) _
                CREATED ISSUED false (Some false) now) as [e|tx];
      [cbn; by eauto|].
    destruct (node_mapping (generator self)) as [mm|]; [|cbn; by eauto].
    destruct (deliver mem tx machines) as [ms|e ms]; cbn.
    + split; [done|]. split; [done|]. split; [by left|done].
    + split; [done|]. split; [done|]. split; [by right|done].
Qed.

(** X17. [retrieve_ballot] returns None and changes nothing when no ballot
    is left. Otherwise it takes the drawn ballot out of the available ones,
    which get one fewer, and leaves the master list alone; the ballot is
    out whether the call then returns it or raises, and the call does raise
    when the generator has no node mapping. *)
Theorem retrieve_ballot_takes_one mem addr now r self machines l :
  available_ballots self = Some l ->
  (l = [] ->
   retrieve_ballot mem addr now r self machines = Return None (self, machines))
  /\ (l <> [] ->
      exists ballot l',
        l !! (r `mod` length l) = Some ballot
        /\ list_remove ballot l = Some l'
        /\ length l = S (length l')
        /\ (NoDup (map ballot_addr l) ->
            ballot_addr ballot ∉ map ballot_addr l')
        /\ (let out := retrieve_ballot mem addr now r self machines in
            available_ballots (fst (outcome_state out)) = Some l'
            /\ master_ballots (fst (outcome_state out)) = master_ballots self
            /\ (returned out = Some (Some ballot) \/ returned out = None)
            /\ (node_mapping (generator self) = None -> returned out = None))).
Proof. apply retrieve_ballot_step. Qed.

End handing_out.

(** ** The network built by [set_up_nodes] *)

Section network.
Context `{HC : Crypto} `{HR : Runtime}.

Lemma build_node_mapping_other first sks m h :
  h ∉ map mapping_key sks ->
  build_node_mapping first sks m !! h = m !! h.
Proof.
  revert first m. induction sks as [|sk sks IH]; intros first m Hno;
    cbn [build_node_mapping]; [done|].
  cbn [map] in Hno. apply not_elem_of_cons in Hno as [Hne Hno].
  rewrite IH by done. rewrite lookup_insert_ne; [done|].
  intros E. apply Hne. by rewrite <- E.
Qed.

Lemma build_node_mapping_lookup first sks m j sk :
  NoDup (map mapping_key sks) -> sks !! j = Some sk ->
  build_node_mapping first sks m !! mapping_key sk = Some (first + j).
Proof.
  revert first m j. induction sks as [|sk0 sks IH]; intros first m j Hnd Hj;
    [done|].
  cbn [map] in Hnd. apply NoDup_cons in Hnd as [Hno Hnd].
  cbn [build_node_mapping]. destruct j as [|j].
  - cbn in Hj. injection Hj as ->. rewrite build_node_mapping_other by done.
    unfold mapping_key. rewrite lookup_insert_eq. f_equal. lia.
  - rewrite (IH (S first) _ j Hnd Hj). f_equal. lia.
Qed.

(** X18. With keys that hash apart, [set_up_nodes] for more than one node
    gives every node a mapping with every other node in it, under the hash
    of its public key, and without the node itself; a node set up alone
    gets no mapping at all. *)
Theorem set_up_nodes_connects cls first sks :
  (length sks = 1 ->
   forall n, n ∈ set_up_nodes cls first sks -> node_mapping n = None)
  /\ (length sks <> 1 -> NoDup (map mapping_key sks) ->
      forall i j n sk,
        set_up_nodes cls first sks !! i = Some n -> sks !! j = Some sk ->
        exists m, node_mapping n = Some m
                  /\ m !! mapping_key sk
                     = if decide (i = j) then None else Some (first + j)).
Proof.
  unfold set_up_nodes. split.
  - intros Hone. rewrite decide_True by done.
    intros n (sk & -> & _)%list_elem_of_fmap. done.
  - intros Hmany Hnd i j n sk Hi Hj. rewrite decide_False in Hi by done.
    rewrite map_map in Hi.
    change (map ?f sks) with (f <$> sks) in Hi.
    rewrite list_lookup_fmap in Hi.
    destruct (sks !! i) as [ski|] eqn:Hski; [|done].
    injection Hi as <-. eexists. split; [done|].
    cbn [Node_init node_keys node_public_key].
    destruct (decide (i = j)) as [->|Hne].
    + assert (ski = sk) as -> by congruence.
      unfold mapping_key. by rewrite lookup_delete_eq.
    + rewrite lookup_delete_ne.
      * by apply build_node_mapping_lookup.
      * intros E. apply Hne.
        eapply (NoDup_lookup (map mapping_key sks)); [done| |].
        -- change (map ?f sks) with (f <$> sks).
           by rewrite list_lookup_fmap, Hski.
        -- change (map ?f sks) with (f <$> sks).
           rewrite list_lookup_fmap, Hj. cbn. unfold mapping_key. by rewrite E.
Qed.

End network.

(** ** The chain *)

Section chain_more.
Context `{HC : Crypto} `{HR : Runtime}.

(** X19. A new chain accepts exactly the blocks that have no previous
    block, and [is_genesis_block] answers False on each of them; on a chain
    that has a head, every block that [add_block] accepts has a previous
    block, so that [is_genesis_block] answers True on it. *)
Theorem first_block_is_not_reported_genesis block l self :
  (snd (add_block block (Blockchain_init l)) = true
   <-> previous_block block = None)
  /\ (snd (add_block block (Blockchain_init l)) = true ->
      is_genesis_block block = false)
  /\ (is_Some (current_block self) -> snd (add_block block self) = true ->
      is_genesis_block block = true).
Proof.
  unfold add_block, is_same, is_genesis_block, Blockchain_init.
  cbn [current_block]. split; [|split].
  - destruct (previous_block block) as [p|]; cbn; [|done].
    rewrite bool_decide_eq_false_2 by done. done.
  - destruct (previous_block block) as [p|]; cbn; [|done].
    rewrite bool_decide_eq_false_2 by done. done.
  - intros [hd ->]. destruct (previous_block block) as [p|]; cbn; [done|].
    rewrite bool_decide_eq_false_2 by done. done.
Qed.

End chain_more.

(** ** Generated ballots *)

Section generation.
Context `{HC : Crypto} `{HR : Runtime}.

Lemma get_deep_copy_of_list_length its h its' h' :
  get_deep_copy_of_list its h = (its', h') -> length its' = length its.
Proof.
  revert h its' h'. induction its as [|it its IH]; intros h its' h' E;
    simpl in E.
  - by injection E as <- <-.
  - destruct (BallotItem_deepcopy it h) as [it1 h1] eqn:E1.
    destruct (get_deep_copy_of_list its h1) as [its2 h2] eqn:E2.
    injection E as <- <-. simpl. f_equal. by eapply IH.
Qed.

Lemma generate_loop_layout election_name its rand i count h bs h' :
  generate_loop election_name its rand i count h = (bs, h') ->
  length bs = count
  /\ (forall k b, bs !! k = Some b ->
        ballot_id b = pretty (rand (i + k)) /\ election b = election_name
        /\ length (items b) = length its
        /\ next_addr h <= ballot_addr b < next_addr h')
  /\ (forall k1 k2 b1 b2,
        k1 < k2 -> bs !! k1 = Some b1 -> bs !! k2 = Some b2 ->
        ballot_addr b1 < ballot_addr b2
        /\ forall c1 c2, c1 ∈ ballot_choices b1 -> c2 ∈ ballot_choices b2 ->
                         choice_addr c1 < choice_addr c2).
Proof.
  revert i h bs h'. induction count as [|count IH]; intros i h bs h' E;
    simpl in E.
  - injection E as <- <-. split; [done|]. split; [done|].
    intros k1 k2 b1 b2 _ Hk1. done.
  - destruct (get_deep_copy_of_list its h) as [copies h1] eqn:E1.
    destruct (generate_loop election_name its rand (S i) count _)
      as [rest h3] eqn:E3.
    injection E as <- <-.
    destruct (get_deep_copy_of_list_fresh _ _ _ _ E1) as [Hle1 Hc1].
    pose proof (get_deep_copy_of_list_length _ _ _ _ E1) as Hlen1.
    destruct (generate_loop_fresh _ _ _ _ _ _ _ _ E3) as [Hle3 Hc3].
    destruct (IH _ _ _ _ E3) as (Hlen & Hfields & Horder).
    cbn [next_addr] in Hle3, Hc3, Hfields.
    split; [simpl; by rewrite Hlen|]. split.
    + intros [|k] b Hb; cbn in Hb.
      * injection Hb as <-. cbn [ballot_id election items ballot_addr].
        rewrite Nat.add_0_r. split; [done|]. split; [done|].
        split; [done|]. lia.
      * destruct (Hfields k b Hb) as (Hid & He & Hit & Hrange).
        replace (i + S k) with (S i + k) by lia.
        split; [done|]. split; [done|]. split; [done|]. lia.
    + intros [|k1] [|k2] b1 b2 Hlt Hb1 Hb2; cbn in Hb1, Hb2; try lia.
      * injection Hb1 as <-. cbn [ballot_addr].
        destruct (Hfields k2 b2 Hb2) as (_ & _ & _ & Hrange).
        split; [lia|].
        intros c1 c2 Hc1' Hc2.
        unfold ballot_choices in Hc1'. cbn [items] in Hc1'.
        apply list_elem_of_In, in_flat_map in Hc1' as (it & Hit & Hc1').
        apply list_elem_of_In in Hit, Hc1'.
        specialize (Hc1 it c1 Hit Hc1').
        specialize (Hc3 b2 c2 (list_elem_of_lookup_2 _ _ _ Hb2) Hc2). lia.
      * apply (Horder k1 k2 b1 b2); [lia|done|done].
Qed.

Lemma generate_ballots_order election_name its num_ballots rand h bs h' :
  generate_ballots election_name its num_ballots rand h = (bs, h') ->
  length bs = default 0 num_ballots
  /\ (forall k b, bs !! k = Some b ->
        ballot_id b = pretty (rand k) /\ election b = election_name
        /\ length (items b) = length its)
  /\ (forall k1 k2 b1 b2,
        k1 < k2 -> bs !! k1 = Some b1 -> bs !! k2 = Some b2 ->
        ballot_addr b1 < ballot_addr b2
        /\ forall c1 c2, c1 ∈ ballot_choices b1 -> c2 ∈ ballot_choices b2 ->
                         choice_addr c1 < choice_addr c2).
Proof.
  intros E.
  unfold generate_ballots in E. destruct num_ballots as [[|n]|].
    - injection E as <- <-. split; [done|]. split; [done|].
      intros k1 k2 b1 b2 _ Hk1. done.
    - destruct (generate_loop_layout _ _ _ _ _ _ _ _ E)
        as (Hlen & Hfields & Horder).
      split; [done|]. split; [|done].
      intros k b Hb. by destruct (Hfields k b Hb) as (? & ? & ? & _).
    - injection E as <- <-. split; [done|]. split; [done|].
      intros k1 k2 b1 b2 _ Hk1. done.
Qed.

Lemma generate_ballots_NoDup election_name its num_ballots rand h bs h' :
  generate_ballots election_name its num_ballots rand h = (bs, h') ->
  NoDup (map ballot_addr bs).
Proof.
  intros E.
  destruct (generate_ballots_order _ _ _ _ _ _ _ E) as (_ & _ & Horder).
  apply NoDup_alt. intros k1 k2 a Hk1 Hk2.
    change (map ?f bs) with (f <$> bs) in Hk1, Hk2.
    rewrite list_lookup_fmap in Hk1, Hk2.
    destruct (bs !! k1) as [b1|] eqn:Hb1; [|done].
    destruct (bs !! k2) as [b2|] eqn:Hb2; [|done].
    cbn in Hk1, Hk2. injection Hk1 as Hk1. injection Hk2 as Hk2.
    destruct (Nat.lt_trichotomy k1 k2) as [Hlt|[?|Hlt]]; [|done|].
    - destruct (Horder k1 k2 b1 b2 Hlt Hb1 Hb2) as [? _]. lia.
    - destruct (Horder k2 k1 b2 b1 Hlt Hb2 Hb1) as [? _]. lia.
Qed.

(** X20. [generate_ballots] returns as many ballots as asked for (none when
    the number is left out or is zero), each a new object with the election
    name, the id drawn for it and as many items as the template; no Choice
    object is shared between two of the ballots; and the vote ledger built
    from them counts them one by one. *)
Theorem generate_ballots_layout election_name its num_ballots rand h bs h' :
  generate_ballots election_name its num_ballots rand h = (bs, h') ->
  length bs = default 0 num_ballots
  /\ NoDup (map ballot_addr bs)
  /\ (forall k b, bs !! k = Some b ->
        ballot_id b = pretty (rand k) /\ election b = election_name
        /\ length (items b) = length its)
  /\ (forall k1 k2 b1 b2 c1 c2,
        k1 <> k2 -> bs !! k1 = Some b1 -> bs !! k2 = Some b2 ->
        c1 ∈ ballot_choices b1 -> c2 ∈ ballot_choices b2 ->
        choice_addr c1 <> choice_addr c2)
  /\ (forall L marks, vote_reachable bs (L, marks) ->
        vote_ledger_shape bs (vote_ledger L)).
Proof.
  intros E.
  destruct (generate_ballots_order _ _ _ _ _ _ _ E)
    as (Hlen & Hfields & Horder).
  pose proof (generate_ballots_NoDup _ _ _ _ _ _ _ E) as Hnd.
  split; [done|]. split; [done|]. split; [done|]. split.
  - intros k1 k2 b1 b2 c1 c2 Hne Hb1 Hb2 Hc1 Hc2.
    destruct (Nat.lt_trichotomy k1 k2) as [Hlt|[?|Hlt]]; [|done|].
    + destruct (Horder k1 k2 b1 b2 Hlt Hb1 Hb2) as [_ Hc].
      specialize (Hc c1 c2 Hc1 Hc2). lia.
    + destruct (Horder k2 k1 b2 b1 Hlt Hb2 Hb1) as [_ Hc].
      specialize (Hc c2 c1 Hc2 Hc1). lia.
  - intros L marks Hr. exact (vote_reachable_shape bs (L, marks) Hnd Hr).
Qed.

(** What the memo of a running [deepcopy] holds, for the choices [all] of
    the item being copied from the heap [h0]. *)
Lemma deepcopy_Choice_copy h0 all c memo h c' memo' h' :
  deepcopy_Choice c memo h = (c', memo', h') ->
  c ∈ all -> one_object_per_address all ->
  (forall x, x ∈ all -> choice_addr x < next_addr h0) ->
  next_addr h0 <= next_addr h ->
  (forall x, x < next_addr h0 -> chosen h x = chosen h0 x) ->
  (forall k v, memo !! k = Some v ->
     choice_addr v < next_addr h
     /\ chosen h (choice_addr v) = chosen h0 k
     /\ exists c0, c0 ∈ all /\ choice_addr c0 = k
                   /\ choice_description v = choice_description c0) ->
  next_addr h <= next_addr h'
  /\ (forall x, x < next_addr h -> chosen h' x = chosen h x)
  /\ (forall k v, memo' !! k = Some v ->
        choice_addr v < next_addr h'
        /\ chosen h' (choice_addr v) = chosen h0 k
        /\ exists c0, c0 ∈ all /\ choice_addr c0 = k
                      /\ choice_description v = choice_description c0)
  /\ choice_addr c' < next_addr h'
  /\ choice_copy h0 h' c c'.
Proof.
  unfold deepcopy_Choice. intros E Hc Hone Halloc Hle Hframe Hmemo.
  destruct (memo !! choice_addr c) as [v|] eqn:Hv.
  - injection E as <- <- <-.
    destruct (Hmemo _ _ Hv) as (Hlt & Hch & c0 & Hc0 & Ha & Hd).
    split; [lia|]. split; [done|]. split; [done|]. split; [done|].
    split; [|done]. rewrite Hd. by rewrite (Hone c0 c Hc0 Hc Ha).
  - injection E as <- <- <-. cbn [next_addr chosen choice_addr].
    pose proof (Halloc c Hc) as Hcl.
    split; [lia|]. split.
    { intros x Hx. rewrite decide_False by lia. done. }
    split; [|split].
    + intros k v. destruct (decide (k = choice_addr c)) as [->|Hne].
      * rewrite lookup_insert_eq. intros [= <-]. cbn [choice_addr].
        split; [lia|]. rewrite decide_True by done.
        split; [by apply Hframe|]. by exists c.
      * rewrite lookup_insert_ne by done. intros Hk.
        destruct (Hmemo _ _ Hk) as (Hlt & Hch & Hex).
        split; [lia|]. rewrite decide_False by lia. done.
    + lia.
    + unfold choice_copy. cbn [chosen choice_addr choice_description].
      split; [done|]. rewrite decide_True by done. by apply Hframe.
Qed.

Lemma deepcopy_choices_copy h0 all cs memo h cs' memo' h' :
  deepcopy_choices cs memo h = (cs', memo', h') ->
  (forall c, c ∈ cs -> c ∈ all) -> one_object_per_address all ->
  (forall x, x ∈ all -> choice_addr x < next_addr h0) ->
  next_addr h0 <= next_addr h ->
  (forall x, x < next_addr h0 -> chosen h x = chosen h0 x) ->
  (forall k v, memo !! k = Some v ->
     choice_addr v < next_addr h
     /\ chosen h (choice_addr v) = chosen h0 k
     /\ exists c0, c0 ∈ all /\ choice_addr c0 = k
                   /\ choice_description v = choice_description c0) ->
  next_addr h <= next_addr h'
  /\ (forall x, x < next_addr h -> chosen h' x = chosen h x)
  /\ Forall2 (choice_copy h0 h') cs cs'.
Proof.
  revert memo h cs' memo' h'.
  induction cs as [|c cs IH];
    intros memo h cs' memo' h' E Hsub Hone Halloc Hle Hframe Hmemo; simpl in E.
  - injection E as <- <- <-. split; [lia|]. split; [done|constructor].
  - destruct (deepcopy_Choice c memo h) as [[c1 memo1] h1] eqn:E1.
    destruct (deepcopy_choices cs memo1 h1) as [[cs2 memo2] h2] eqn:E2.
    injection E as <- <- <-.
    destruct (deepcopy_Choice_copy h0 all _ _ _ _ _ _ E1
                (Hsub c ltac:(left)) Hone Halloc Hle Hframe Hmemo)
      as (Hle1 & Hframe1 & Hmemo1 & Hlt1 & Hd1 & Hch1).
    assert (Hsub' : forall x, x ∈ cs -> x ∈ all).
    { intros x Hx. apply Hsub. by right. }
    assert (Hframe' : forall x, x < next_addr h0 -> chosen h1 x = chosen h0 x).
    { intros x Hx. rewrite Hframe1 by lia. by apply Hframe. }
    destruct (IH _ _ _ _ _ E2 Hsub' Hone Halloc ltac:(lia) Hframe' Hmemo1)
      as (Hle2 & Hframe2 & Hrest).
    split; [lia|]. split.
    { intros x Hx. rewrite Hframe2 by lia. by apply Hframe1. }
    constructor; [|done]. split; [done|].
    rewrite Hframe2 by done. done.
Qed.

Lemma choice_copy_frame h0 h1 h2 c c' :
  choice_copy h0 h1 c c' -> chosen h2 (choice_addr c') = chosen h1 (choice_addr c') ->
  choice_copy h0 h2 c c'.
Proof. intros [Hd Hc] E. split; [done|]. by rewrite E. Qed.

Lemma BallotItem_deepcopy_copy h0 it h it' h' :
  BallotItem_deepcopy it h = (it', h') ->
  one_object_per_address (choices it) ->
  (forall x, x ∈ choices it -> choice_addr x < next_addr h0) ->
  next_addr h0 <= next_addr h ->
  (forall x, x < next_addr h0 -> chosen h x = chosen h0 x) ->
  next_addr h <= next_addr h'
  /\ (forall x, x < next_addr h -> chosen h' x = chosen h x)
  /\ item_copy h0 h' it it'.
Proof.
  unfold BallotItem_deepcopy. intros E Hone Halloc Hle Hframe.
  destruct (deepcopy_choices (choices it) ∅ h) as [[cs memo] h1] eqn:E1.
  injection E as <- <-.
  destruct (deepcopy_choices_copy h0 (choices it) _ _ _ _ _ _ E1
              (fun c Hc => Hc) Hone Halloc Hle Hframe)
    as (Hle1 & Hframe1 & Hcopy).
  { intros k v. by rewrite lookup_empty. }
  split; [done|]. split; [done|]. by repeat split.
Qed.

Lemma item_copy_frame h0 h1 h2 it it' :
  item_copy h0 h1 it it' ->
  (forall c, c ∈ choices it' ->
             chosen h2 (choice_addr c) = chosen h1 (choice_addr c)) ->
  item_copy h0 h2 it it'.
Proof.
  intros (Ht & Hd & Hm & Hcs) Hsame. split; [done|]. split; [done|].
  split; [done|].
  apply Forall2_same_length_lookup. split; [by eapply Forall2_length|].
  intros i c c' Hc Hc'.
  eapply choice_copy_frame.
  - by eapply Forall2_lookup_lr.
  - apply Hsame. by eapply list_elem_of_lookup_2.
Qed.

Lemma get_deep_copy_of_list_copy h0 its h its' h' :
  get_deep_copy_of_list its h = (its', h') ->
  (forall it, it ∈ its -> one_object_per_address (choices it)) ->
  allocated h0 its ->
  next_addr h0 <= next_addr h ->
  (forall x, x < next_addr h0 -> chosen h x = chosen h0 x) ->
  next_addr h <= next_addr h'
  /\ (forall x, x < next_addr h -> chosen h' x = chosen h x)
  /\ Forall2 (item_copy h0 h') its its'.
Proof.
  revert h its' h'.
  induction its as [|it its IH]; intros h its' h' E Hone Halloc Hle Hframe;
    simpl in E.
  - injection E as <- <-. split; [lia|]. split; [done|constructor].
  - destruct (BallotItem_deepcopy it h) as [it1 h1] eqn:E1.
    destruct (get_deep_copy_of_list its h1) as [its2 h2] eqn:E2.
    injection E as <- <-.
    assert (Hone1 : one_object_per_address (choices it)).
    { apply Hone. by left. }
    assert (Halloc1 : forall x, x ∈ choices it -> choice_addr x < next_addr h0).
    { intros x Hx. apply (Halloc it x); [by left|done]. }
    destruct (BallotItem_deepcopy_copy h0 _ _ _ _ E1 Hone1 Halloc1 Hle Hframe)
      as (Hle1 & Hframe1 & Hc1).
    destruct (BallotItem_deepcopy_fresh _ _ _ _ E1) as [_ Hrange1].
    assert (Hone' : forall it0, it0 ∈ its ->
                                one_object_per_address (choices it0)).
    { intros it0 Hit0. apply Hone. by right. }
    assert (Halloc' : allocated h0 its).
    { intros it0 c Hit0 Hc. apply (Halloc it0 c); [by right|done]. }
    assert (Hframe' : forall x, x < next_addr h0 -> chosen h1 x = chosen h0 x).
    { intros x Hx. rewrite Hframe1 by lia. by apply Hframe. }
    destruct (IH _ _ _ E2 Hone' Halloc' ltac:(lia) Hframe')
      as (Hle2 & Hframe2 & Hrest).
    split; [lia|]. split.
    { intros x Hx. rewrite Hframe2 by lia. by apply Hframe1. }
    constructor; [|done].
    eapply item_copy_frame; [exact Hc1|].
    intros c Hc. apply Hframe2. specialize (Hrange1 c Hc). lia.
Qed.

Lemma generate_loop_copy h0 election_name its rand i count h bs h' :
  generate_loop election_name its rand i count h = (bs, h') ->
  (forall it, it ∈ its -> one_object_per_address (choices it)) ->
  allocated h0 its ->
  next_addr h0 <= next_addr h ->
  (forall x, x < next_addr h0 -> chosen h x = chosen h0 x) ->
  (forall x, x < next_addr h -> chosen h' x = chosen h x)
  /\ forall b, b ∈ bs -> Forall2 (item_copy h0 h') its (items b).
Proof.
  revert i h bs h'.
  induction count as [|count IH]; intros i h bs h' E Hone Halloc Hle Hframe;
    simpl in E.
  - injection E as <- <-. split; [done|]. by intros b ?%elem_of_nil.
  - destruct (get_deep_copy_of_list its h) as [copies h1] eqn:E1.
    destruct (generate_loop election_name its rand (S i) count _)
      as [rest h3] eqn:E3.
    injection E as <- <-.
    destruct (get_deep_copy_of_list_copy h0 _ _ _ _ E1 Hone Halloc Hle Hframe)
      as (Hle1 & Hframe1 & Hcopies).
    destruct (get_deep_copy_of_list_fresh _ _ _ _ E1) as [_ Hrange1].
    assert (Hframe' : forall x, x < next_addr h0 -> chosen h1 x = chosen h0 x).
    { intros x Hx. rewrite Hframe1 by lia. by apply Hframe. }
    destruct (IH _ _ _ _ E3 Hone Halloc) as (Hframe3 & Hrest).
    { cbn [next_addr]. lia. }
    { exact Hframe'. }
    cbn [next_addr chosen] in Hframe3.
    split.
    { intros x Hx. rewrite Hframe3 by lia. by apply Hframe1. }
    intros b [->|Hb]%elem_of_cons; [|by apply Hrest].
    cbn [items].
    apply Forall2_same_length_lookup. split; [by eapply Forall2_length|].
    intros k it it' Hit Hit'.
    eapply item_copy_frame; [by eapply Forall2_lookup_lr|].
    intros c Hc. apply Hframe3.
    specialize (Hrange1 it' c (list_elem_of_lookup_2 _ _ _ Hit') Hc). lia.
Qed.

Lemma item_copy_contents h h' it it' kw :
  item_copy h h' it it' ->
  BallotItem_get_signature_contents (chosen h') it' kw
  = BallotItem_get_signature_contents (chosen h) it kw.
Proof.
  intros (Ht & Hd & Hm & Hcs). unfold BallotItem_get_signature_contents.
  rewrite Ht, Hd, Hm. do 2 f_equal.
  induction Hcs as [|c c' cs cs' [Hdc Hcc] Hcs IH]; [done|].
  cbn [map]. rewrite IH. f_equal.
  unfold Choice_get_signature_contents. by rewrite Hdc, Hcc.
Qed.

Lemma items_copy_contents h h' its its' kw :
  Forall2 (item_copy h h') its its' ->
  map (fun it => BallotItem_get_signature_contents (chosen h') it kw) its'
  = map (fun it => BallotItem_get_signature_contents (chosen h) it kw) its.
Proof.
  induction 1 as [|it it' l l' Hit Hcs IH]; [done|].
  cbn [map]. rewrite IH. f_equal. by apply item_copy_contents.
Qed.

(** X21. Every ballot that [generate_ballots] returns carries copies of the
    items of the template: same title, description and maximum, and for each
    choice a copy with the same description and the selection the original
    had; the originals are left as they were. A generated ballot therefore
    signs as the template would under its id and the election name. *)
Theorem generated_ballots_copy_template
    election_name its num_ballots rand h bs h' :
  generate_ballots election_name its num_ballots rand h = (bs, h') ->
  (forall it, it ∈ its -> one_object_per_address (choices it)) ->
  allocated h its ->
  (forall x, x < next_addr h -> chosen h' x = chosen h x)
  /\ forall b, b ∈ bs ->
       Forall2 (item_copy h h') its (items b)
       /\ forall kw,
            Ballot_get_signature_contents (chosen h') b kw
            = join ":" ([ballot_id b; election_name]
                        ++ map (fun it =>
                                  BallotItem_get_signature_contents
                                    (chosen h) it kw) its).
Proof.
  intros E Hone Halloc.
  assert (Hcopy : (forall x, x < next_addr h -> chosen h' x = chosen h x)
                  /\ forall b, b ∈ bs ->
                       Forall2 (item_copy h h') its (items b)
                       /\ election b = election_name).
  { unfold generate_ballots in E. destruct num_ballots as [[|n]|].
    - injection E as <- <-. split; [done|]. by intros b ?%elem_of_nil.
    - destruct (generate_loop_copy h _ _ _ _ _ _ _ _ E Hone Halloc
                  (le_n _) (fun x _ => eq_refl))
        as [Hframe Hitems].
      destruct (generate_loop_layout _ _ _ _ _ _ _ _ E) as (_ & Hfields & _).
      split; [done|]. intros b Hb. split; [by apply Hitems|].
      apply list_elem_of_lookup in Hb as [k Hk].
      by destruct (Hfields k b Hk) as (_ & ? & _).
    - injection E as <- <-. split; [done|]. by intros b ?%elem_of_nil. }
  destruct Hcopy as [Hframe Hitems]. split; [done|].
  intros b Hb. destruct (Hitems b Hb) as [Hcs He]. split; [done|].
  intros kw. unfold Ballot_get_signature_contents. rewrite He.
  by rewrite (items_copy_contents h h' its (items b) kw Hcs).
Qed.

End generation.

(** ** What one transaction adds to the tallies *)

Section exact_tallies.
Context `{HC : Crypto} `{HR : Runtime}.

Lemma update_candidates_exact cs d d' c n :
  update_candidates cs d = Ok d' -> tally d c = Some n ->
  tally d' c = Some (n + Z.of_nat (times_selected (choice_addr c) cs))%Z.
Proof.
  unfold times_selected. revert d n.
  induction cs as [|x cs IH]; intros d n; cbn [update_candidates].
  - intros [= <-] Ht. rewrite Ht. f_equal. simpl. lia.
  - destruct (dict_add _ 1 d) as [e|d1] eqn:E; [done|].
    intros Hrest Ht. apply dict_add_inr in E as (m & Hm & ->).
    rewrite filter_cons.
    destruct (decide (choice_addr x = choice_addr c)) as [Ex|Ex].
    + rewrite (IH _ (n + 1)%Z Hrest).
      * f_equal. simpl length. lia.
      * unfold tally in *. rewrite Ex in *. rewrite Hm in Ht.
        injection Ht as <-. by rewrite lookup_insert_eq.
    + rewrite (IH _ n Hrest); [done|].
      unfold tally in *. rewrite lookup_insert_ne; [done|congruence].
Qed.

(** X22. A vote transaction that lines up with the recorded state of its
    ballot, whatever its two states are, moves the ballot to the new state
    and adds to the tally of each candidate the number of times the
    candidate is among the selected choices of the ballot; it adds nothing
    to the other tallies. *)
Theorem vote_counts_selected_choices mem t b σ σ' :
  content t = CBallot b ->
  ledger σ !! KBallot (ballot_addr b) = Some (VState (previous_state t)) ->
  apply_vote_transaction mem t σ = Ok σ' ->
  ledger σ' !! KBallot (ballot_addr b) = Some (VState (new_state t))
  /\ forall c n,
       tally (ledger σ) c = Some n ->
       tally (ledger σ') c
       = Some (n + Z.of_nat (times_selected (choice_addr c)
                               (get_selected_choices mem b)))%Z.
Proof.
  intros Hc Hold. unfold apply_vote_transaction.
  rewrite Hc. cbn [key_of_content]. rewrite Hold.
  rewrite decide_True by done.
  destruct (update_ledger mem t (ledger σ)) as [d|e d] eqn:Hup; [|done].
  intros [= <-]. cbn [set_reiterate set_ledger ledger].
  unfold update_ledger in Hup. rewrite Hc in Hup.
  cbn [key_of_content content_selected_choices] in Hup.
  destruct (dict_add _ (-1) _) as [e|d1] eqn:E1; [done|].
  destruct (dict_add _ 1 d1) as [e|d2] eqn:E2; [done|].
  split.
  - pose proof (update_candidates_lookup_other (get_selected_choices mem b) d2
                  (KBallot (ballot_addr b)) ltac:(done)) as Hsame.
    rewrite Hup in Hsame. cbn [state_of] in Hsame. rewrite Hsame.
    rewrite (dict_add_lookup_ne _ _ _ _ _ E2) by done.
    rewrite (dict_add_lookup_ne _ _ _ _ _ E1) by done.
    by rewrite lookup_insert_eq.
  - intros c n Ht. apply (update_candidates_exact _ d2 d c n Hup).
    unfold tally in *.
    rewrite (dict_add_lookup_ne _ _ _ _ _ E2) by done.
    rewrite (dict_add_lookup_ne _ _ _ _ _ E1) by done.
    by rewrite lookup_insert_ne.
Qed.

End exact_tallies.

(** ** The second signature and the voter computers *)

Section second_signature.
Context `{HC : Crypto} `{HR : Runtime}.

Hypothesis sign_correct :
  forall m sk, verify_signature m (sign m sk) (public_key_of sk) = true.

Lemma timestamp_and_sign_transactions_fields mem now txs :
  Forall (fun t => tx_kind t = VoteTransaction) txs ->
  exists txs',
    timestamp_and_sign_transactions mem now txs = Ok txs'
    /\ map tx_addr txs' = map tx_addr txs
    /\ Forall2 (fun t t' =>
         timestamped t' = true /\ time t' = Some now
         /\ content t' = content t /\ previous_state t' = previous_state t
         /\ new_state t' = new_state t /\ node t' = node t
         /\ (signature_kwargs t = None -> matched_keys (node t) ->
             verify_transaction mem t' = inr true)) txs txs'.
Proof.
  induction 1 as [|t txs Hk Hall (txs' & E & Ha & IH)];
    cbn [timestamp_and_sign_transactions].
  - exists []. split; [done|]. split; [done|constructor].
  - destruct (timestamp_and_sign_fields mem now t Hk) as (msg & Hmsg & E').
    destruct (timestamp_and_sign mem now t) as [t'|e t'] eqn:Et; [|done].
    rewrite E. exists (t' :: txs'). split; [done|].
    assert (Ht' : t' = {| tx_addr := tx_addr t; tx_kind := tx_kind t;
                          content := content t;
                          signature_kwargs := signature_kwargs t;
                          previous_state := previous_state t;
                          new_state := new_state t; node := node t;
                          timestamped := true; time := Some now;
                          tx_signature := sign_message (node t) msg |})
      by congruence.
    split.
    + cbn [map]. rewrite Ha. f_equal. by rewrite Ht'.
    + constructor; [|done]. rewrite Ht' at 1 2 3 4 5 6.
      cbn [content previous_state new_state node timestamped time].
      do 6 (split; [done|]).
      intros Hkw Hkeys.
      by apply (resigned_plain_transaction_verifies sign_correct mem now t t').
Qed.

(** X23. On a batch of VoteTransaction objects
    [timestamp_and_sign_transactions] returns; it keeps the transactions in
    their order, with their content, states and issuer, gives each the one
    reading of the clock, and a transaction that was built without keyword
    arguments by a node whose keys belong together passes
    [verify_transaction] afterwards. On a batch that holds a
    VoterTransaction it raises AttributeError at the first one: the
    transactions before it are timestamped and signed again, it and the
    ones after it are as they were. *)
Theorem timestamp_and_sign_transactions_batch mem now txs :
  (Forall (fun t => tx_kind t = VoteTransaction) txs ->
   exists txs',
     timestamp_and_sign_transactions mem now txs = Ok txs'
     /\ map tx_addr txs' = map tx_addr txs
     /\ Forall2 (fun t t' =>
          timestamped t' = true /\ time t' = Some now
          /\ content t' = content t /\ previous_state t' = previous_state t
          /\ new_state t' = new_state t /\ node t' = node t
          /\ (signature_kwargs t = None -> matched_keys (node t) ->
              verify_transaction mem t' = inr true)) txs txs')
  /\ (forall pre u post,
        txs = pre ++ u :: post ->
        Forall (fun t => tx_kind t = VoteTransaction) pre ->
        tx_kind u = VoterTransaction ->
        exists pre',
          timestamp_and_sign_transactions mem now pre = Ok pre'
          /\ timestamp_and_sign_transactions mem now txs
             = Raise AttributeError (pre' ++ u :: post)).
Proof.
  split; [apply timestamp_and_sign_transactions_fields|].
  intros pre u post -> Hpre Hu.
  destruct (timestamp_and_sign_transactions_fields mem now pre Hpre)
    as (pre' & Hpre' & _ & _).
  exists pre'. split; [done|].
  by apply timestamp_and_sign_transactions_abort.
Qed.

Lemma add_transaction_plain mem tx m :
  plain_peer m -> verify_transaction mem tx = inr true ->
  timestamped tx = true ->
  exists m', add_transaction mem tx m = Ok m' /\ files_by_trust tx m m'.
Proof.
  intros [Hk [mm Hm]] Hv Hts.
  unfold add_transaction, admission_valid, is_node_in_network.
  rewrite Hm, Hk.
  destruct (decide (is_Some (mm !! hash (node_public_key (node tx)))))
    as [Hin|Hno].
  - rewrite bool_decide_eq_true_2 by done. rewrite Hv, Hts. cbn [negb].
    eexists. split; [done|]. split; [done|].
    intros Hnot. exfalso. apply Hnot. split; [done|]. eauto.
  - rewrite bool_decide_eq_false_2 by done.
    eexists. split; [done|]. split; [|done].
    intros (_ & mm' & Hm' & Hin). congruence.
Qed.

Lemma deliver_plain mem tx ms :
  Forall plain_peer ms -> verify_transaction mem tx = inr true ->
  timestamped tx = true ->
  exists ms', deliver mem tx ms = Ok ms' /\ Forall2 (files_by_trust tx) ms ms'.
Proof.
  intros Hall Hv Hts.
  induction Hall as [|m ms Hm Hall (ms' & E & IH)]; cbn [deliver].
  - exists []. split; [done|constructor].
  - destruct (add_transaction_plain mem tx m Hm Hv Hts) as (m' & -> & Hf).
    rewrite E. eexists. split; [done|]. by constructor.
Qed.

(** X24. A voter computer whose keys belong together and whose mapping is
    set creates the transaction of a voter; the transaction passes
    [verify_transaction] and is put in the verified set of the node. When
    every peer is a node other than a voting computer with its mapping set,
    the call returns, and each peer files the transaction as verified when
    its mapping has the key of the node, as rejected when it does not. When
    a peer without a mapping comes after such peers, the call raises
    AttributeError there: the peers before it have filed the transaction,
    that peer and the ones after it are left as they were. *)
Theorem voter_transaction_reaches_peers mem addr now voter self peers :
  matched_keys (node_keys self) -> is_Some (node_mapping self) ->
  exists tx,
    Transaction_init mem VoterTransaction addr (CVoter voter) (node_keys self)
                     NOT_VOTED VOTED true None now = inr tx
    /\ verify_transaction mem tx = inr true
    /\ (Forall plain_peer peers ->
        exists peers',
          Forall2 (files_by_trust tx) peers peers'
          /\ VoterComputer_create_transaction mem addr now voter self peers
             = Ok (with_verified (set_add tx (verified_transactions self)) self,
                   peers'))
    /\ (forall ready bad rest,
          peers = ready ++ bad :: rest ->
          Forall plain_peer ready -> node_mapping bad = None ->
          exists ready',
            Forall2 (files_by_trust tx) ready ready'
            /\ VoterComputer_create_transaction mem addr now voter self peers
               = Raise AttributeError
                   (with_verified (set_add tx (verified_transactions self))
                      self,
                    ready' ++ bad :: rest)).
Proof.
  intros Hkeys [mm Hmm].
  destruct (VoterComputer_created_transaction_verifies sign_correct
              mem addr now voter (node_keys self) Hkeys) as (tx & Htx & Hv).
  exists tx. split; [done|]. split; [done|].
  assert (Hts : timestamped tx = true).
  { unfold Transaction_init in Htx. cbn [content_class_ok negb] in Htx.
    destruct (bool_decide _ && bool_decide _); [|done].
    unfold signature_payload in Htx. by injection Htx as <-. }
  split.
  - intros Hall.
    destruct (deliver_plain mem tx peers Hall Hv Hts) as (peers' & Hdel & Hrel).
    exists peers'. split; [done|].
    unfold VoterComputer_create_transaction. rewrite Htx, Hmm.
    cbn [broadcast_transactions]. by rewrite Hdel.
  - intros ready bad rest -> Hready Hbad.
    destruct (deliver_plain mem tx ready Hready Hv Hts)
      as (ready' & Hdel & Hrel).
    exists ready'. split; [done|].
    unfold VoterComputer_create_transaction. rewrite Htx, Hmm.
    cbn [broadcast_transactions].
    assert (Hraise : add_transaction mem tx bad = Raise AttributeError bad).
    { unfold add_transaction, admission_valid, is_node_in_network.
      by rewrite Hbad. }
    by rewrite (deliver_abort mem tx ready ready' bad AttributeError bad rest
                  Hdel Hraise).
Qed.

End second_signature.

(** ** The ballots of the generator *)

Section generator_lifecycle.
Context `{HC : Crypto} `{HR : Runtime}.

(** X25. After [generate_ballots] the generator reports ballots available
    exactly when it made at least one, and holds every ballot it returned as
    legitimate. A ballot that [retrieve_ballot] then returns is one of
    them, stays legitimate, and is no longer among the available ones, of
    which there is one fewer. *)
Theorem generator_keeps_track
    election_name its num_ballots rand h self bs self' h' :
  BallotGenerator_generate_ballots election_name its num_ballots rand h self
  = (bs, self', h') ->
  are_ballots_available self' = inr (bool_decide (0 < default 0 num_ballots))
  /\ (forall b, b ∈ bs -> is_legitimate_ballot self' b = inr true)
  /\ forall mem addr now r machines b,
       let out := retrieve_ballot mem addr now r self' machines in
       returned out = Some (Some b) ->
       b ∈ bs
       /\ is_legitimate_ballot (fst (outcome_state out)) b = inr true
       /\ exists l', available_ballots (fst (outcome_state out)) = Some l'
                     /\ (ballot_addr b ∉ map ballot_addr l')
                     /\ length bs = S (length l').
Proof.
  unfold BallotGenerator_generate_ballots.
  destruct (generate_ballots election_name its num_ballots rand h)
    as [bs0 h0] eqn:E.
  intros [= <- <- <-].
  destruct (generate_ballots_order _ _ _ _ _ _ _ E) as (Hlen & _ & _).
  pose proof (generate_ballots_NoDup _ _ _ _ _ _ _ E) as Hnd.
  split; [|split].
  - unfold are_ballots_available. cbn [available_ballots]. by rewrite Hlen.
  - intros b Hb. unfold is_legitimate_ballot. cbn [master_ballots].
    rewrite bool_decide_eq_true_2; [done|]. apply list_elem_of_fmap. eauto.
  - intros mem addr now r machines b. cbv zeta.
    set (out := retrieve_ballot mem addr now r _ machines). intros Hret.
    destruct (retrieve_ballot_step mem addr now r
                {| generator := generator self; master_ballots := Some bs0;
                   available_ballots := Some bs0 |} machines bs0 eq_refl)
      as [Hnone Hsome].
    subst out.
    destruct (decide (bs0 = [])) as [Hnil|Hne].
    { rewrite (Hnone Hnil) in Hret. done. }
    destruct (Hsome Hne)
      as (ballot & l' & Hb & _ & Hlen' & Hout & Hav & Hmaster & Hcases & _).
    destruct Hcases as [Hc|Hc]; [|congruence].
    assert (b = ballot) as -> by congruence.
    assert (Hin : ballot ∈ bs0) by (by eapply list_elem_of_lookup_2).
    split; [done|]. split.
    + unfold is_legitimate_ballot. rewrite Hmaster. cbn [master_ballots].
      rewrite bool_decide_eq_true_2; [done|]. apply list_elem_of_fmap. eauto.
    + exists l'. split; [done|]. split; [by apply Hout|done].
Qed.

End generator_lifecycle.

(** ** The further properties on the concrete election *)

Lemma ideal_sign_correct :
  forall (m : string) (sk : nat),
    verify_signature m (sign m sk) (public_key_of sk) = true.
Proof.
  intros m sk. unfold verify_signature, sign. simpl.
  by apply bool_decide_eq_true.
Defined.

Lemma ideal_sign_sound :
  forall (m m' : string) (sk pk : nat),
    verify_signature m' (sign m sk) pk = true -> m' = m.
Proof.
  intros m m' sk pk Hv. unfold verify_signature, sign in Hv. simpl in Hv.
  apply bool_decide_eq_true in Hv. by injection Hv.
Defined.

Lemma max_choices_selected_spec_witness :
  let it := president [choice_X 10; choice_Y 11] in
  ((1 <= max_choices it)%Z
   /\ (max_choices it <= selected_count picked_X (choices it))%Z)
  /\ max_choices_selected picked_X it = true.
Proof.
  intros it.
  assert (Hh : (1 <= max_choices it)%Z
               /\ (max_choices it <= selected_count picked_X (choices it))%Z).
  { split; by vm_compute. }
  split; [exact Hh|].
  apply (proj2 (max_choices_selected_spec picked_X it)). by left.
Defined.

Lemma is_filled_spec_witness :
  Forall (has_selection picked_X) (items b1)
  /\ is_filled picked_X b1 = true
  /\ length (items b1) <= length (get_selected_choices picked_X b1).
Proof.
  assert (Hsel : Forall (has_selection picked_X) (items b1)).
  { repeat constructor. exists (choice_X 10). split; [by left|reflexivity]. }
  assert (Hf : is_filled picked_X b1 = true).
  { by apply (proj2 (proj1 (is_filled_spec picked_X b1))). }
  split; [exact Hsel|]. split; [exact Hf|].
  exact (proj2 (is_filled_spec picked_X b1) Hf).
Defined.

Lemma BallotItem_vote_selects_by_description_witness :
  let it := president [choice_X 10; choice_Y 11] in
  (exists c, c ∈ choices it /\ choice_addr c = 10
             /\ choice_description c = "X")
  /\ BallotItem_vote "X" it blank 10 = true.
Proof.
  intros it.
  assert (Hc : exists c, c ∈ choices it /\ choice_addr c = 10
                         /\ choice_description c = "X").
  { exists (choice_X 10). split; [by left|by split]. }
  split; [exact Hc|].
  apply (proj2 (BallotItem_vote_selects_by_description "X" it blank 10)).
  by right.
Defined.

Lemma BallotItem_clear_unfills_witness :
  let it := president [choice_X 10; choice_Y 11] in
  is_filled picked_X b1 = true
  /\ it ∈ items b1
  /\ is_filled (BallotItem_clear it picked_X) b1 = false.
Proof.
  intros it. split; [reflexivity|].
  assert (Hin : it ∈ items b1) by (by left).
  split; [exact Hin|].
  exact (proj2 (BallotItem_clear_unfills picked_X it b1) Hin).
Defined.

Lemma Transaction_init_checks_witness :
  content_class_ok VoteTransaction (CBallot b1) = true
  /\ CREATED ∈ allowed_states VoteTransaction
  /\ ISSUED ∈ allowed_states VoteTransaction
  /\ matched_keys (keys_of 7)
  /\ exists tx,
       Transaction_init blank VoteTransaction 100 (CBallot b1) (keys_of 7)
                        CREATED ISSUED false (Some false) 0 = inr tx
       /\ constructed tx
       /\ verify_transaction blank tx = inr true.
Proof.
  assert (Hp : CREATED ∈ allowed_states VoteTransaction) by (by left).
  assert (Hn : ISSUED ∈ allowed_states VoteTransaction) by (right; by left).
  assert (Hk : matched_keys (keys_of 7)) by reflexivity.
  split; [reflexivity|]. split; [exact Hp|]. split; [exact Hn|].
  split; [exact Hk|].
  destruct (@Transaction_init_checks ideal_crypto minute_runtime
              ideal_sign_correct blank VoteTransaction 100 (CBallot b1)
              (keys_of 7) CREATED ISSUED false (Some false) 0)
    as (_ & _ & T3).
  destruct (T3 eq_refl Hp Hn)
    as (tx & Htx & Hc & _ & _ & _ & _ & _ & _ & _ & _ & Hv).
  exists tx. split; [exact Htx|]. split; [exact Hc|exact (Hv Hk)].
Defined.

Lemma selection_after_signature_witness :
  let tx := vote_tx blank 100 b1 ISSUED USED None in
  verify_transaction blank tx = inr true
  /\ choice_X 10 ∈ ballot_choices b1
  /\ blank 10 = false
  /\ verify_transaction picked_X tx = inr false.
Proof.
  intros tx.
  assert (Hin : choice_X 10 ∈ ballot_choices b1) by (by left).
  split; [reflexivity|]. split; [exact Hin|]. split; [reflexivity|].
  destruct (@selection_after_signature ideal_crypto minute_runtime
              ideal_sign_sound blank 100 b1 (keys_of 7) ISSUED USED false 0
              (choice_X 10)) as [_ T2].
  exact (T2 tx eq_refl Hin eq_refl).
Defined.

Lemma altered_state_fails_verification_witness :
  let tx := vote_tx blank 100 b1 CREATED ISSUED (Some false) in
  Transaction_init blank VoteTransaction 100 (CBallot b1) (keys_of 7)
                   CREATED ISSUED false (Some false) 0 = inr tx
  /\ verify_transaction blank tx = inr true
  /\ USED <> ISSUED
  /\ verify_transaction blank (set_new_state USED tx) = inr false.
Proof.
  intros tx.
  assert (Hne : USED <> ISSUED) by discriminate.
  split; [reflexivity|]. split; [reflexivity|]. split; [exact Hne|].
  destruct (@altered_state_fails_verification ideal_crypto minute_runtime
              ideal_sign_sound blank VoteTransaction 100 (CBallot b1)
              (keys_of 7) CREATED ISSUED false (Some false) 0 tx USED eq_refl)
    as [T1 _].
  exact (T1 Hne).
Defined.

Lemma node_rejects_own_transactions_witness :
  let m : gmap Z nat := {[ 6%Z := 2; 8%Z := 1 ]} in
  let bare := Node_init VotingComputer 6 6 in
  let clerk := Node_init VoterComputer 8 8 in
  let cast := voter_tx 201 voter1 NOT_VOTED VOTED in
  (node_public_key (node own_tx)
   = node_public_key (node_keys lone_voting_computer)
   /\ verify_transaction blank own_tx = inr true
   /\ ballot_generator lone_voting_computer = Some (keys_of 7)
   /\ add_transaction blank own_tx (set_node_mapping m lone_voting_computer)
      = Ok (with_rejected
              (set_add own_tx (rejected_transactions lone_voting_computer))
              (set_node_mapping m lone_voting_computer)))
  /\ (ballot_generator bare = None
      /\ add_transaction blank own_tx (set_node_mapping m bare)
         = Raise AttributeError (set_node_mapping m bare))
  /\ (node_public_key (node cast) = node_public_key (node_keys clerk)
      /\ verify_transaction blank cast = inr true
      /\ add_transaction blank cast (set_node_mapping m clerk)
         = Ok (with_rejected (set_add cast (rejected_transactions clerk))
                 (set_node_mapping m clerk))).
Proof.
  intros m bare clerk cast.
  assert (Hne : node_public_key (keys_of 7)
                <> node_public_key (node_keys lone_voting_computer))
    by (simpl; discriminate).
  split; [|split].
  - do 3 (split; [reflexivity|]).
    destruct (@node_rejects_own_transactions ideal_crypto minute_runtime
                blank m lone_voting_computer own_tx eq_refl)
      as (_ & _ & T3 & _).
    exact (T3 eq_refl (keys_of 7) eq_refl Hne).
  - split; [reflexivity|].
    destruct (@node_rejects_own_transactions ideal_crypto minute_runtime
                blank m bare own_tx eq_refl) as (_ & T2 & _).
    exact (T2 eq_refl eq_refl).
  - do 2 (split; [reflexivity|]).
    destruct (@node_rejects_own_transactions ideal_crypto minute_runtime
                blank m clerk cast eq_refl) as (T1 & _).
    exact (T1 eq_refl).
Defined.


Lemma issuance_reaches_voting_computers_witness :
  let bare := Node_init VotingComputer 5 5 in
  matched_keys (node_keys generator_node)
  /\ is_Some (node_mapping generator_node)
  /\ Forall (knows_generator (node_keys generator_node) 100) [voting_computer]
  /\ (exists machines',
        BallotGenerator_create_transaction blank 100 0 b1 generator_node
          [voting_computer] = Return true (generator_node, machines')
        /\ forall m', m' ∈ machines' ->
             returned (VotingComputer_create_transaction blank 101 0 b1 m')
             = Some true)
  /\ is_node_in_network bare (node_public_key (node_keys generator_node))
     = inl AttributeError
  /\ exists ready',
       BallotGenerator_create_transaction blank 100 0 b1 generator_node
         [voting_computer; bare; voting_computer]
       = Throw AttributeError
           (generator_node, ready' ++ [bare; voting_computer])
       /\ length ready' = 1.
Proof.
  intros bare.
  assert (Hk : matched_keys (node_keys generator_node)) by reflexivity.
  assert (Hm : is_Some (node_mapping generator_node)) by (by eexists).
  assert (Hall : Forall (knows_generator (node_keys generator_node) 100)
                   [voting_computer]).
  { repeat constructor.
    - by eexists.
    - exists (keys_of 7). by split.
    - exists []. split; [reflexivity|]. by intros ?%elem_of_nil. }
  assert (Hbad : is_node_in_network bare
                   (node_public_key (node_keys generator_node))
                 = inl AttributeError) by reflexivity.
  split; [exact Hk|]. split; [exact Hm|]. split; [exact Hall|].
  split; [|split; [exact Hbad|]].
  - destruct (@issuance_reaches_voting_computers ideal_crypto minute_runtime
                ideal_sign_correct blank 100 0 b1 generator_node
                [voting_computer] Hk Hm) as [T1 _].
    destruct (T1 Hall) as (machines' & E & _ & Hready).
    exists machines'. split; [exact E|].
    intros m' Hm'. exact (proj2 (Hready m' Hm') blank 101 0).
  - destruct (@issuance_reaches_voting_computers ideal_crypto minute_runtime
                ideal_sign_correct blank 100 0 b1 generator_node
                [voting_computer; bare; voting_computer] Hk Hm) as [_ T2].
    destruct (T2 [voting_computer] bare [voting_computer] eq_refl Hall Hbad)
      as (tx & ready' & _ & Hrel & E).
    exists ready'. split; [exact E|].
    symmetry. exact (Forall2_length _ _ _ Hrel).
Defined.


Lemma retrieve_ballot_takes_one_witness :
  available_ballots generator_obj = Some [b1; b2]
  /\ [b1; b2] <> []
  /\ NoDup (map ballot_addr [b1; b2])
  /\ exists ballot l',
       [b1; b2] !! (0 `mod` length [b1; b2]) = Some ballot
       /\ length [b1; b2] = S (length l')
       /\ (ballot_addr ballot ∉ map ballot_addr l')
       /\ available_ballots
            (fst (outcome_state
                    (retrieve_ballot blank 100 0 0 generator_obj
                       [voting_computer]))) = Some l'.
Proof.
  assert (Hne : [b1; b2] <> []) by discriminate.
  assert (Hnd : NoDup (map ballot_addr [b1; b2])).
  { apply (bool_decide_unpack _). by vm_compute. }
  split; [reflexivity|]. split; [exact Hne|]. split; [exact Hnd|].
  destruct (proj2 (@retrieve_ballot_takes_one ideal_crypto minute_runtime
                     blank 100 0 0 generator_obj [voting_computer] [b1; b2]
                     eq_refl) Hne)
    as (ballot & l' & Hb & _ & Hlen & Hout & Hav & _).
  exists ballot, l'. split; [exact Hb|]. split; [exact Hlen|].
  split; [exact (Hout Hnd)|exact Hav].
Defined.

Lemma set_up_nodes_connects_witness :
  let sks : list nat := [5; 6; 7] in
  length sks <> 1
  /\ NoDup (map (@mapping_key ideal_crypto) sks)
  /\ forall n, @set_up_nodes ideal_crypto minute_runtime VotingComputer 50 sks !! 0 = Some n ->
       exists m, node_mapping n = Some m
                 /\ m !! @mapping_key ideal_crypto 6 = Some 51
                 /\ m !! @mapping_key ideal_crypto 5 = None.
Proof.
  intros sks.
  assert (Hlen : length sks <> 1) by (simpl; lia).
  assert (Hnd : NoDup (map (@mapping_key ideal_crypto) sks)).
  { apply (bool_decide_unpack _). by vm_compute. }
  split; [exact Hlen|]. split; [exact Hnd|].
  intros n Hn.
  destruct (proj2 (@set_up_nodes_connects ideal_crypto minute_runtime
                     VotingComputer 50 sks) Hlen Hnd 0 1 n 6 Hn eq_refl)
    as (m & Hm & H1).
  destruct (proj2 (@set_up_nodes_connects ideal_crypto minute_runtime
                     VotingComputer 50 sks) Hlen Hnd 0 0 n 5 Hn eq_refl)
    as (m' & Hm' & H0).
  assert (m' = m) as -> by congruence.
  exists m. split; [exact Hm|]. split; [exact H1|exact H0].
Defined.

Lemma first_block_is_not_reported_genesis_witness :
  snd (add_block block_A (Blockchain_init (AVoteLedger ledger12))) = true
  /\ is_genesis_block block_A = false
  /\ is_Some (current_block chain_AB)
  /\ snd (add_block block_C chain_AB) = false.
Proof.
  assert (Ha : snd (add_block block_A (Blockchain_init (AVoteLedger ledger12)))
               = true) by reflexivity.
  split; [exact Ha|].
  destruct (@first_block_is_not_reported_genesis ideal_crypto minute_runtime
              block_A (AVoteLedger ledger12) chain_AB) as (_ & T2 & _).
  split; [exact (T2 Ha)|]. split; [by eexists|reflexivity].
Defined.

Lemma generate_ballots_layout_witness :
  generate_ballots "2018 Election" template (Some 2) (fun i => N.of_nat i) heap0
  = (fst generated, snd generated)
  /\ length (fst generated) = 2
  /\ NoDup (map ballot_addr (fst generated)).
Proof.
  assert (E : generate_ballots "2018 Election" template (Some 2)
                (fun i => N.of_nat i) heap0 = (fst generated, snd generated))
    by reflexivity.
  split; [exact E|].
  destruct (@generate_ballots_layout ideal_crypto minute_runtime _ _ _ _ _ _ _ E)
    as (Hlen & Hnd & _).
  split; [exact Hlen|exact Hnd].
Defined.

Lemma generated_ballots_copy_template_witness :
  generate_ballots "2018 Election" template (Some 2) (fun i => N.of_nat i) heap0
  = (fst generated, snd generated)
  /\ (forall it, it ∈ template -> one_object_per_address (choices it))
  /\ allocated heap0 template
  /\ forall b, b ∈ fst generated ->
       Forall2 (item_copy heap0 (snd generated)) template (items b).
Proof.
  assert (E : generate_ballots "2018 Election" template (Some 2)
                (fun i => N.of_nat i) heap0 = (fst generated, snd generated))
    by reflexivity.
  assert (Hone : forall it, it ∈ template ->
                   one_object_per_address (choices it)).
  { intros it ->%list_elem_of_singleton c1 c2 H1 H2 Ha.
    apply elem_of_cons in H1 as [->|H1%list_elem_of_singleton];
      apply elem_of_cons in H2 as [->|H2%list_elem_of_singleton];
      subst; try reflexivity; discriminate Ha. }
  assert (Halloc : allocated heap0 template).
  { intros it c ->%list_elem_of_singleton Hc.
    apply elem_of_cons in Hc as [->|Hc%list_elem_of_singleton];
      subst; simpl; lia. }
  split; [exact E|]. split; [exact Hone|]. split; [exact Halloc|].
  destruct (generated_ballots_copy_template _ _ _ _ _ _ _ E Hone Halloc)
    as [_ Hcopies].
  intros b Hb. exact (proj1 (Hcopies b Hb)).
Defined.

Lemma vote_counts_selected_choices_witness :
  let t := vote_tx picked_X 100 b1 CREATED ISSUED (Some false) in
  let σ := store_of ledger12 in
  let σ' := state_of (apply_vote_transaction picked_X t σ) in
  content t = CBallot b1
  /\ ledger σ !! KBallot (ballot_addr b1) = Some (VState (previous_state t))
  /\ apply_vote_transaction picked_X t σ = Ok σ'
  /\ tally (ledger σ) (choice_X 10) = Some 0%Z
  /\ tally (ledger σ') (choice_X 10) = Some 1%Z.
Proof.
  intros t σ σ'.
  assert (Hc : content t = CBallot b1) by reflexivity.
  assert (Hold : ledger σ !! KBallot (ballot_addr b1)
                 = Some (VState (previous_state t))) by reflexivity.
  assert (Hrun : apply_vote_transaction picked_X t σ = Ok σ') by reflexivity.
  assert (Ht : tally (ledger σ) (choice_X 10) = Some 0%Z) by reflexivity.
  split; [exact Hc|]. split; [exact Hold|]. split; [exact Hrun|].
  split; [exact Ht|].
  destruct (@vote_counts_selected_choices ideal_crypto minute_runtime picked_X
              t b1 σ σ' Hc Hold Hrun) as [_ T].
  exact (T (choice_X 10) 0%Z Ht).
Defined.

Lemma timestamp_and_sign_transactions_batch_witness :
  let t := vote_tx blank 110 b1 ISSUED USED None in
  Forall (fun t => tx_kind t = VoteTransaction) [t]
  /\ signature_kwargs t = None
  /\ matched_keys (node t)
  /\ (exists t',
        timestamp_and_sign_transactions blank 5 [t] = Ok [t']
        /\ time t' = Some 5
        /\ verify_transaction blank t' = inr true)
  /\ tx_kind untimestamped_voter_tx = VoterTransaction
  /\ exists pre',
       timestamp_and_sign_transactions blank 5 [t] = Ok pre'
       /\ timestamp_and_sign_transactions blank 5
            [t; untimestamped_voter_tx; issuance_b1]
          = Raise AttributeError
              (pre' ++ [untimestamped_voter_tx; issuance_b1]).
Proof.
  intros t.
  assert (Hvote : Forall (fun t => tx_kind t = VoteTransaction) [t]).
  { by repeat constructor. }
  assert (Hkw : signature_kwargs t = None) by reflexivity.
  assert (Hk : matched_keys (node t)) by reflexivity.
  split; [exact Hvote|]. split; [exact Hkw|]. split; [exact Hk|].
  split; [|split; [reflexivity|]].
  - destruct (@timestamp_and_sign_transactions_batch ideal_crypto
                minute_runtime ideal_sign_correct blank 5 [t]) as [T1 _].
    destruct (T1 Hvote) as (txs' & E & _ & Hrel).
    destruct txs' as [|t' [|? ?]];
      [by apply Forall2_length in Hrel| |by apply Forall2_length in Hrel].
    apply Forall2_cons_1 in Hrel as [(_ & Htm & _ & _ & _ & _ & Hv) _].
    exists t'. split; [exact E|]. split; [exact Htm|exact (Hv Hkw Hk)].
  - destruct (@timestamp_and_sign_transactions_batch ideal_crypto
                minute_runtime ideal_sign_correct blank 5
                [t; untimestamped_voter_tx; issuance_b1]) as [_ T2].
    exact (T2 [t] untimestamped_voter_tx [issuance_b1] eq_refl Hvote eq_refl).
Defined.

Lemma voter_transaction_reaches_peers_witness :
  let self := set_node_mapping {[ 9%Z := 1 ]} (Node_init VoterComputer 8 8) in
  let stranger := set_node_mapping {[ 7%Z := 3 ]} (Node_init VoterComputer 4 4) in
  let bare := Node_init VoterComputer 3 3 in
  matched_keys (node_keys self)
  /\ is_Some (node_mapping self)
  /\ Forall plain_peer [voter_computer; stranger]
  /\ node_mapping bare = None
  /\ exists tx,
       verify_transaction blank tx = inr true
       /\ VoterComputer_create_transaction blank 200 0 voter1 self
            [voter_computer; stranger]
          = Ok (with_verified (set_add tx (verified_transactions self)) self,
                [with_verified
                   (set_add tx (verified_transactions voter_computer))
                   voter_computer;
                 with_rejected
                   (set_add tx (rejected_transactions stranger)) stranger])
       /\ VoterComputer_create_transaction blank 200 0 voter1 self
            [voter_computer; bare; stranger]
          = Raise AttributeError
              (with_verified (set_add tx (verified_transactions self)) self,
               [with_verified
                  (set_add tx (verified_transactions voter_computer))
                  voter_computer; bare; stranger]).
Proof.
  intros self stranger bare.
  assert (Hk : matched_keys (node_keys self)) by reflexivity.
  assert (Hm : is_Some (node_mapping self)) by (by eexists).
  assert (Hall : Forall plain_peer [voter_computer; stranger]).
  { repeat constructor; by eexists. }
  assert (Hone : Forall plain_peer [voter_computer]).
  { repeat constructor; by eexists. }
  assert (Hbad : node_mapping bare = None) by reflexivity.
  split; [exact Hk|]. split; [exact Hm|]. split; [exact Hall|].
  split; [exact Hbad|].
  destruct (@voter_transaction_reaches_peers ideal_crypto minute_runtime
              ideal_sign_correct blank 200 0 voter1 self
              [voter_computer; stranger] Hk Hm) as (tx & Htx & Hv & T1 & _).
  destruct (@voter_transaction_reaches_peers ideal_crypto minute_runtime
              ideal_sign_correct blank 200 0 voter1 self
              [voter_computer; bare; stranger] Hk Hm)
    as (tx' & Htx' & _ & _ & T2).
  assert (tx' = tx) as -> by congruence.
  assert (Hnode : node tx = keys_of 8).
  { unfold Transaction_init in Htx. simpl in Htx. by injection Htx as <-. }
  assert (Htrust : trusts (node tx) voter_computer).
  { rewrite Hnode. split; [reflexivity|]. eexists. split; [reflexivity|].
    by eexists. }
  assert (Hstr : ~ trusts (node tx) stranger).
  { rewrite Hnode. intros (_ & mm & Hmm & [x Hx]).
    injection Hmm as <-. by vm_compute in Hx. }
  exists tx. split; [exact Hv|]. split.
  - destruct (T1 Hall) as (peers' & Hrel & E).
    rewrite E. do 2 f_equal.
    apply Forall2_cons_inv_l in Hrel as (m1 & l1 & [H1 _] & Hrel & ->).
    apply Forall2_cons_inv_l in Hrel as (m2 & l2 & [_ H2] & Hrel & ->).
    apply Forall2_nil_inv_l in Hrel as ->.
    by rewrite (H1 Htrust), (H2 Hstr).
  - destruct (T2 [voter_computer] bare [stranger] eq_refl Hone Hbad)
      as (ready' & Hrel & E).
    rewrite E. do 2 f_equal.
    apply Forall2_cons_inv_l in Hrel as (m1 & l1 & [H1 _] & Hrel & ->).
    apply Forall2_nil_inv_l in Hrel as ->.
    by rewrite (H1 Htrust).
Defined.

Lemma generator_keeps_track_witness :
  let made := BallotGenerator_generate_ballots "2018 Election" template
                (Some 2) (fun i => N.of_nat i) heap0
                {| generator := generator_node; master_ballots := None;
                   available_ballots := None |} in
  let g := snd (fst made) in
  let out := retrieve_ballot (chosen (snd made)) 300 0 1 g [voting_computer] in
  are_ballots_available g = inr true
  /\ returned out = Some (Some (generated_ballot 1))
  /\ is_legitimate_ballot (fst (outcome_state out)) (generated_ballot 1)
     = inr true
  /\ available_ballots (fst (outcome_state out)) = Some [generated_ballot 0].
Proof.
  intros made g out.
  assert (E : BallotGenerator_generate_ballots "2018 Election" template
                (Some 2) (fun i => N.of_nat i) heap0
                {| generator := generator_node; master_ballots := None;
                   available_ballots := None |}
              = (fst (fst made), g, snd made)) by reflexivity.
  assert (Hret : returned out = Some (Some (generated_ballot 1)))
    by reflexivity.
  destruct (@generator_keeps_track ideal_crypto minute_runtime _ _ _ _ _ _ _ _ _
              E) as (Hav & _ & Hretrieve).
  destruct (Hretrieve (chosen (snd made)) 300 0 1 [voting_computer]
              (generated_ballot 1) Hret) as (_ & Hleg & _).
  split; [exact Hav|]. split; [exact Hret|]. split; [exact Hleg|reflexivity].
Defined.
